(** * bootlogd: capture buffer, escape filter, line stamper, console fan-out

    A shallow embedding of [src/bootlogd.c].  Pointers into [ringbuf] are
    offsets from its base (so [ringbuf] itself is offset [0]), bytes and C
    [int]s are [Z], the process memory around the arena is a total function
    from offsets to bytes, and every call into the operating system or into
    stdio is recorded in a trace, except the messages on stderr.  What the
    operating system answers is supplied from outside as queues of results,
    one queue per system call.  In the model of [main], finding the console
    names ([consolenames], [isconsole]) and the pty ([findpty]) is left to
    the environment: their results are inputs.  These three functions and
    the option loop of [main] are modelled on their own, over the calls
    they make ("Looking for devices", "The command line"). *)

From Stdlib Require Import ZArith List Bool Lia String Ascii.
Import ListNotations.
Open Scope Z_scope.

(** ** Constants of the source *)

Definition RINGBUF_SIZE : Z := 1 * 1024 * 1024.
Definition MAX_CONSOLES : Z := 16.
Definition EIO : Z := 5.

(** Character codes used by [writelog]. *)
Definition NL : Z := 10.
Definition CR : Z := 13.
Definition ESC : Z := 27.
Definition LBRACKET : Z := 91.

(** ** Data model *)

(** [struct real_cons]: a device path and its descriptor ([fd < 0]: dead). *)
Record real_cons : Type := mk_cons { name : string; fd : Z }.

(** Calls that leave the process, in program order. *)
Inductive event : Type :=
| EvFprintf (text : list Z)            (* fprintf(fp, "%.24s: ", s): the text written *)
| EvFwrite (c : Z)                     (* fwrite(ptr, 1, 1, fp) *)
| EvFflush
| EvFdatasync
| EvFputc (c : Z)
| EvFclose
| EvFopen (path : string) (ok : bool)  (* fopen(path, "a") *)
| EvRename (from to : string)
| EvOpenNb (path : string) (ret : Z)   (* the open() of open_nb *)
| EvOpenRdwr (path : string) (ret : Z) (* open(path, O_RDWR) *)
| EvIoctl (fd : Z)                     (* ioctl(fd, TIOCCONS, NULL) *)
| EvClose (fd : Z)
| EvWrite (fd : Z) (data : list Z) (ret : Z).

(** Globals, the statics of [writelog], the locals of [main] that live
    across loop iterations, and the outside world (clock and trace). *)
Record state : Type := mk_state {
  (* globals *)
  buf : Z -> Z;             (* memory at offset from ringbuf *)
  endptr : Z;
  inptr : Z;
  outptr : Z;
  got_signal : Z;
  didnl : Z;
  createlogfile : Z;
  syncalot : Z;
  (* static variables of writelog *)
  first_run : Z;
  inside_esc : Z;
  (* locals of main *)
  fp : bool;                (* false: fp == NULL *)
  logfile : string;
  rotate : Z;
  ptm : Z;
  pts : Z;
  cons : list real_cons;    (* cons[0 .. num_consoles-1] *)
  consoles_left : Z;
  (* world *)
  clock : nat -> list Z;    (* what ctime() returns at the k-th call of time() *)
  ticks : nat;
  trace : list event
}.

Definition set_buf (v : Z -> Z) (s : state) : state :=
  mk_state v (endptr s) (inptr s) (outptr s) (got_signal s) (didnl s)
    (createlogfile s) (syncalot s) (first_run s) (inside_esc s) (fp s)
    (logfile s) (rotate s) (ptm s) (pts s) (cons s) (consoles_left s)
    (clock s) (ticks s) (trace s).
Definition set_inptr (v : Z) (s : state) : state :=
  mk_state (buf s) (endptr s) v (outptr s) (got_signal s) (didnl s)
    (createlogfile s) (syncalot s) (first_run s) (inside_esc s) (fp s)
    (logfile s) (rotate s) (ptm s) (pts s) (cons s) (consoles_left s)
    (clock s) (ticks s) (trace s).
Definition set_outptr (v : Z) (s : state) : state :=
  mk_state (buf s) (endptr s) (inptr s) v (got_signal s) (didnl s)
    (createlogfile s) (syncalot s) (first_run s) (inside_esc s) (fp s)
    (logfile s) (rotate s) (ptm s) (pts s) (cons s) (consoles_left s)
    (clock s) (ticks s) (trace s).
Definition set_got_signal (v : Z) (s : state) : state :=
  mk_state (buf s) (endptr s) (inptr s) (outptr s) v (didnl s)
    (createlogfile s) (syncalot s) (first_run s) (inside_esc s) (fp s)
    (logfile s) (rotate s) (ptm s) (pts s) (cons s) (consoles_left s)
    (clock s) (ticks s) (trace s).
Definition set_first_run (v : Z) (s : state) : state :=
  mk_state (buf s) (endptr s) (inptr s) (outptr s) (got_signal s) (didnl s)
    (createlogfile s) (syncalot s) v (inside_esc s) (fp s)
    (logfile s) (rotate s) (ptm s) (pts s) (cons s) (consoles_left s)
    (clock s) (ticks s) (trace s).
Definition set_inside_esc (v : Z) (s : state) : state :=
  mk_state (buf s) (endptr s) (inptr s) (outptr s) (got_signal s) (didnl s)
    (createlogfile s) (syncalot s) (first_run s) v (fp s)
    (logfile s) (rotate s) (ptm s) (pts s) (cons s) (consoles_left s)
    (clock s) (ticks s) (trace s).
Definition set_fp (v : bool) (s : state) : state :=
  mk_state (buf s) (endptr s) (inptr s) (outptr s) (got_signal s) (didnl s)
    (createlogfile s) (syncalot s) (first_run s) (inside_esc s) v
    (logfile s) (rotate s) (ptm s) (pts s) (cons s) (consoles_left s)
    (clock s) (ticks s) (trace s).
Definition set_cons (v : list real_cons) (s : state) : state :=
  mk_state (buf s) (endptr s) (inptr s) (outptr s) (got_signal s) (didnl s)
    (createlogfile s) (syncalot s) (first_run s) (inside_esc s) (fp s)
    (logfile s) (rotate s) (ptm s) (pts s) v (consoles_left s)
    (clock s) (ticks s) (trace s).
Definition set_consoles_left (v : Z) (s : state) : state :=
  mk_state (buf s) (endptr s) (inptr s) (outptr s) (got_signal s) (didnl s)
    (createlogfile s) (syncalot s) (first_run s) (inside_esc s) (fp s)
    (logfile s) (rotate s) (ptm s) (pts s) (cons s) v
    (clock s) (ticks s) (trace s).
Definition set_ptys (m sl : Z) (s : state) : state :=
  mk_state (buf s) (endptr s) (inptr s) (outptr s) (got_signal s) (didnl s)
    (createlogfile s) (syncalot s) (first_run s) (inside_esc s) (fp s)
    (logfile s) (rotate s) m sl (cons s) (consoles_left s)
    (clock s) (ticks s) (trace s).
Definition set_ticks (v : nat) (s : state) : state :=
  mk_state (buf s) (endptr s) (inptr s) (outptr s) (got_signal s) (didnl s)
    (createlogfile s) (syncalot s) (first_run s) (inside_esc s) (fp s)
    (logfile s) (rotate s) (ptm s) (pts s) (cons s) (consoles_left s)
    (clock s) v (trace s).
Definition set_trace (v : list event) (s : state) : state :=
  mk_state (buf s) (endptr s) (inptr s) (outptr s) (got_signal s) (didnl s)
    (createlogfile s) (syncalot s) (first_run s) (inside_esc s) (fp s)
    (logfile s) (rotate s) (ptm s) (pts s) (cons s) (consoles_left s)
    (clock s) (ticks s) v.

(** Record one call that leaves the process. *)
Definition emit (e : event) (s : state) : state :=
  set_trace (trace s ++ [e]) s.

(** The [len] bytes of memory from offset [p] on. *)
Fixpoint span_from (f : Z -> Z) (p : Z) (n : nat) : list Z :=
  match n with
  | O => []
  | S k => f p :: span_from f (p + 1) k
  end.
Definition span (s : state) (p len : Z) : list Z :=
  span_from (buf s) p (Z.to_nat len).

(** ** [writelog] *)

(** The escape-sequence branch of the loop body (the [if]/[else if]/[else]
    on [inside_esc]): whether the byte is ignored, and the new
    [inside_esc]. *)
Definition esc_filter (ie c : Z) : bool * Z :=
  if ie =? 1 then
    if c =? LBRACKET then (true, 2)
    else (if (64 <=? c) && (c <=? 95) then true else false, 0)
  else if ie =? 2 then
    if ((48 <=? c) && (c <=? 57)) || (c =? 59) || ((32 <=? c) && (c <=? 47))
    then (if ie =? 0 then false else true, ie)
    else if (64 <=? c) && (c <=? 126)
    then (if ie =? 0 then (false, ie) else (true, 0))
    else (false, ie)
  else
    if c =? CR then (true, ie)
    else if c =? ESC then (true, 1)
    else (false, ie).

(** [fprintf(fp, "%.24s: ", s)]: at most 24 characters of [s], then ": ". *)
Definition stamp_text (s : list Z) : list Z := firstn 24 s ++ [58; 32].

(** [time(&t); s = ctime(&t); fprintf(...)]. *)
Definition put_stamp (s : state) : state :=
  set_ticks (S (ticks s)) (emit (EvFprintf (stamp_text (clock s (ticks s)))) s).

(** One turn of the [for] loop of [writelog], at pointer [ptr]; [dosync]
    is threaded through. *)
Definition writelog_byte (ptr : Z) (ds : bool * state) : bool * state :=
  let '(dosync, s) := ds in
  let '(dosync, s) :=
    if (buf s (ptr - 1) =? NL) || negb (first_run s =? 0)
    then (true, set_first_run 0 (put_stamp s))
    else (dosync, s) in
  let '(ignore, ie) := esc_filter (inside_esc s) (buf s ptr) in
  let s := set_inside_esc ie s in
  (dosync, if ignore then s else emit (EvFwrite (buf s ptr)) s).

Fixpoint writelog_loop (n : nat) (ptr : Z) (ds : bool * state) : bool * state :=
  match n with
  | O => ds
  | S k => writelog_loop k (ptr + 1) (writelog_byte ptr ds)
  end.

(** [writelog(fp, ptr, len)]. *)
Definition writelog (ptr len : Z) (s : state) : state :=
  let '(dosync, s) := writelog_loop (Z.to_nat len) ptr (false, s) in
  let s :=
    if dosync
    then (let s := emit EvFflush s in
          if syncalot s =? 0 then s else emit EvFdatasync s)
    else s in
  let s := set_outptr (outptr s + len) s in
  if endptr s <=? outptr s then set_outptr 0 s else s.

(** ** The operating system *)

(** What the system calls return, one queue per call, consumed in call
    order.  A function of the model returns [None] when a queue it needs is
    empty (the environment has not said what happens next) or when an
    answer is impossible for the call (more bytes than [read] asked for). *)
Record os : Type := mk_os {
  q_select : list (Z * Z);          (* select(): return value, and the signal whose
                                       handler ran by then (0: none) *)
  q_read : list (option (list Z));  (* read(ptm, ...): None is -1, else the bytes *)
  q_write : list (Z * Z);           (* write(): return value, errno *)
  q_open : list Z;                  (* the open() of open_nb *)
  q_access : list Z;                (* access(logfile, F_OK) *)
  q_fopen : list bool;              (* fopen(logfile, "a") != NULL *)
  r_findpty : option (Z * Z);       (* findpty(): None is -1, else (ptm, pts) *)
  r_tty0 : Z;                       (* open("/dev/tty0", O_RDWR) *)
  r_tioccons : Z                    (* ioctl(pts, TIOCCONS, NULL) *)
}.

Definition set_q_select (v : list (Z * Z)) (o : os) : os :=
  mk_os v (q_read o) (q_write o) (q_open o) (q_access o) (q_fopen o)
    (r_findpty o) (r_tty0 o) (r_tioccons o).
Definition set_q_read (v : list (option (list Z))) (o : os) : os :=
  mk_os (q_select o) v (q_write o) (q_open o) (q_access o) (q_fopen o)
    (r_findpty o) (r_tty0 o) (r_tioccons o).
Definition set_q_write (v : list (Z * Z)) (o : os) : os :=
  mk_os (q_select o) (q_read o) v (q_open o) (q_access o) (q_fopen o)
    (r_findpty o) (r_tty0 o) (r_tioccons o).
Definition set_q_open (v : list Z) (o : os) : os :=
  mk_os (q_select o) (q_read o) (q_write o) v (q_access o) (q_fopen o)
    (r_findpty o) (r_tty0 o) (r_tioccons o).
Definition set_q_access (v : list Z) (o : os) : os :=
  mk_os (q_select o) (q_read o) (q_write o) (q_open o) v (q_fopen o)
    (r_findpty o) (r_tty0 o) (r_tioccons o).
Definition set_q_fopen (v : list bool) (o : os) : os :=
  mk_os (q_select o) (q_read o) (q_write o) (q_open o) (q_access o) v
    (r_findpty o) (r_tty0 o) (r_tioccons o).

(** ** Console fan-out *)

(** [open_nb(buf)]; the two [fcntl] calls that clear [O_NONBLOCK] again are
    not traced. *)
Definition open_nb (path : string) (o : os) (s : state)
  : option (Z * os * state) :=
  match q_open o with
  | [] => None
  | r :: rest =>
      Some (if r <? 0 then -1 else r,
            set_q_open rest o,
            emit (EvOpenNb path r) s)
  end.

(** [write_err(pts, realfd, realcons, e)]; the message on stderr is not
    traced. *)
Definition write_err (ptsfd realfd : Z) (realcons : string) (e : Z)
    (o : os) (s : state) : option (Z * os * state) :=
  if negb (e =? EIO) then Some (-1, o, emit (EvClose ptsfd) s)
  else
    match open_nb realcons o (emit (EvClose realfd) s) with
    | None => None
    | Some (nfd, o1, s1) =>
        if nfd <? 0 then Some (-1, o1, emit (EvClose ptsfd) s1)
        else Some (nfd, o1, s1)
    end.

(** "If this was the last console, generate a fake signal":
    [if (--consoles_left <= 0) got_signal = 1;]. *)
Definition console_lost (s : state) : state :=
  let s := set_consoles_left (consoles_left s - 1) s in
  if consoles_left s <=? 0 then set_got_signal 1 s else s.

(** The [while (m > 0)] loop of [main] for one console [c]; [ws] is the
    queue of [write] results, kept in step with [q_write o]. *)
Fixpoint cons_write (ws : list (Z * Z)) (o : os) (s : state)
    (c : real_cons) (p m : Z) {struct ws} : option (real_cons * os * state) :=
  if m <=? 0 then Some (c, o, s)
  else
    match ws with
    | [] => None
    | (i, e) :: ws' =>
        let o := set_q_write ws' o in
        let s := emit (EvWrite (fd c) (span s p m) i) s in
        if 0 <=? i then cons_write ws' o s c (p + i) (m - i)
        else
          match write_err (pts s) (fd c) (name c) e o s with
          | None => None
          | Some (nfd, o1, s1) =>
              let c1 := mk_cons (name c) nfd in
              if 0 <=? nfd then cons_write ws' o1 s1 c1 p m
              else Some (c1, o1, console_lost s1)
          end
    end.

(** The [for (considx ...)] loop around it: the [n] bytes at [p] go to
    every console whose descriptor is not negative. *)
Fixpoint fanout (cs : list real_cons) (p n : Z) (o : os) (s : state)
  : option (list real_cons * os * state) :=
  match cs with
  | [] => Some ([], o, s)
  | c :: rest =>
      if fd c <? 0 then
        match fanout rest p n o s with
        | None => None
        | Some (rest1, o1, s1) => Some (c :: rest1, o1, s1)
        end
      else
        match cons_write (q_write o) o s c p n with
        | None => None
        | Some (c1, o1, s1) =>
            match fanout rest p n o1 s1 with
            | None => None
            | Some (rest2, o2, s2) => Some (c1 :: rest2, o2, s2)
            end
        end
  end.

(** ** Capture buffer *)

(** What [read(ptm, inptr, ...)] does to memory when it returns [data]. *)
Definition store (data : list Z) (s : state) : state :=
  set_buf (fun a =>
             if (inptr s <=? a) && (a <? inptr s + Z.of_nat (List.length data))
             then nth (Z.to_nat (a - inptr s)) data 0
             else buf s a) s.

(** "Increment buffer position. Handle wraps, and also drag output pointer
    along if we cross it." *)
Definition ring_advance (n : Z) (s : state) : state :=
  let s := set_inptr (inptr s + n) s in
  let s := if (inptr s - n <? outptr s) && (outptr s <? inptr s)
           then set_outptr (inptr s) s else s in
  let s := if endptr s <=? inptr s then set_inptr 0 s else s in
  if endptr s <=? outptr s then set_outptr 0 s else s.

(** The body of [if (select(...) == 1)]. *)
Definition capture_and_fanout (o : os) (s : state) : option (os * state) :=
  match q_read o with
  | [] => None
  | None :: rest => Some (set_q_read rest o, s)
  | Some data :: rest =>
      let n := Z.of_nat (List.length data) in
      if endptr s - inptr s <? n then None
      else
        let s := store data s in
        match fanout (cons s) (inptr s) n (set_q_read rest o) s with
        | None => None
        | Some (cs, o1, s1) => Some (o1, ring_advance n (set_cons cs s1))
        end
  end.

(** Only the buffer side of it: [n] bytes arrive and the pointers move. *)
Definition capture (data : list Z) (s : state) : state :=
  ring_advance (Z.of_nat (List.length data)) (store data s).

(** The number of bytes handed to [writelog] ("todo"). *)
Definition todo (s : state) : Z :=
  if outptr s <=? inptr s then inptr s - outptr s else endptr s - outptr s.

(** The bytes a drain would hand over now. *)
Definition unread (s : state) : list Z := span s (outptr s) (todo s).

(** ** Log file *)

Definition do_fopen (o : os) (s : state) : option (os * state) :=
  match q_fopen o with
  | [] => None
  | ok :: rest =>
      Some (set_q_fopen rest o, set_fp ok (emit (EvFopen (logfile s) ok) s))
  end.

(** [snprintf(buf, sizeof(buf), "%s~", logfile)] into [buf[1024]]: the name
    with a tilde, cut at 1023 characters. *)
Definition rename_target (path : string) : string :=
  substring 0 1023 (path ++ "~").

(** "Perhaps we need to open the logfile." *)
Definition open_logfile (o : os) (s : state) : option (os * state) :=
  let step1 :=
    if fp s then Some (o, s)
    else
      match q_access o with
      | [] => None
      | a :: rest =>
          let o := set_q_access rest o in
          if a =? 0 then
            do_fopen o
              (if rotate s =? 0 then s
               else emit (EvRename (logfile s) (rename_target (logfile s))) s)
          else Some (o, s)
      end in
  match step1 with
  | None => None
  | Some (o1, s1) =>
      if negb (fp s1) && negb (createlogfile s1 =? 0) then do_fopen o1 s1
      else Some (o1, s1)
  end.

(** ** The main loop *)

(** One turn of [while (!got_signal)].  A signal handler that runs during
    the turn is placed at the [select]: [got_signal] is read only by the
    loop condition. *)
Definition main_iter (o : os) (s : state) : option (os * state) :=
  match q_select o with
  | [] => None
  | (r, sig) :: rest =>
      let o := set_q_select rest o in
      let s := if sig =? 0 then s else set_got_signal sig s in
      match (if r =? 1 then capture_and_fanout o s else Some (o, s)) with
      | None => None
      | Some (o1, s1) =>
          match open_logfile o1 s1 with
          | None => None
          | Some (o2, s2) =>
              Some (o2,
                    if fp s2 && negb (todo s2 =? 0)
                    then writelog (outptr s2) (todo s2) s2 else s2)
          end
      end
  end.

Fixpoint main_loop (fuel : nat) (o : os) (s : state) : option (os * state) :=
  if negb (got_signal s =? 0) then Some (o, s)
  else
    match fuel with
    | O => None
    | S k =>
        match main_iter o s with
        | None => None
        | Some (o1, s1) => main_loop k o1 s1
        end
    end.

(** What follows the loop: the trailing newline, and closing everything. *)
Definition main_exit (s : state) : state :=
  let s :=
    if fp s
    then emit EvFclose (if didnl s =? 0 then emit (EvFputc NL) s else s)
    else s in
  let s := emit (EvClose (pts s)) s in
  let s := emit (EvClose (ptm s)) s in
  fold_left (fun a c => emit (EvClose (fd c)) a) (cons s) s.

(** ** Start-up *)

(** The two [strcmp]/[strcpy] pairs at the head of the console loop. *)
Definition fix_name (n : string) : string :=
  let n := if String.eqb n "/dev/tty0" then "/dev/tty1"%string else n in
  if String.eqb n "/dev/vc/0" then "/dev/vc/1"%string else n.

(** The loop that opens the consoles found by [consolenames]. *)
Fixpoint open_consoles (names : list string) (o : os) (s : state)
  : option (list real_cons * os * state) :=
  match names with
  | [] => Some ([], o, s)
  | n :: rest =>
      let n1 := fix_name n in
      match open_nb n1 o s with
      | None => None
      | Some (r, o1, s1) =>
          let s2 := if r <? 0
                    then set_consoles_left (consoles_left s1 - 1) s1 else s1 in
          match open_consoles rest o1 s2 with
          | None => None
          | Some (cs, o2, s3) => Some (mk_cons n1 r :: cs, o2, s3)
          end
      end
  end.

(** The command line, after [getopt]. *)
Record config : Type := mk_config {
  opt_logfile : string;
  opt_rotate : Z;
  opt_createlogfile : Z;
  opt_syncalot : Z
}.

Definition LOGFILE : string := "/run/log/stage-1.log".
Definition default_config : config := mk_config LOGFILE 0 0 0.

(** The variables as they are when [main] has parsed its options; [mem] is
    the memory at and around [ringbuf], [clk] the clock. *)
Definition init_state (cfg : config) (mem : Z -> Z) (clk : nat -> list Z)
  : state :=
  {| buf := mem; endptr := RINGBUF_SIZE; inptr := 0; outptr := 0;
     got_signal := 0; didnl := 1;
     createlogfile := opt_createlogfile cfg; syncalot := opt_syncalot cfg;
     first_run := 1; inside_esc := 0;
     fp := false; logfile := opt_logfile cfg; rotate := opt_rotate cfg;
     ptm := -1; pts := -1; cons := []; consoles_left := 0;
     clock := clk; ticks := 0; trace := [] |}.

(** From the call of [consolenames] to the start of the loop; [names] is
    what [consolenames] found (empty when it returned 0 or less).  The
    result is the exit status when [main] returns here. *)
Definition main_start (names : list string) (o : os) (s : state)
  : option (os * state * option Z) :=
  match names with
  | [] => Some (o, s, Some 1)
  | _ =>
      let s := set_consoles_left (Z.of_nat (List.length names)) s in
      match open_consoles names o s with
      | None => None
      | Some (cs, o1, s1) =>
          let s2 := set_cons cs s1 in
          if consoles_left s2 =? 0 then Some (o1, s2, Some 1)
          else
            match r_findpty o1 with
            | None => Some (o1, s2, Some 1)
            | Some (m, sl) =>
                let s3 := emit (EvIoctl 0) (set_ptys m sl s2) in
                let s4 := emit (EvOpenRdwr "/dev/tty0" (r_tty0 o1)) s3 in
                let s5 := if 0 <=? r_tty0 o1
                          then emit (EvClose (r_tty0 o1))
                                 (emit (EvIoctl (r_tty0 o1)) s4)
                          else s4 in
                let s6 := emit (EvIoctl (pts s5)) s5 in
                if r_tioccons o1 <? 0 then Some (o1, s6, Some 1)
                else Some (o1, s6, None)
            end
      end
  end.

(** [main], from [consolenames] on: exit status and final state. *)
Definition main (cfg : config) (mem : Z -> Z) (clk : nat -> list Z)
    (names : list string) (fuel : nat) (o : os) : option (Z * state) :=
  match main_start names o (init_state cfg mem clk) with
  | None => None
  | Some (o1, s1, Some status) => Some (status, s1)
  | Some (o1, s1, None) =>
      match main_loop fuel o1 s1 with
      | None => None
      | Some (o2, s2) => Some (0, main_exit s2)
      end
  end.

(** ** Observations on runs *)

(** The bytes that went through [fwrite], i.e. what the escape filter let
    pass. *)
Definition fwritten (tr : list event) : list Z :=
  flat_map (fun e => match e with EvFwrite c => [c] | _ => [] end) tr.

(** Everything that reached the log file, time stamps included. *)
Definition file_bytes (tr : list event) : list Z :=
  flat_map (fun e => match e with
                     | EvFprintf t => t
                     | EvFwrite c => [c]
                     | EvFputc c => [c]
                     | _ => []
                     end) tr.

(** The time stamps, in order. *)
Definition stamps (tr : list event) : list (list Z) :=
  flat_map (fun e => match e with EvFprintf t => [t] | _ => [] end) tr.

(** The bytes the consoles accepted, over all descriptors, in order. *)
Definition accepted (tr : list event) : list Z :=
  flat_map (fun e => match e with
                     | EvWrite _ data r =>
                         if 0 <=? r then firstn (Z.to_nat r) data else []
                     | _ => []
                     end) tr.


(** The paths given to [open_nb], in order. *)
Definition opened (tr : list event) : list string :=
  flat_map (fun e => match e with EvOpenNb p _ => [p] | _ => [] end) tr.

(** The live-target count as the descriptors have it. *)
Definition live (cs : list real_cons) : Z :=
  Z.of_nat (List.length (filter (fun c => 0 <=? fd c) cs)).

(** [s1] continues [s]: the trace has grown by events that all satisfy
    [Q]. *)
Definition extends (Q : event -> Prop) (s s1 : state) : Prop :=
  exists evs, trace s1 = trace s ++ evs /\ Forall Q evs.

(** What the console loop may do: write to a descriptor that is not
    negative, close, and reopen one of the paths [names]. *)
Definition console_event (names : list string) (e : event) : Prop :=
  match e with
  | EvWrite f _ _ => 0 <= f
  | EvClose _ => True
  | EvOpenNb p _ => In p names
  | _ => False
  end.

(** What [writelog] may do. *)
Definition log_event (e : event) : Prop :=
  match e with
  | EvFprintf _ | EvFwrite _ | EvFflush | EvFdatasync => True
  | _ => False
  end.

(** What opening the log file may do. *)
Definition file_event (e : event) : Prop :=
  match e with
  | EvFopen _ _ | EvRename _ _ => True
  | _ => False
  end.

(** What one turn of the main loop may do. *)
Definition loop_event (names : list string) (e : event) : Prop :=
  console_event names e \/ log_event e \/ file_event e.

(** The escape filter run over a list, from state [ie]: the bytes passed
    on and the final state. *)
Fixpoint esc_run (ie : Z) (l : list Z) : list Z * Z :=
  match l with
  | [] => ([], ie)
  | c :: r =>
      let '(ignore, ie1) := esc_filter ie c in
      let '(out, fin) := esc_run ie1 r in
      (if ignore then out else c :: out, fin)
  end.

(** Successive calls of [writelog] on adjacent pieces of memory, the
    pieces having the lengths [lens]. *)
Fixpoint writelog_seq (lens : list nat) (ptr : Z) (s : state) : state :=
  match lens with
  | [] => s
  | n :: rest =>
      writelog_seq rest (ptr + Z.of_nat n) (writelog ptr (Z.of_nat n) s)
  end.

(** The length of all the pieces together. *)
Definition total (lens : list nat) : nat := fold_right Nat.add O lens.

(** Successive captures, without any drain in between. *)
Definition captures (chunks : list (list Z)) (s : state) : state :=
  fold_left (fun a d => capture d a) chunks s.

(** Every capture asks [read] for no more than the room up to [endptr]. *)
Fixpoint bounded_reads (chunks : list (list Z)) (s : state) : Prop :=
  match chunks with
  | [] => True
  | d :: rest =>
      Z.of_nat (List.length d) <= endptr s - inptr s
      /\ bounded_reads rest (capture d s)
  end.

(** The log pipeline at process start, on a span that has just been read
    to the start of the arena: the bytes the filter lets through. *)
Definition filter_at_start (l : list Z) : list Z :=
  let s := store l (init_state default_config (fun _ => 0) (fun _ => [])) in
  fwritten (trace (writelog 0 (Z.of_nat (List.length l)) s)).

(** Parameter and intermediate bytes of a control sequence, and its final
    byte. *)
Definition csi_param (c : Z) : Prop :=
  48 <= c <= 57 \/ c = 59 \/ 32 <= c <= 47.
Definition csi_final (c : Z) : Prop := 64 <= c <= 126.

(** The names a console may not have once the start-up loop has run. *)
Definition fixed_name (n : string) : Prop :=
  n <> "/dev/tty0"%string /\ n <> "/dev/vc/0"%string.

(** The number of bytes of [l] that start a line in the raw stream: those
    whose predecessor is a newline ([prev] is the byte before [l]), and
    the first one when [first] is set. *)
Fixpoint line_starts (prev : Z) (first : bool) (l : list Z) : nat :=
  match l with
  | [] => O
  | c :: r =>
      let here := if (prev =? NL) || first then 1%nat else 0%nat in
      (here + line_starts c false r)%nat
  end.

(** What a whole run may do, given the paths [names] of the console table:
    no [fputc], every [open_nb] on one of [names], every [write] to a
    descriptor that is not negative. *)
Definition run_event (names : list string) (e : event) : Prop :=
  match e with
  | EvOpenNb p _ => In p names
  | EvFputc _ => False
  | EvWrite f _ _ => 0 <= f
  | _ => True
  end.

(** The descriptor of a live console came from [open_nb] on its path. *)
Definition holds_opened (tr : list event) (c : real_cons) : Prop :=
  0 <= fd c -> In (EvOpenNb (name c) (fd c)) tr.

(** Every [write] went to a descriptor that [open_nb] had returned. *)
Definition writes_to_opened (tr : list event) : Prop :=
  forall f d r, In (EvWrite f d r) tr -> exists p, In (EvOpenNb p f) tr.

(** The [close] calls at the end of [main]. *)
Definition closes (s : state) : list event :=
  [EvClose (pts s); EvClose (ptm s)] ++ map (fun c => EvClose (fd c)) (cons s).

(** ** Sample inputs *)

(** Memory that holds [l] from the start of the arena on, zero elsewhere. *)
Definition mem_of (l : list Z) : Z -> Z :=
  fun a => if a <? 0 then 0 else nth (Z.to_nat a) l 0.

(** The text of 1 January 1970, midnight, as [ctime] returns it, newline
    included. *)
Definition ctime_epoch : list Z :=
  [84; 104; 117; 32; 74; 97; 110; 32; 32; 49; 32; 48; 48; 58; 48; 48; 58;
   48; 48; 32; 49; 57; 55; 48; 10].

(** The process right after option parsing, with [l] at the start of the
    arena and a clock that stands still. *)
Definition boot_state (l : list Z) : state :=
  init_state default_config (mem_of l) (fun _ => ctime_epoch).

(** A console on /dev/ttyS0 with descriptor [f]. *)
Definition ttyS0_at (f : Z) : real_cons := mk_cons "/dev/ttyS0" f.

(** A span of 100 bytes: 40 times 'A', 60 times 'B'. *)
Definition hundred : list Z := repeat 65 40 ++ repeat 66 60.

(** One live console on descriptor 3, the pty on (7, 8), the span in the
    arena. *)
Definition one_console : state :=
  set_consoles_left 1 (set_cons [ttyS0_at 3] (set_ptys 7 8 (boot_state hundred))).


(** A short run: [open_nb] gives descriptor 3 and [findpty] the pair
    (5, 6); one byte 'A' arrives and is taken by the console; the log file
    exists and opens; at the next [select] SIGTERM has been handled. *)
Definition demo_os : os :=
  mk_os [(1, 0); (0, 15)] [Some [65]] [(1, 0)] [3] [0] [true]
    (Some (5, 6)) (-1) 0.

(** One byte arrives, the [write] to the console fails with EPIPE, and
    the log file does not exist. *)
Definition lost_os : os :=
  mk_os [(1, 0)] [Some [65]] [(-1, 32)] [] [1] [] None (-1) (-1).

(** 256 reads of 4096 bytes 'A' fill the arena; one more byte 'B' follows. *)
Definition flood : list (list Z) := repeat (repeat 65 4096) 256 ++ [[66]].

(** The process at start, nothing in the arena. *)
Definition idle_state : state :=
  init_state default_config (fun _ => 0) (fun _ => ctime_epoch).

(** The same with an arena of four bytes. *)
Definition tiny_ring : state :=
  {| buf := fun _ => 0; endptr := 4; inptr := 0; outptr := 0;
     got_signal := 0; didnl := 1; createlogfile := 0; syncalot := 0;
     first_run := 1; inside_esc := 0;
     fp := false; logfile := LOGFILE; rotate := 0;
     ptm := -1; pts := -1; cons := []; consoles_left := 0;
     clock := fun _ => ctime_epoch; ticks := 0; trace := [] |}.

(** ** The buffer between capture and drain *)

(** Both pointers are inside the arena. *)
Definition ring_ok (s : state) : Prop :=
  0 <= inptr s < endptr s /\ 0 <= outptr s < endptr s.

(** The bytes captured and not yet handed to [writelog], oldest first:
    from [outptr] up to [inptr], around the end of the arena if need be. *)
Definition buffered (s : state) : list Z :=
  if outptr s <=? inptr s then span s (outptr s) (inptr s - outptr s)
  else span s (outptr s) (endptr s - outptr s) ++ span s 0 (inptr s).

(** The call [writelog(fp, outptr, todo)] of the main loop. *)
Definition drain (s : state) : state := writelog (outptr s) (todo s) s.

(** The number of bytes a capture can add without the write pointer
    reaching the read pointer: the arena less the buffered bytes, less
    one. *)
Definition room (s : state) : Z :=
  if outptr s <=? inptr s then endptr s - inptr s + outptr s - 1
  else outptr s - inptr s - 1.

(** An arena of four bytes that holds 10, 20, 30, 40 and in which the
    buffered bytes wrap: [outptr] is at 2, [inptr] at 1. *)
Definition wrapped_ring : state :=
  set_outptr 2 (set_inptr 1 (set_buf (mem_of [10; 20; 30; 40]) tiny_ring)).

(** [l1] is [l2] with some elements left out. *)
Inductive subseq : list Z -> list Z -> Prop :=
| subseq_nil : subseq [] []
| subseq_keep (c : Z) (l1 l2 : list Z) : subseq l1 l2 -> subseq (c :: l1) (c :: l2)
| subseq_drop (c : Z) (l1 l2 : list Z) : subseq l1 l2 -> subseq l1 (c :: l2).

(** The values [inside_esc] takes. *)
Definition esc_state (ie : Z) : Prop := ie = 0 \/ ie = 1 \/ ie = 2.

(** What a call of [writelog] does after its loop when the loop has done
    [body]: flush if a time stamp was written, and sync if asked to. *)
Definition flush_tail (sync : Z) (body : list event) : list event :=
  match stamps body with
  | [] => []
  | _ :: _ => EvFflush :: (if sync =? 0 then [] else [EvFdatasync])
  end.

(** What the loop of [writelog] writes: time stamps and bytes. *)
Definition loop_output (e : event) : Prop :=
  match e with
  | EvFprintf _ | EvFwrite _ => True
  | _ => False
  end.

(** No signal handler runs during any of the turns still to come. *)
Definition quiet (o : os) : Prop := Forall (fun x => snd x = 0) (q_select o).

(** The console of [one_console] with the log file open. *)
Definition logging_console : state := set_fp true one_console.

(** Three bytes arrive, 'A', CR and 'B', and the console takes them at
    once; at the next [select] SIGTERM has been handled. *)
Definition typing_os : os :=
  mk_os [(1, 0); (0, 15)] [Some [65; 13; 66]] [(3, 0)] [] [] [] None (-1) (-1).

(** The log file is open and no console is left; all of the arena but its
    last two bytes has been filled and written out. *)
Definition near_the_end : state :=
  set_first_run 0
    (set_fp true
       (set_outptr (RINGBUF_SIZE - 2) (set_inptr (RINGBUF_SIZE - 2) idle_state))).

(** 'C' and a newline arrive, then 'B'. *)
Definition wrapping_os : os :=
  mk_os [(1, 0); (1, 0)] [Some [67; 10]; Some [66]] [] [] [] [] None (-1) (-1).

(** Some [open_nb] among [evs] returned a descriptor. *)
Definition some_open (evs : list event) : Prop :=
  exists p r, In (EvOpenNb p r) evs /\ 0 <= r.

(** ** Looking for devices *)

(** The calls that [findpty], [isconsole] and [consolenames] make. *)
Inductive probe : Type :=
| PrOpen (path : string) (ret : Z)   (* open(path, ...) and what it returned *)
| PrClose (f : Z)                    (* close(f) *)
| PrMount (ret : Z)                  (* mount("proc", "/proc", "proc", 0, NULL) *)
| PrUmount                           (* umount("/proc") *)
| PrRead (f : Z).                    (* read(f, buf, KERNEL_COMMAND_LENGTH - 1) *)

(** The system as these functions see it: what [open] returns, in call
    order, and the calls made so far. *)
Record sys : Type := mk_sys {
  opens : list Z;
  calls : list probe
}.

(** A call that takes no answer from the queue. *)
Definition call (e : probe) (w : sys) : sys := mk_sys (opens w) (calls w ++ [e]).

(** [open(path, ...)]: [None] when the environment has no answer left. *)
Definition do_open (path : string) (w : sys) : option (Z * sys) :=
  match opens w with
  | [] => None
  | r :: rest => Some (r, mk_sys rest (calls w ++ [PrOpen path r]))
  end.

(** *** findpty *)

(** The character with code [c], as a string. *)
Definition chr (c : Z) : string :=
  String (ascii_of_nat (Z.to_nat c)) EmptyString.

(** [sprintf(pty, "/dev/pty%c%c", i, j)] and [sprintf(tty, "/dev/tty%c%c", i, j)]. *)
Definition pty_path (i j : Z) : string :=
  String.append "/dev/pty" (String.append (chr i) (chr j)).
Definition tty_path (i j : Z) : string :=
  String.append "/dev/tty" (String.append (chr i) (chr j)).

(** [*master], [*slave] and the local [tty]. *)
Record pty_vars : Type := mk_pty { master : Z; slave : Z; tty : string }.

(** The body of the inner loop, after the adjustment of [j]; the boolean is
    [found]. *)
Definition try_pair (i j : Z) (v : pty_vars) (w : sys)
  : option (bool * pty_vars * sys) :=
  match do_open (pty_path i j) w with
  | None => None
  | Some (m, w1) =>
      if 0 <=? m then
        match do_open (tty_path i j) w1 with
        | None => None
        | Some (sl, w2) => Some (0 <=? sl, mk_pty m sl (tty_path i j), w2)
        end
      else Some (false, mk_pty m (slave v) (tty_path i j), w1)
  end.

(** [for (j = ...; j <= 'f'; j++)], entered with the given [j]; [fuel]
    bounds the number of turns. *)
Fixpoint findpty_j (fuel : nat) (i j : Z) (v : pty_vars) (w : sys)
  : option (bool * pty_vars * sys) :=
  if 102 <? j then Some (false, v, w)
  else
    match fuel with
    | O => None
    | S k =>
        let j := if j =? 57 + 1 then 97 else j in
        match try_pair i j v w with
        | None => None
        | Some (true, v1, w1) => Some (true, v1, w1)
        | Some (false, v1, w1) => findpty_j k i (j + 1) v1 w1
        end
    end.

(** [for (i = ...; i <= 'z'; i++)], entered with the given [i]. *)
Fixpoint findpty_i (fuel : nat) (i : Z) (v : pty_vars) (w : sys)
  : option (bool * pty_vars * sys) :=
  if 122 <? i then Some (false, v, w)
  else
    match fuel with
    | O => None
    | S k =>
        match findpty_j 55 i 48 v w with
        | None => None
        | Some (true, v1, w1) => Some (true, v1, w1)
        | Some (false, v1, w1) => findpty_i k (i + 1) v1 w1
        end
    end.

(** [findpty(&master, &slave, name)]; [pty] is what [openpty] gives
    ([None] when it fails), [nm] the content of [name] at the call.  The
    result is the return value, [*master], [*slave] and [name]. *)
Definition findpty (pty : option (Z * Z * string)) (m sl : Z) (nm : string)
    (w : sys) : option (Z * (Z * Z * string) * sys) :=
  match pty with
  | Some r => Some (0, r, w)
  | None =>
      match findpty_i 11 112 (mk_pty m sl EmptyString) w with
      | None => None
      | Some (found, v, w1) =>
          if found then Some (0, (master v, slave v, tty v), w1)
          else Some (-1, (master v, slave v, nm), w1)
      end
  end.

(** The codes of '0'..'9', 'a'..'f' and of 'p'..'z'. *)
Definition hex_digits : list Z :=
  [48; 49; 50; 51; 52; 53; 54; 55; 56; 57; 97; 98; 99; 100; 101; 102].
Definition pty_letters : list Z :=
  [112; 113; 114; 115; 116; 117; 118; 119; 120; 121; 122].

(** The old-style pty names, in the order of the alphabet. *)
Definition legacy_ptys : list (Z * Z) :=
  flat_map (fun i => map (fun j => (i, j)) hex_digits) pty_letters.

(** Trying the pairs of a list one after the other. *)
Fixpoint try_pairs (l : list (Z * Z)) (v : pty_vars) (w : sys)
  : option (bool * pty_vars * sys) :=
  match l with
  | [] => Some (false, v, w)
  | (i, j) :: rest =>
      match try_pair i j v w with
      | None => None
      | Some (true, v1, w1) => Some (true, v1, w1)
      | Some (false, v1, w1) => try_pairs rest v1 w1
      end
  end.

(** The calls of a search that went through the pairs [l] without success:
    for each pair the master failed to open, or it opened and the slave
    did not. *)
Inductive fruitless : list (Z * Z) -> list probe -> Prop :=
| fruitless_nil : fruitless [] []
| fruitless_master i j r l evs :
    r < 0 -> fruitless l evs ->
    fruitless ((i, j) :: l) (PrOpen (pty_path i j) r :: evs)
| fruitless_slave i j r r2 l evs :
    0 <= r -> r2 < 0 -> fruitless l evs ->
    fruitless ((i, j) :: l)
      (PrOpen (pty_path i j) r :: PrOpen (tty_path i j) r2 :: evs).

(** The descriptors that are open after the calls [evs], given the ones
    open before. *)
Fixpoint open_fds (evs : list probe) (held : list Z) : list Z :=
  match evs with
  | [] => held
  | PrOpen _ r :: rest => open_fds rest (if 0 <=? r then held ++ [r] else held)
  | PrClose f :: rest =>
      open_fds rest (filter (fun g => negb (g =? f)) held)
  | _ :: rest => open_fds rest held
  end.

(** [open] fails on /dev/ptyp0; /dev/ptyp1 opens as 4 but its slave does
    not open; /dev/ptyp2 and its slave open as 5 and 6. *)
Definition pty_sys : sys := mk_sys [-1; 4; -1; 5; 6] [].

(** Nothing can be opened. *)
Definition no_pty_sys : sys := mk_sys (repeat (-1) 352) [].

(** *** isconsole *)

(** "Console devices as listed on the kernel command line and the mapping
    to actual devices in /dev"; a null pointer is [None]. *)
Record consdev_t : Type := mk_consdev {
  cmdline : string;
  dev1 : option string;
  dev2 : option string
}.

Definition consdev : list consdev_t :=
  [ mk_consdev "ttyB" (Some "/dev/ttyB%s"%string) None;
    mk_consdev "ttySC" (Some "/dev/ttySC%s"%string) (Some "/dev/ttsc/%s"%string);
    mk_consdev "ttyS" (Some "/dev/ttyS%s"%string) (Some "/dev/tts/%s"%string);
    mk_consdev "tty" (Some "/dev/tty%s"%string) (Some "/dev/vc/%s"%string);
    mk_consdev "hvc" (Some "/dev/hvc%s"%string) (Some "/dev/hvc/%s"%string) ].

(** "Devices to try as console if not found on kernel command line." *)
Definition defcons : list string :=
  ["tty0"; "hvc0"; "ttyS0"; "ttySC0"; "ttyB0"]%string.

(** [isdigit]. *)
Definition is_digit (c : ascii) : bool :=
  Nat.leb 48 (nat_of_ascii c) && Nat.leb (nat_of_ascii c) 57.

(** What a format prints for the one string argument [arg]: [%s] is the
    only directive in the table. *)
Fixpoint sprintf_s (fmt arg : string) : string :=
  match fmt with
  | EmptyString => EmptyString
  | String "%" (String "s" rest) => String.append arg (sprintf_s rest arg)
  | String c rest => String c (sprintf_s rest arg)
  end.

(** [snprintf(res, rlen, fmt, arg)]: at most [rlen - 1] characters. *)
Definition snprintf_s (rlen : nat) (fmt arg : string) : string :=
  substring 0 (rlen - 1) (sprintf_s fmt arg).

(** [if ((q = strchr(res, ',')) != NULL) *q = 0;] *)
Fixpoint cut_comma (s : string) : string :=
  match s with
  | EmptyString => EmptyString
  | String c rest =>
      if Ascii.eqb c "," then EmptyString else String c (cut_comma rest)
  end.

(** How a call of [isconsole] ends: it returns 1 with the device name in
    [res], or it returns 0. *)
Inductive verdict : Type :=
| IsConsole (res : string)
| NotConsole.

(** What [snprintf(res, rlen, fmt, p)] and the cut at the comma leave in
    [res].  The [dev2] format of the ttyB entry is a null pointer: the C
    library then returns -1 and leaves [res] empty, and [isconsole], which
    does not look at the return value, goes on with the empty name. *)
Definition dev_name (rlen : nat) (fmt : option string) (p : string) : string :=
  match fmt with
  | Some f => cut_comma (snprintf_s rlen f p)
  | None => EmptyString
  end.

(** [for (i = 0; i < 2; i++)]: the formats in the order they are tried. *)
Fixpoint try_devs (fmts : list (option string)) (p : string) (rlen : nat)
    (w : sys) : option (verdict * sys) :=
  match fmts with
  | [] => Some (NotConsole, w)
  | fmt :: rest =>
      let res := dev_name rlen fmt p in
      match do_open res w with
      | None => None
      | Some (f, w1) =>
          if 0 <=? f then Some (IsConsole res, call (PrClose f) w1)
          else try_devs rest p rlen w1
      end
  end.

(** [for (c = consdev; c->cmdline; c++)], from the entries [tbl] on. *)
Fixpoint isconsole_from (tbl : list consdev_t) (s : string) (rlen : nat)
    (w : sys) : option (verdict * sys) :=
  match tbl with
  | [] => Some (NotConsole, w)
  | c :: rest =>
      let l := String.length (cmdline c) in
      if Nat.leb (String.length s) l then isconsole_from rest s rlen w
      else
        let p := substring l (String.length s - l) s in
        if negb (prefix (cmdline c) s)
           || negb (match get l s with Some d => is_digit d | None => false end)
        then isconsole_from rest s rlen w
        else
          match try_devs [dev2 c; dev1 c] p rlen w with
          | Some (NotConsole, w1) => isconsole_from rest s rlen w1
          | r => r
          end
  end.

Definition isconsole (s : string) (rlen : nat) (w : sys)
  : option (verdict * sys) :=
  isconsole_from consdev s rlen w.

(** *** consolenames *)

Definition KERNEL_COMMAND_LENGTH : nat := 4096.

(** [sizeof(cons[0].name)]. *)
Definition NAME_SIZE : nat := 1024.

(** What [consolenames] is told about /proc. *)
Record proc_env : Type := mk_proc {
  stat_proc : Z;                        (* stat("/proc", &st2) *)
  same_dev : bool;                      (* st.st_dev == st2.st_dev *)
  mount_ret : Z;                        (* mount(...) *)
  read_cmdline : option (list ascii)    (* read(): None is -1, else the bytes *)
}.

Definition NUL : ascii := zero.

Definition is_blank (c : ascii) : bool :=
  Ascii.eqb c " " || Ascii.eqb c "009" || Ascii.eqb c "013" || Ascii.eqb c "010".

(** The C string that starts at offset [p] of [b]; [b] is followed by a
    NUL. *)
Fixpoint c_string (l : list ascii) : string :=
  match l with
  | [] => EmptyString
  | c :: rest => if Ascii.eqb c NUL then EmptyString else String c (c_string rest)
  end.
Definition string_at (b : list ascii) (p : nat) : string := c_string (skipn p b).

(** [b[p] = 0]. *)
Fixpoint clear_at (p : nat) (b : list ascii) : list ascii :=
  match b, p with
  | [], _ => []
  | _ :: rest, O => NUL :: rest
  | c :: rest, S q => c :: clear_at q rest
  end.

(** The variables of the scan: the buffer, the names in [cons] below
    [num_consoles], and whether the loop was left by [break]. *)
Record scan_state : Type := mk_scan {
  cmd : list ascii;
  found : list string;
  full : bool
}.

(** What the scan, and [consolenames], give: the result and the system as
    they leave it. *)
Inductive outcome (A : Type) : Type :=
| Done (a : A) (w : sys).
Arguments Done {A} a w.

(** [while (p >= buf)], entered with [p = buf + k - 1]. *)
Fixpoint scan (k : nat) (max_consoles : Z) (st : scan_state) (w : sys)
  : option (outcome scan_state) :=
  match k with
  | O => Some (Done st w)
  | S p =>
      if is_blank (nth p (cmd st) NUL)
      then scan p max_consoles (mk_scan (clear_at p (cmd st)) (found st) false) w
      else if prefix "console=" (string_at (cmd st) p) then
        match isconsole (string_at (cmd st) (p + 8)) NAME_SIZE w with
        | None => None
        | Some (NotConsole, w1) => scan p max_consoles st w1
        | Some (IsConsole res, w1) =>
            if existsb (String.eqb res) (found st)
            then scan p max_consoles st w1
            else
              let names := found st ++ [res] in
              if max_consoles <=? Z.of_nat (List.length names)
              then Some (Done (mk_scan (cmd st) names true) w1)
              else scan p max_consoles (mk_scan (cmd st) names false) w1
        end
      else scan p max_consoles st w
  end.

(** "Okay, no console on the command line - guess the default console." *)
Fixpoint guess (l : list string) (w : sys) : option (outcome (Z * list string)) :=
  match l with
  | [] => Some (Done (0, []) w)
  | d :: rest =>
      match isconsole d NAME_SIZE w with
      | None => None
      | Some (IsConsole res, w1) => Some (Done (1, [res]) w1)
      | Some (NotConsole, w1) => guess rest w1
      end
  end.

(** [consolenames(cons, max_consoles)]: the return value and the names it
    left in [cons]. *)
Definition consolenames (max_consoles : Z) (e : proc_env) (w : sys)
  : option (outcome (Z * list string)) :=
  if stat_proc e <? 0 then Some (Done (0, []) w)
  else
    let w := if same_dev e then call (PrMount (mount_ret e)) w else w in
    if same_dev e && (mount_ret e <? 0) then Some (Done (-1, []) w)
    else
      match do_open "/proc/cmdline" w with
      | None => None
      | Some (f, w) =>
          let n := if f <? 0 then None else read_cmdline e in
          let w := if f <? 0 then w else call (PrClose f) (call (PrRead f) w) in
          let w := if same_dev e then call PrUmount w else w in
          match n with
          | None => Some (Done (0, []) w)
          | Some data =>
              if Nat.ltb (KERNEL_COMMAND_LENGTH - 1) (List.length data) then None
              else
                match scan (List.length data) max_consoles
                        (mk_scan data [] false) w with
                | None => None
                | Some (Done st w1) =>
                    if 0 <? Z.of_nat (List.length (found st))
                    then Some (Done (Z.of_nat (List.length (found st)), found st) w1)
                    else guess defcons w1
                end
          end
      end.

(** The bytes of a string. *)
Definition bytes (s : string) : list ascii := list_ascii_of_string s.

(** An [open] that failed. *)
Definition refused (e : probe) : Prop :=
  exists p r, e = PrOpen p r /\ r < 0.

(** A string without a comma. *)
Fixpoint no_comma (s : string) : Prop :=
  match s with
  | EmptyString => True
  | String c rest => c <> ","%char /\ no_comma rest
  end.

(** The first [open] fails and the second gives 7: of a serial console
    /dev/tts/0 does not open and /dev/ttyS0 does. *)
Definition serial_sys : sys := mk_sys [-1; 7] [].

(** The table entry of the serial consoles. *)
Definition ttyS_entry : consdev_t :=
  mk_consdev "ttyS" (Some "/dev/ttyS%s"%string) (Some "/dev/tts/%s"%string).

(** The calls on devices: [open] and [close]. *)
Definition dev_probe (e : probe) : Prop :=
  match e with
  | PrOpen _ _ | PrClose _ => True
  | _ => False
  end.

(** A name that [isconsole] opened among [evs], and that fits. *)
Definition probed (evs : list probe) (x : string) : Prop :=
  (exists f, 0 <= f /\ In (PrOpen x f) evs /\ In (PrClose f) evs)
  /\ no_comma x /\ (String.length x < NAME_SIZE)%nat.

(** The names that the guess of a default console opens, in the order
    they are tried; the empty one comes from the null [dev2] format of
    ttyB. *)
Definition default_devices : list string :=
  ["/dev/vc/0"; "/dev/tty0"; "/dev/hvc/0"; "/dev/hvc0";
   "/dev/tts/0"; "/dev/ttyS0"; "/dev/ttsc/0"; "/dev/ttySC0";
   ""; "/dev/ttyB0"]%string.

(** [evs] are failed [open] calls on the paths [l], in order. *)
Definition refusals (l : list string) (evs : list probe) : Prop :=
  Forall2 (fun p e => exists r, e = PrOpen p r /\ r < 0) l evs.

(** The calls of [consolenames] on /proc when it gets as far as opening
    /proc/cmdline, which gives [f]. *)
Definition proc_calls (e : proc_env) (f : Z) : list probe :=
  (if same_dev e then [PrMount (mount_ret e)] else [])
  ++ [PrOpen "/proc/cmdline" f]
  ++ (if f <? 0 then [] else [PrRead f; PrClose f])
  ++ (if same_dev e then [PrUmount] else []).

(** The system as a call leaves it. *)
Definition after {A : Type} (o : outcome A) : sys :=
  match o with
  | Done _ w => w
  end.

(** Opening the paths of a list until one opens; that one is closed
    again. *)
Fixpoint first_open (paths : list string) (w : sys)
  : option (option string * sys) :=
  match paths with
  | [] => Some (None, w)
  | p :: rest =>
      match do_open p w with
      | None => None
      | Some (f, w1) =>
          if 0 <=? f then Some (Some p, call (PrClose f) w1)
          else first_open rest w1
      end
  end.

(** A call that is not the [open] of a device. *)
Definition proc_call (e : probe) : Prop :=
  match e with
  | PrOpen p _ => p = "/proc/cmdline"%string
  | _ => True
  end.

(** /proc is there and has to be mounted; the kernel was told of two
    consoles. *)
Definition boot_proc : proc_env :=
  mk_proc 0 true 0
    (Some (bytes "root=/dev/sda1 console=tty0 console=ttyS0,115200 quiet")).

(** /proc/cmdline opens as 5; /dev/tts/0 does not open and /dev/ttyS0
    opens as 6; /dev/vc/0 does not open and /dev/tty0 opens as 7. *)
Definition boot_sys : sys := mk_sys [5; -1; 6; -1; 7] [].

(** /proc is there and mounted; the kernel was told of no console. *)
Definition quiet_proc : proc_env :=
  mk_proc 0 false 0 (Some (bytes "root=/dev/sda1 quiet")).

(** /proc/cmdline opens as 5 and nothing else opens. *)
Definition deaf_sys : sys := mk_sys (5 :: repeat (-1) 10) [].

(** /dev/tts/0 does not open and /dev/ttyS0 opens as 6; /dev/vc/0 does not
    open and /dev/tty0 opens as 7. *)
Definition dev_sys : sys := mk_sys [-1; 6; -1; 7] [].

(** ** The command line *)

(** How option parsing ends: the process exits, or [main] goes on with the
    settings. *)
Inductive parsed : Type :=
| Exits (status : Z)
| Runs (cfg : config).

(** [while ((i = getopt(argc, argv, "cdsl:p:rv")) != EOF) switch(i)]: [opts]
    are the values [getopt] returns, each with [optarg]. *)
Fixpoint getopt_loop (opts : list (ascii * string)) (cfg : config) : parsed :=
  match opts with
  | [] => Runs cfg
  | (i, optarg) :: rest =>
      if Ascii.eqb i "l" then
        getopt_loop rest
          (mk_config optarg (opt_rotate cfg) (opt_createlogfile cfg)
             (opt_syncalot cfg))
      else if Ascii.eqb i "r" then
        getopt_loop rest
          (mk_config (opt_logfile cfg) 1 (opt_createlogfile cfg)
             (opt_syncalot cfg))
      else if Ascii.eqb i "v" then Exits 0
      else if Ascii.eqb i "c" then
        getopt_loop rest
          (mk_config (opt_logfile cfg) (opt_rotate cfg) 1 (opt_syncalot cfg))
      else if Ascii.eqb i "s" then
        getopt_loop rest
          (mk_config (opt_logfile cfg) (opt_rotate cfg)
             (opt_createlogfile cfg) 1)
      else Exits 1
  end.

(** The head of [main]; [operands] is [optind < argc] after the loop. *)
Definition parse_args (opts : list (ascii * string)) (operands : bool)
  : parsed :=
  match getopt_loop opts default_config with
  | Exits n => Exits n
  | Runs cfg => if operands then Exits 1 else Runs cfg
  end.

(** The options that [main] handles without leaving. *)
Definition handled (o : ascii * string) : Prop :=
  In (fst o) ["l"; "r"; "c"; "s"]%char.

(** 1 when the option [c] is among [opts], else 0. *)
Definition flag (c : ascii) (opts : list (ascii * string)) : Z :=
  if existsb (fun o => Ascii.eqb (fst o) c) opts then 1 else 0.

(** The argument of the last [-l], or [d] without one. *)
Definition last_logfile (opts : list (ascii * string)) (d : string) : string :=
  fold_left (fun a o => if Ascii.eqb (fst o) "l" then snd o else a) opts d.

(** The options of [bootlogd -r -l /tmp/log -s]. *)
Definition sample_options : list (ascii * string) :=
  [("r"%char, EmptyString); ("l"%char, "/tmp/log"%string);
   ("s"%char, EmptyString)].

(** ** Proof steps *)

(** Replace a comparison of integers by its outcome, when [lia] can tell
    it. *)
Ltac settle_true b :=
  replace b with true
    by (symmetry;
        first [apply Z.leb_le | apply Z.ltb_lt | apply Z.eqb_eq]; lia).
Ltac settle_false b :=
  replace b with false
    by (symmetry;
        first [apply Z.leb_gt | apply Z.ltb_ge | apply Z.eqb_neq]; lia).
Tactic Notation "settle" constr(b) := first [settle_true b | settle_false b].
Tactic Notation "settle" constr(b) "in" hyp(H) :=
  first
    [ replace b with true in H
        by (symmetry;
            first [apply Z.leb_le | apply Z.ltb_lt | apply Z.eqb_eq]; lia)
    | replace b with false in H
        by (symmetry;
            first [apply Z.leb_gt | apply Z.ltb_ge | apply Z.eqb_neq]; lia) ].

(** Settle the comparisons of characters in the goal; [Hd] says that the
    character compared with is a digit. *)
Ltac decide_chars Hd :=
  repeat match goal with
         | |- context [ascii_dec ?a ?b] =>
             destruct (ascii_dec a b) as [E|N];
             [ first [ discriminate E
                     | exfalso; rewrite <- E in Hd; vm_compute in Hd;
                       discriminate Hd
                     | clear E ]
             | first [ exfalso; apply N; reflexivity | clear N ] ]
         end.

(** * Properties *)

(** ** Lists, spans, traces *)

Lemma fwritten_app (a b : list event) :
  fwritten (a ++ b) = fwritten a ++ fwritten b.
Proof. apply flat_map_app. Qed.

Lemma stamps_app (a b : list event) : stamps (a ++ b) = stamps a ++ stamps b.
Proof. apply flat_map_app. Qed.

Lemma file_bytes_app (a b : list event) :
  file_bytes (a ++ b) = file_bytes a ++ file_bytes b.
Proof. apply flat_map_app. Qed.

Lemma accepted_app (a b : list event) :
  accepted (a ++ b) = accepted a ++ accepted b.
Proof. apply flat_map_app. Qed.

Lemma opened_app (a b : list event) : opened (a ++ b) = opened a ++ opened b.
Proof. apply flat_map_app. Qed.

Lemma span_from_length (f : Z -> Z) (n : nat) :
  forall p, List.length (span_from f p n) = n.
Proof. induction n as [|n IH]; intro p; simpl; [|rewrite IH]; reflexivity. Qed.

Lemma span_from_app (f : Z -> Z) (n m : nat) :
  forall p,
    span_from f p (n + m) = span_from f p n ++ span_from f (p + Z.of_nat n) m.
Proof.
  induction n as [|n IH]; intro p.
  - simpl. now rewrite Z.add_0_r.
  - cbn [Nat.add span_from app]. rewrite IH. do 3 f_equal. lia.
Qed.

Lemma span_from_ext (f g : Z -> Z) (n : nat) :
  forall p,
    (forall a, p <= a < p + Z.of_nat n -> f a = g a) ->
    span_from f p n = span_from g p n.
Proof.
  induction n as [|n IH]; intros p H; simpl; [reflexivity|].
  rewrite H by lia. f_equal. apply IH. intros a Ha. apply H. lia.
Qed.

Lemma esc_run_app (l1 : list Z) :
  forall ie l2,
    esc_run ie (l1 ++ l2) =
    (fst (esc_run ie l1) ++ fst (esc_run (snd (esc_run ie l1)) l2),
     snd (esc_run (snd (esc_run ie l1)) l2)).
Proof.
  induction l1 as [|c l1 IH]; intros ie l2; simpl.
  - now destruct (esc_run ie l2).
  - destruct (esc_filter ie c) as [ig ie1]. rewrite IH.
    destruct (esc_run ie1 l1) as [o1 f1]; simpl.
    destruct (esc_run f1 l2) as [o2 f2]; simpl.
    now destruct ig.
Qed.

Lemma esc_run_cons (ie c : Z) (r : list Z) :
  esc_run ie (c :: r) =
  (if fst (esc_filter ie c)
   then fst (esc_run (snd (esc_filter ie c)) r)
   else c :: fst (esc_run (snd (esc_filter ie c)) r),
   snd (esc_run (snd (esc_filter ie c)) r)).
Proof.
  cbn [esc_run]. destruct (esc_filter ie c) as [ig ie1]. cbn [fst snd].
  now destruct (esc_run ie1 r).
Qed.

(** ** [writelog] and the escape filter *)

Lemma writelog_byte_buf (ptr : Z) (d : bool) (s : state) :
  buf (snd (writelog_byte ptr (d, s))) = buf s.
Proof.
  unfold writelog_byte.
  destruct ((buf s (ptr - 1) =? NL) || negb (first_run s =? 0)); simpl;
    match goal with |- context [esc_filter ?a ?b] =>
      destruct (esc_filter a b) as [[] ?] end; reflexivity.
Qed.

Lemma writelog_byte_esc (ptr : Z) (d : bool) (s : state) :
  inside_esc (snd (writelog_byte ptr (d, s))) =
  snd (esc_filter (inside_esc s) (buf s ptr)).
Proof.
  unfold writelog_byte.
  destruct ((buf s (ptr - 1) =? NL) || negb (first_run s =? 0)); simpl;
    destruct (esc_filter (inside_esc s) (buf s ptr)) as [[] ?]; reflexivity.
Qed.

Lemma writelog_byte_fwritten (ptr : Z) (d : bool) (s : state) :
  fwritten (trace (snd (writelog_byte ptr (d, s)))) =
  fwritten (trace s) ++
  (if fst (esc_filter (inside_esc s) (buf s ptr)) then [] else [buf s ptr]).
Proof.
  unfold writelog_byte.
  destruct ((buf s (ptr - 1) =? NL) || negb (first_run s =? 0)); simpl;
    destruct (esc_filter (inside_esc s) (buf s ptr)) as [[] ?]; simpl;
    rewrite ?fwritten_app; simpl; rewrite ?app_nil_r; reflexivity.
Qed.

Lemma writelog_loop_buf (n : nat) :
  forall ptr d s, buf (snd (writelog_loop n ptr (d, s))) = buf s.
Proof.
  induction n as [|n IH]; intros ptr d s; cbn [writelog_loop]; [reflexivity|].
  destruct (writelog_byte ptr (d, s)) as [d1 s1] eqn:E.
  rewrite IH. now rewrite <- (writelog_byte_buf ptr d s), E.
Qed.

Lemma writelog_loop_filter (n : nat) :
  forall ptr d s,
    let r := esc_run (inside_esc s) (span_from (buf s) ptr n) in
    inside_esc (snd (writelog_loop n ptr (d, s))) = snd r
    /\ fwritten (trace (snd (writelog_loop n ptr (d, s)))) =
       fwritten (trace s) ++ fst r.
Proof.
  induction n as [|n IH]; intros ptr d s; cbn [writelog_loop span_from esc_run].
  - simpl. now rewrite app_nil_r.
  - destruct (writelog_byte ptr (d, s)) as [d1 s1] eqn:E.
    pose proof (writelog_byte_buf ptr d s) as Hb.
    pose proof (writelog_byte_esc ptr d s) as He.
    pose proof (writelog_byte_fwritten ptr d s) as Hf.
    rewrite E in Hb, He, Hf; simpl in Hb, He, Hf.
    destruct (IH (ptr + 1) d1 s1) as [I1 I2]. rewrite I1, I2, Hb, He, Hf.
    destruct (esc_filter (inside_esc s) (buf s ptr)) as [ig ie1]; simpl.
    destruct (esc_run ie1 (span_from (buf s) (ptr + 1) n)) as [o f]; simpl.
    destruct ig; simpl; rewrite <- ?app_assoc; auto.
Qed.

Lemma writelog_buf (ptr len : Z) (s : state) :
  buf (writelog ptr len s) = buf s.
Proof.
  unfold writelog.
  destruct (writelog_loop (Z.to_nat len) ptr (false, s)) as [d s1] eqn:E.
  assert (H : buf s1 = buf s)
    by now rewrite <- (writelog_loop_buf (Z.to_nat len) ptr false s), E.
  destruct d; simpl;
    repeat match goal with |- context [if ?c then _ else _] => destruct c end;
    simpl; exact H.
Qed.

Lemma writelog_filter (ptr len : Z) (s : state) :
  let r := esc_run (inside_esc s) (span s ptr len) in
  inside_esc (writelog ptr len s) = snd r
  /\ fwritten (trace (writelog ptr len s)) = fwritten (trace s) ++ fst r.
Proof.
  unfold writelog, span.
  destruct (writelog_loop_filter (Z.to_nat len) ptr false s) as [H1 H2].
  destruct (writelog_loop (Z.to_nat len) ptr (false, s)) as [d s1].
  simpl in H1, H2. simpl. rewrite <- H1, <- H2.
  destruct d; simpl;
    repeat match goal with |- context [if ?c then _ else _] => destruct c end;
    simpl; rewrite ?fwritten_app; simpl; rewrite ?app_nil_r; auto.
Qed.

(** Successive calls on adjacent pieces filter like one pass over the
    whole: the state carried over in [inside_esc] is all that matters. *)
Lemma writelog_seq_filter (lens : list nat) :
  forall ptr s,
    let r := esc_run (inside_esc s) (span_from (buf s) ptr (total lens)) in
    inside_esc (writelog_seq lens ptr s) = snd r
    /\ fwritten (trace (writelog_seq lens ptr s)) = fwritten (trace s) ++ fst r.
Proof.
  induction lens as [|n lens IH]; intros ptr s; simpl.
  - now rewrite app_nil_r.
  - destruct (IH (ptr + Z.of_nat n) (writelog ptr (Z.of_nat n) s)) as [I1 I2].
    destruct (writelog_filter ptr (Z.of_nat n) s) as [W1 W2].
    rewrite I1, I2, W1, W2, writelog_buf.
    unfold span. rewrite Nat2Z.id, span_from_app, esc_run_app. simpl.
    now rewrite app_assoc.
Qed.

Lemma total_app (l1 l2 : list nat) :
  total (l1 ++ l2) = (total l1 + total l2)%nat.
Proof.
  induction l1 as [|n l1 IH]; simpl; [reflexivity|].
  unfold total in *. simpl. rewrite IH. lia.
Qed.

Lemma span_from_firstn (f : Z -> Z) (n m : nat) (p : Z) :
  span_from f p n = firstn n (span_from f p (n + m)).
Proof.
  rewrite span_from_app, firstn_app, span_from_length, Nat.sub_diag.
  simpl. rewrite app_nil_r.
  rewrite firstn_all2; [reflexivity | rewrite span_from_length; lia].
Qed.

Lemma esc_filter_normal (c : Z) :
  c <> ESC -> esc_filter 0 c = (c =? CR, 0).
Proof.
  intro H. unfold esc_filter. simpl.
  destruct (c =? CR); [reflexivity|].
  destruct (c =? ESC) eqn:E; [apply Z.eqb_eq in E; contradiction | reflexivity].
Qed.

Lemma esc_run_no_esc (l : list Z) :
  ~ In ESC l -> esc_run 0 l = (filter (fun c => negb (c =? CR)) l, 0).
Proof.
  induction l as [|c l IH]; intro H; [reflexivity|].
  rewrite esc_run_cons, esc_filter_normal by (intro; subst; apply H; now left).
  cbn [fst snd filter]. rewrite IH by (intro; apply H; now right).
  now destruct (c =? CR).
Qed.

Lemma filter_no_cr (l : list Z) :
  ~ In CR l -> filter (fun c => negb (c =? CR)) l = l.
Proof.
  induction l as [|c l IH]; intro H; [reflexivity|]. simpl.
  destruct (c =? CR) eqn:E.
  - apply Z.eqb_eq in E. exfalso. apply H. now left.
  - simpl. f_equal. apply IH. intro. apply H. now right.
Qed.

Lemma esc_filter_param (c : Z) : csi_param c -> esc_filter 2 c = (true, 2).
Proof.
  intro H. unfold esc_filter. simpl.
  replace (((48 <=? c) && (c <=? 57)) || (c =? 59) || ((32 <=? c) && (c <=? 47)))
    with true; [reflexivity|].
  symmetry. unfold csi_param in H.
  destruct H as [H|[H|H]].
  - settle (48 <=? c).
    settle (c <=? 57).
    reflexivity.
  - subst c. reflexivity.
  - settle (32 <=? c).
    settle (c <=? 47).
    apply orb_true_r.
Qed.

Lemma esc_filter_final (c : Z) : csi_final c -> esc_filter 2 c = (true, 0).
Proof.
  intro H. unfold csi_final in H. unfold esc_filter. simpl.
  settle (c <=? 57).
  settle (c =? 59).
  settle (c <=? 47).
  rewrite !andb_false_r. simpl.
  settle (64 <=? c).
  settle (c <=? 126).
  reflexivity.
Qed.

Lemma esc_filter_esc : esc_filter 0 ESC = (true, 1).
Proof. reflexivity. Qed.

Lemma esc_filter_bracket : esc_filter 1 LBRACKET = (true, 2).
Proof. reflexivity. Qed.

Lemma esc_run_params (ps : list Z) :
  Forall csi_param ps -> forall rest, esc_run 2 (ps ++ rest) = esc_run 2 rest.
Proof.
  induction 1 as [|c ps Hc _ IH]; intro rest; [reflexivity|].
  cbn [app]. rewrite esc_run_cons, (esc_filter_param c Hc). cbn [fst snd].
  rewrite IH. now destruct (esc_run 2 rest).
Qed.

Lemma esc_run_csi (ps : list Z) (fin : Z) :
  Forall csi_param ps -> csi_final fin ->
  esc_run 0 (ESC :: LBRACKET :: ps ++ [fin]) = ([], 0).
Proof.
  intros Hp Hf.
  rewrite esc_run_cons, esc_filter_esc. cbn [fst snd].
  rewrite esc_run_cons, esc_filter_bracket. cbn [fst snd].
  rewrite (esc_run_params ps Hp).
  rewrite esc_run_cons, (esc_filter_final fin Hf). reflexivity.
Qed.

(** Any proper, non-empty beginning of a control sequence is swallowed and
    leaves the filter inside the sequence. *)
Lemma esc_run_csi_prefix (ps : list Z) (fin : Z) (k : nat) :
  Forall csi_param ps ->
  (0 < k < List.length (ESC :: LBRACKET :: ps ++ [fin]))%nat ->
  fst (esc_run 0 (firstn k (ESC :: LBRACKET :: ps ++ [fin]))) = []
  /\ snd (esc_run 0 (firstn k (ESC :: LBRACKET :: ps ++ [fin]))) <> 0.
Proof.
  intros Hp Hk. simpl in Hk. rewrite length_app in Hk. simpl in Hk.
  destruct k as [|[|k]]; [lia | simpl; split; [reflexivity | discriminate] |].
  cbn [firstn].
  rewrite esc_run_cons, esc_filter_esc. cbn [fst snd].
  rewrite esc_run_cons, esc_filter_bracket. cbn [fst snd].
  rewrite firstn_app.
  replace (k - List.length ps)%nat with O by lia.
  cbn [firstn]. rewrite app_nil_r.
  assert (Hfn : Forall csi_param (firstn k ps)).
  { rewrite <- (firstn_skipn k ps) in Hp. now apply Forall_app in Hp. }
  pose proof (esc_run_params (firstn k ps) Hfn []) as E.
  rewrite app_nil_r in E. rewrite E. simpl. split; [reflexivity | discriminate].
Qed.

(** ** The filter, from the Normal state *)

Lemma span_store (l : list Z) (s : state) :
  span_from (buf (store l s)) (inptr s) (List.length l) = l.
Proof.
  unfold store. simpl.
  assert (G : forall (l0 pre : list Z) p,
             p = inptr s + Z.of_nat (List.length pre) ->
             l = pre ++ l0 ->
             span_from
               (fun a =>
                  if (inptr s <=? a) && (a <? inptr s + Z.of_nat (List.length l))
                  then nth (Z.to_nat (a - inptr s)) l 0
                  else buf s a) p (List.length l0) = l0).
  { induction l0 as [|c l0 IH]; intros pre p Hp Hl; [reflexivity|].
    cbn [List.length span_from]. f_equal.
    - subst l p. rewrite length_app. cbn [List.length].
      settle (inptr s <=? inptr s + Z.of_nat (List.length pre)).
      settle (inptr s + Z.of_nat (List.length pre)
              <? inptr s + Z.of_nat (List.length pre + S (List.length l0))).
      cbn [andb].
      replace (Z.to_nat (inptr s + Z.of_nat (List.length pre) - inptr s))
        with (List.length pre) by lia.
      now rewrite nth_middle.
    - apply (IH (pre ++ [c])).
      + rewrite length_app. cbn [List.length]. lia.
      + now rewrite <- app_assoc. }
  apply (G l [] (inptr s)); [simpl; lia | reflexivity].
Qed.

Lemma filter_at_start_eq (l : list Z) : filter_at_start l = fst (esc_run 0 l).
Proof.
  unfold filter_at_start.
  set (s := init_state default_config (fun _ => 0) (fun _ => [])).
  destruct (writelog_filter 0 (Z.of_nat (List.length l)) (store l s)) as [_ W].
  rewrite W. unfold span. rewrite Nat2Z.id.
  change 0 with (inptr s) at 2. rewrite span_store. reflexivity.
Qed.

Lemma filter_keeps_no_esc (l : list Z) :
  ~ In ESC l -> ~ In ESC (filter (fun c => negb (c =? CR)) l).
Proof. intros H Hin. apply filter_In in Hin. tauto. Qed.

Lemma filter_drops_cr (l : list Z) :
  ~ In CR (filter (fun c => negb (c =? CR)) l).
Proof.
  intro Hin. apply filter_In in Hin. destruct Hin as [_ H].
  now rewrite Z.eqb_refl in H.
Qed.

Section NormalState.

(** Memory from [ptr] on, and a process whose filter is in the Normal
    state. *)
Variables (ptr : Z) (s : state).
Hypothesis normal : inside_esc s = 0.

Lemma writelog_seq_no_esc (lens : list nat) :
  ~ In ESC (span_from (buf s) ptr (total lens)) ->
  fwritten (trace (writelog_seq lens ptr s)) =
    fwritten (trace s)
    ++ filter (fun c => negb (c =? CR)) (span_from (buf s) ptr (total lens))
  /\ inside_esc (writelog_seq lens ptr s) = 0.
Proof.
  intros Hn.
  destruct (writelog_seq_filter lens ptr s) as [W1 W2].
  rewrite normal, (esc_run_no_esc _ Hn) in W1, W2. now split.
Qed.

(** C1. A well-formed control sequence ESC '[' params final, lying in
    memory at [ptr] and handed to [writelog] in pieces of any lengths
    [lens] with the filter state carried over from the Normal state: no
    byte of it is passed to [fwrite], the filter is back in the Normal
    state ([inside_esc = 0]) after the last piece, and it is not in the
    Normal state after any earlier piece (at any point strictly inside the
    sequence). *)
Theorem csi_sequence_swallowed
    (lens : list nat) (params : list Z) (fin : Z) :
  Forall csi_param params ->
  csi_final fin ->
  span_from (buf s) ptr (total lens) = ESC :: LBRACKET :: params ++ [fin] ->
  fwritten (trace (writelog_seq lens ptr s)) = fwritten (trace s)
  /\ inside_esc (writelog_seq lens ptr s) = 0
  /\ (forall l1 l2,
         lens = l1 ++ l2 ->
         (0 < total l1 < total lens)%nat ->
         inside_esc (writelog_seq l1 ptr s) <> 0
         /\ fwritten (trace (writelog_seq l1 ptr s)) = fwritten (trace s)).
Proof.
  intros Hp Hf Hm.
  destruct (writelog_seq_filter lens ptr s) as [W1 W2].
  rewrite normal, Hm, (esc_run_csi params fin Hp Hf) in W1, W2.
  simpl in W1, W2. rewrite app_nil_r in W2.
  split; [exact W2|]. split; [exact W1|].
  intros l1 l2 Hl Ht. subst lens. rewrite total_app in *.
  destruct (writelog_seq_filter l1 ptr s) as [V1 V2].
  rewrite V1, V2, normal.
  rewrite (span_from_firstn (buf s) (total l1) (total l2) ptr), Hm.
  destruct (esc_run_csi_prefix params fin (total l1) Hp) as [E1 E2].
  - rewrite <- Hm, span_from_length. lia.
  - split; [exact E2|]. rewrite E1. apply app_nil_r.
Qed.

(** C5. A span without any ESC byte, filtered from the Normal state in
    pieces of any lengths: the bytes passed to [fwrite] are the span with
    exactly its carriage returns removed, and the filter stays Normal. *)
Theorem no_esc_only_cr_removed (lens : list nat) :
  ~ In ESC (span_from (buf s) ptr (total lens)) ->
  fwritten (trace (writelog_seq lens ptr s)) =
    fwritten (trace s)
    ++ filter (fun c => negb (c =? CR)) (span_from (buf s) ptr (total lens))
  /\ inside_esc (writelog_seq lens ptr s) = 0.
Proof. apply writelog_seq_no_esc. Qed.

(** C8, as the code has it.  A span with neither an ESC byte nor a
    carriage return, filtered from the Normal state in pieces of any
    lengths, comes out unchanged; and the filter output of any span
    without ESC bytes is such a span, so filtering it again returns it. *)
Theorem filter_fixed_point (lens : list nat) (l : list Z) :
  ~ In ESC (span_from (buf s) ptr (total lens)) ->
  ~ In CR (span_from (buf s) ptr (total lens)) ->
  ~ In ESC l ->
  (fwritten (trace (writelog_seq lens ptr s)) =
     fwritten (trace s) ++ span_from (buf s) ptr (total lens)
   /\ inside_esc (writelog_seq lens ptr s) = 0)
  /\ filter_at_start (filter_at_start l) = filter_at_start l.
Proof.
  intros He Hc Hl. split.
  - destruct (writelog_seq_no_esc lens He) as [A B].
    rewrite A, (filter_no_cr _ Hc). now split.
  - rewrite !filter_at_start_eq, (esc_run_no_esc l Hl). cbn [fst].
    rewrite esc_run_no_esc by now apply filter_keeps_no_esc.
    cbn [fst]. apply filter_no_cr, filter_drops_cr.
Qed.

End NormalState.

Lemma csi_sequence_swallowed_witness :
  fwritten (trace (writelog_seq [1; 2; 1]%nat 0 (boot_state [27; 91; 49; 109]))) = []
  /\ inside_esc (writelog_seq [1; 2; 1]%nat 0 (boot_state [27; 91; 49; 109])) = 0.
Proof.
  destruct (csi_sequence_swallowed 0 (boot_state [27; 91; 49; 109]) eq_refl
              [1; 2; 1]%nat [49] 109) as (A & B & _).
  - constructor; [unfold csi_param; lia | constructor].
  - unfold csi_final; lia.
  - reflexivity.
  - split; [exact A | exact B].
Defined.

Lemma no_esc_only_cr_removed_witness :
  fwritten (trace (writelog_seq [2; 1; 2]%nat 0 (boot_state [65; 13; 10; 13; 66]))) =
    [65; 10; 66].
Proof.
  destruct (no_esc_only_cr_removed 0 (boot_state [65; 13; 10; 13; 66]) eq_refl
              [2; 1; 2]%nat) as (A & _).
  - vm_compute. intros [H|[H|[H|[H|[H|[]]]]]]; discriminate H.
  - exact A.
Defined.

Lemma filter_fixed_point_witness :
  fwritten (trace (writelog_seq [1; 2]%nat 0 (boot_state [65; 10; 66]))) = [65; 10; 66]
  /\ filter_at_start (filter_at_start [65; 13; 10]) = filter_at_start [65; 13; 10].
Proof.
  destruct (filter_fixed_point 0 (boot_state [65; 10; 66]) eq_refl
              [1; 2]%nat [65; 13; 10]) as ((A & _) & B).
  - vm_compute. intros [H|[H|[H|[]]]]; discriminate H.
  - vm_compute. intros [H|[H|[H|[]]]]; discriminate H.
  - vm_compute. intros [H|[H|[H|[]]]]; discriminate H.
  - split; [exact A | exact B].
Defined.

(** The span [13] is what the filter lets through of ESC, CR; it holds no
    ESC byte, and filtering it again removes its only byte. *)
Lemma filter_output_not_fixed :
  filter_at_start [ESC; CR] = [CR]
  /\ ~ In ESC [CR]
  /\ filter_at_start [CR] <> [CR].
Proof.
  split; [reflexivity|]. split.
  - intros [H|[]]; discriminate H.
  - vm_compute. discriminate.
Qed.

(** ** Time stamps *)

Lemma writelog_byte_trace (ptr : Z) (d : bool) (s : state) :
  trace (snd (writelog_byte ptr (d, s))) =
  trace s
  ++ (if (buf s (ptr - 1) =? NL) || negb (first_run s =? 0)
      then [EvFprintf (stamp_text (clock s (ticks s)))] else [])
  ++ (if fst (esc_filter (inside_esc s) (buf s ptr))
      then [] else [EvFwrite (buf s ptr)]).
Proof.
  unfold writelog_byte.
  destruct ((buf s (ptr - 1) =? NL) || negb (first_run s =? 0)); simpl;
    destruct (esc_filter (inside_esc s) (buf s ptr)) as [[] ?]; simpl;
    rewrite <- ?app_assoc, ?app_nil_r; reflexivity.
Qed.

Lemma writelog_byte_first_run (ptr : Z) (d : bool) (s : state) :
  negb (first_run (snd (writelog_byte ptr (d, s))) =? 0) = false.
Proof.
  unfold writelog_byte.
  destruct (buf s (ptr - 1) =? NL); simpl.
  - destruct (esc_filter (inside_esc s) (buf s ptr)) as [[] ?]; reflexivity.
  - destruct (first_run s =? 0) eqn:E; simpl;
      destruct (esc_filter (inside_esc s) (buf s ptr)) as [[] ?]; simpl;
      rewrite ?E; reflexivity.
Qed.

Lemma writelog_loop_stamps (n : nat) :
  forall ptr d s,
    List.length (stamps (trace (snd (writelog_loop n ptr (d, s))))) =
    Nat.add (List.length (stamps (trace s)))
      (line_starts (buf s (ptr - 1)) (negb (first_run s =? 0))
         (span_from (buf s) ptr n)).
Proof.
  induction n as [|n IH]; intros ptr d s; cbn [writelog_loop span_from line_starts].
  - simpl. lia.
  - pose proof (writelog_byte_buf ptr d s) as Hb.
    pose proof (writelog_byte_trace ptr d s) as Ht.
    pose proof (writelog_byte_first_run ptr d s) as Hf.
    destruct (writelog_byte ptr (d, s)) as [d1 s1]. simpl in Hb, Ht, Hf.
    rewrite IH, Hb, Hf, Ht.
    replace (ptr + 1 - 1) with ptr by lia.
    rewrite !stamps_app, !length_app.
    destruct ((buf s (ptr - 1) =? NL) || negb (first_run s =? 0));
      destruct (fst (esc_filter (inside_esc s) (buf s ptr))); simpl; lia.
Qed.

Lemma writelog_loop_grows (n : nat) :
  forall ptr d s,
    exists evs, trace (snd (writelog_loop n ptr (d, s))) = trace s ++ evs.
Proof.
  induction n as [|n IH]; intros ptr d s; cbn [writelog_loop].
  - exists []. simpl. now rewrite app_nil_r.
  - pose proof (writelog_byte_trace ptr d s) as Ht.
    destruct (writelog_byte ptr (d, s)) as [d1 s1]. simpl in Ht.
    destruct (IH (ptr + 1) d1 s1) as [evs E]. rewrite E, Ht.
    rewrite <- app_assoc. eexists. reflexivity.
Qed.

Lemma writelog_trace (ptr len : Z) (s : state) :
  exists tail,
    trace (writelog ptr len s) =
      trace (snd (writelog_loop (Z.to_nat len) ptr (false, s))) ++ tail
    /\ stamps tail = [] /\ file_bytes tail = [].
Proof.
  unfold writelog.
  destruct (writelog_loop (Z.to_nat len) ptr (false, s)) as [d s1]. cbn [snd].
  destruct d; simpl.
  - destruct (syncalot s1 =? 0); simpl;
      destruct (endptr s1 <=? outptr s1 + len); simpl;
      rewrite <- ?app_assoc; eexists; split; try reflexivity; split; reflexivity.
  - destruct (endptr s1 <=? outptr s1 + len); simpl;
      exists []; rewrite app_nil_r; repeat split; reflexivity.
Qed.


Lemma writelog_byte_stamped (ptr : Z) (d : bool) (s : state) (ie : Z) :
  (buf s (ptr - 1) =? NL) || negb (first_run s =? 0) = true ->
  esc_filter (inside_esc s) (buf s ptr) = (false, ie) ->
  writelog_byte ptr (d, s) =
    (true, emit (EvFwrite (buf s ptr))
             (set_inside_esc ie (set_first_run 0 (put_stamp s)))).
Proof.
  intros H E. unfold writelog_byte. rewrite H. simpl.
  simpl in E. rewrite E. reflexivity.
Qed.

Lemma writelog_byte_plain (ptr : Z) (d : bool) (s : state) (ie : Z) :
  (buf s (ptr - 1) =? NL) || negb (first_run s =? 0) = false ->
  esc_filter (inside_esc s) (buf s ptr) = (false, ie) ->
  writelog_byte ptr (d, s) =
    (d, emit (EvFwrite (buf s ptr)) (set_inside_esc ie s)).
Proof.
  intros H E. unfold writelog_byte. rewrite H, E. reflexivity.
Qed.

(** C6. The span "A\nB" handed to [writelog] in one call while
    [first_run] is still set and the filter is Normal, with a clock whose
    texts have at least 24 characters: what reaches the log file is a
    24-character time stamp, ": ", "A\n", a second 24-character time stamp,
    ": ", and "B" -- one stamp per line, the first one although no newline
    comes before the first byte. *)
Theorem first_line_stamped (ptr : Z) (s : state) :
  first_run s <> 0 ->
  inside_esc s = 0 ->
  span s ptr 3 = [65; NL; 66] ->
  (24 <= List.length (clock s (ticks s)))%nat ->
  (24 <= List.length (clock s (S (ticks s))))%nat ->
  exists ts1 ts2,
    ts1 = firstn 24 (clock s (ticks s))
    /\ ts2 = firstn 24 (clock s (S (ticks s)))
    /\ List.length ts1 = 24%nat
    /\ List.length ts2 = 24%nat
    /\ file_bytes (trace (writelog ptr 3 s)) =
       file_bytes (trace s) ++ ts1 ++ [58; 32] ++ [65; NL] ++ ts2 ++ [58; 32] ++ [66]
    /\ stamps (trace (writelog ptr 3 s)) =
       stamps (trace s) ++ [ts1 ++ [58; 32]; ts2 ++ [58; 32]].
Proof.
  intros Hf Hi Hm H1 H2.
  exists (firstn 24 (clock s (ticks s))), (firstn 24 (clock s (S (ticks s)))).
  split; [reflexivity|]. split; [reflexivity|].
  split; [rewrite length_firstn; lia|]. split; [rewrite length_firstn; lia|].
  unfold span in Hm. cbn in Hm. injection Hm as M0 M1 M2.
  replace (ptr + 1 + 1) with (ptr + 2) in M2 by lia.
  apply Z.eqb_neq in Hf.
  destruct (writelog_trace ptr 3 s) as (tail & E & Es & Eb).
  rewrite E, file_bytes_app, stamps_app, Es, Eb, !app_nil_r. clear E Es Eb tail.
  change (Z.to_nat 3) with 3%nat. cbn [writelog_loop].
  rewrite (writelog_byte_stamped ptr false s 0)
    by (rewrite ?Hf, ?Hi, ?M0; auto using orb_true_r).
  rewrite (writelog_byte_plain (ptr + 1) true _ 0)
    by (simpl; replace (ptr + 1 - 1) with ptr by lia; rewrite ?M0, ?M1; reflexivity).
  rewrite (writelog_byte_stamped (ptr + 1 + 1) true _ 0)
    by (simpl; replace (ptr + 1 + 1 - 1) with (ptr + 1) by lia;
        replace (ptr + 1 + 1) with (ptr + 2) by lia; rewrite ?M1, ?M2; reflexivity).
  simpl. replace (ptr + 1 + 1) with (ptr + 2) by lia. rewrite M0, M1, M2.
  unfold stamp_text.
  rewrite !file_bytes_app, !stamps_app. simpl.
  rewrite !app_nil_r, <- !app_assoc. simpl. split; reflexivity.
Qed.

Lemma writelog_loop_first_run (n : nat) :
  forall ptr d s,
    negb (first_run (snd (writelog_loop n ptr (d, s))) =? 0) =
    match n with O => negb (first_run s =? 0) | S _ => false end.
Proof.
  induction n as [|n IH]; intros ptr d s; cbn [writelog_loop]; [reflexivity|].
  pose proof (writelog_byte_first_run ptr d s) as Hf.
  destruct (writelog_byte ptr (d, s)) as [d1 s1]. simpl in Hf.
  rewrite IH. destruct n; [exact Hf | reflexivity].
Qed.

Lemma writelog_first_run (ptr : Z) (n : nat) (s : state) :
  negb (first_run (writelog ptr (Z.of_nat n) s) =? 0) =
  match n with O => negb (first_run s =? 0) | S _ => false end.
Proof.
  rewrite <- (writelog_loop_first_run n ptr false s).
  unfold writelog. rewrite Nat2Z.id.
  destruct (writelog_loop n ptr (false, s)) as [d s1]. cbn [snd].
  destruct d; simpl;
    repeat match goal with |- context [if ?b then _ else _] => destruct b end;
    reflexivity.
Qed.

Lemma line_starts_add (f : Z -> Z) (n m : nat) :
  forall p prev first,
    line_starts prev first (span_from f p (n + m)) =
    Nat.add (line_starts prev first (span_from f p n))
      (line_starts (match n with O => prev | S k => f (p + Z.of_nat k) end)
         (match n with O => first | S _ => false end)
         (span_from f (p + Z.of_nat n) m)).
Proof.
  induction n as [|n IH]; intros p prev first.
  - simpl. now rewrite Z.add_0_r.
  - cbn [Nat.add span_from line_starts]. rewrite IH.
    replace (p + 1 + Z.of_nat n) with (p + Z.of_nat (S n)) by lia.
    destruct n as [|k].
    + simpl. rewrite Z.add_0_r. lia.
    + replace (p + 1 + Z.of_nat k) with (p + Z.of_nat (S k)) by lia. lia.
Qed.

Lemma writelog_seq_stamps (lens : list nat) :
  forall ptr s,
    List.length (stamps (trace (writelog_seq lens ptr s))) =
    Nat.add (List.length (stamps (trace s)))
      (line_starts (buf s (ptr - 1)) (negb (first_run s =? 0))
         (span_from (buf s) ptr (total lens))).
Proof.
  induction lens as [|n lens IH]; intros ptr s.
  - simpl. lia.
  - cbn [writelog_seq]. rewrite IH, writelog_buf, writelog_first_run.
    change (total (n :: lens)) with (n + total lens)%nat.
    rewrite line_starts_add.
    destruct (writelog_trace ptr (Z.of_nat n) s) as (tail & E & Hs & _).
    rewrite E, stamps_app, Hs, app_nil_r, writelog_loop_stamps, Nat2Z.id.
    replace (buf s (ptr + Z.of_nat n - 1))
      with (match n with O => buf s (ptr - 1) | S k => buf s (ptr + Z.of_nat k) end)
      by (destruct n; f_equal; lia).
    lia.
Qed.

(** The time stamp goes out before the escape filter looks at the byte,
    and depends only on the byte before it in memory and on [first_run]:
    per byte the stamp is written exactly when the byte at [ptr - 1] is a
    newline or [first_run] is set, whether or not the byte is then
    ignored; per call, and over successive calls on adjacent pieces of
    memory, the number of stamps is the number of line starts of the span;
    and a call whose first byte starts a line writes the stamp first, even
    when every byte of the line is filtered away. *)
Theorem stamp_follows_raw_lines (ptr len : Z) (d : bool) (s : state)
    (lens : list nat) :
  trace (snd (writelog_byte ptr (d, s))) =
    trace s
    ++ (if (buf s (ptr - 1) =? NL) || negb (first_run s =? 0)
        then [EvFprintf (stamp_text (clock s (ticks s)))] else [])
    ++ (if fst (esc_filter (inside_esc s) (buf s ptr))
        then [] else [EvFwrite (buf s ptr)])
  /\ List.length (stamps (trace (writelog ptr len s))) =
     Nat.add (List.length (stamps (trace s)))
       (line_starts (buf s (ptr - 1)) (negb (first_run s =? 0)) (span s ptr len))
  /\ List.length (stamps (trace (writelog_seq lens ptr s))) =
     Nat.add (List.length (stamps (trace s)))
       (line_starts (buf s (ptr - 1)) (negb (first_run s =? 0))
          (span_from (buf s) ptr (total lens)))
  /\ (0 < len ->
      buf s (ptr - 1) = NL \/ first_run s <> 0 ->
      exists rest,
        trace (writelog ptr len s) =
          trace s ++ EvFprintf (stamp_text (clock s (ticks s))) :: rest).
Proof.
  split; [apply writelog_byte_trace|]. split; [|split].
  - destruct (writelog_trace ptr len s) as (tail & E & Hs & _).
    rewrite E, stamps_app, Hs, app_nil_r. apply writelog_loop_stamps.
  - apply writelog_seq_stamps.
  - intros Hlen Hnl.
    destruct (writelog_trace ptr len s) as (tail & E & _).
    rewrite E. destruct (Z.to_nat len) as [|k] eqn:Ek; [lia|].
    cbn [writelog_loop].
    pose proof (writelog_byte_trace ptr false s) as Ht.
    destruct (writelog_byte ptr (false, s)) as [d1 s1]. simpl in Ht.
    destruct (writelog_loop_grows k (ptr + 1) d1 s1) as [evs G].
    rewrite G, Ht.
    replace ((buf s (ptr - 1) =? NL) || negb (first_run s =? 0)) with true.
    + rewrite <- !app_assoc. simpl. eexists. reflexivity.
    + symmetry. destruct Hnl as [H|H].
      * rewrite H. reflexivity.
      * apply Z.eqb_neq in H. rewrite H. apply orb_true_r.
Qed.

Lemma first_line_stamped_witness :
  file_bytes (trace (writelog 0 3 (boot_state [65; 10; 66]))) =
    firstn 24 ctime_epoch ++ [58; 32; 65; 10] ++ firstn 24 ctime_epoch ++ [58; 32; 66].
Proof.
  destruct (first_line_stamped 0 (boot_state [65; 10; 66]))
    as (ts1 & ts2 & E1 & E2 & _ & _ & A & _).
  - discriminate.
  - reflexivity.
  - reflexivity.
  - simpl. lia.
  - simpl. lia.
  - rewrite A, E1, E2. reflexivity.
Defined.

(** After a newline, a line that consists of a control sequence only: the
    stamp is written although no byte of the line is. *)
Lemma stamp_follows_raw_lines_witness :
  exists rest,
    trace (writelog 1 3 (set_first_run 0 (boot_state [10; 27; 91; 109]))) =
      [] ++ EvFprintf (stamp_text ctime_epoch) :: rest
    /\ fwritten rest = [].
Proof.
  destruct (stamp_follows_raw_lines 1 3 false
              (set_first_run 0 (boot_state [10; 27; 91; 109])) [])
    as (_ & _ & _ & A).
  destruct A as [rest E].
  - lia.
  - left. reflexivity.
  - exists rest. split; [exact E|].
    apply (f_equal fwritten) in E. vm_compute in E.
    symmetry. exact E.
Defined.

(** ** Traces *)

Lemma extends_refl (Q : event -> Prop) (s : state) : extends Q s s.
Proof. exists []. split; [now rewrite app_nil_r | constructor]. Qed.

Lemma extends_trans (Q : event -> Prop) (s1 s2 s3 : state) :
  extends Q s1 s2 -> extends Q s2 s3 -> extends Q s1 s3.
Proof.
  intros (e1 & E1 & F1) (e2 & E2 & F2). exists (e1 ++ e2). split.
  - now rewrite E2, E1, app_assoc.
  - apply Forall_app. now split.
Qed.

Lemma extends_weaken (Q R : event -> Prop) (s1 s2 : state) :
  (forall e, Q e -> R e) -> extends Q s1 s2 -> extends R s1 s2.
Proof.
  intros H (e & E & F). exists e. split; [exact E|].
  eapply Forall_impl; eauto.
Qed.

Lemma extends_emit (Q : event -> Prop) (e : event) (s : state) :
  Q e -> extends Q s (emit e s).
Proof. intro H. exists [e]. split; [reflexivity | now constructor]. Qed.

Lemma extends_same_trace (Q : event -> Prop) (s s1 s2 : state) :
  trace s2 = trace s1 -> extends Q s s1 -> extends Q s s2.
Proof. intros H (e & E & F). exists e. now rewrite H. Qed.

Lemma console_lost_spec (s : state) :
  consoles_left (console_lost s) = consoles_left s - 1
  /\ got_signal (console_lost s) =
     (if consoles_left (console_lost s) <=? 0 then 1 else got_signal s)
  /\ trace (console_lost s) = trace s
  /\ exists g l, console_lost s = set_consoles_left l (set_got_signal g s).
Proof.
  unfold console_lost. simpl.
  destruct (consoles_left s - 1 <=? 0) eqn:D; simpl; rewrite ?D;
    repeat split; eexists; eexists; reflexivity.
Qed.

(** ** The console loop *)

Lemma write_err_cases (ptsfd realfd : Z) (realcons : string) (e : Z)
    (o o1 : os) (s s1 : state) (nfd : Z) :
  write_err ptsfd realfd realcons e o s = Some (nfd, o1, s1) ->
  (e <> EIO /\ nfd = -1 /\ o1 = o /\ s1 = emit (EvClose ptsfd) s)
  \/ (e = EIO /\ exists r rest,
        q_open o = r :: rest /\ o1 = set_q_open rest o
        /\ ((0 <= r /\ nfd = r
             /\ s1 = emit (EvOpenNb realcons r) (emit (EvClose realfd) s))
            \/ (r < 0 /\ nfd = -1
                /\ s1 = emit (EvClose ptsfd)
                          (emit (EvOpenNb realcons r) (emit (EvClose realfd) s))))).
Proof.
  unfold write_err, open_nb. destruct (e =? EIO) eqn:E; simpl.
  - apply Z.eqb_eq in E. destruct (q_open o) as [|r rest]; [discriminate|].
    intro H. right. split; [exact E|]. exists r, rest. split; [reflexivity|].
    destruct (r <? 0) eqn:R; simpl in H.
    + apply Z.ltb_lt in R. injection H as <- <- <-. split; [reflexivity|].
      right. auto.
    + apply Z.ltb_ge in R.
      settle (r <? 0) in H.
      injection H as <- <- <-. split; [reflexivity|]. left. auto.
  - apply Z.eqb_neq in E. intro H. injection H as <- <- <-. left. auto.
Qed.

Lemma cons_write_shape (ws : list (Z * Z)) :
  forall o s c p m c1 o1 s1,
    cons_write ws o s c p m = Some (c1, o1, s1) ->
    exists g l tr,
      s1 = set_trace tr (set_consoles_left l (set_got_signal g s)).
Proof.
  induction ws as [|[i e] ws IH]; intros o s c p m c1 o1 s1; cbn [cons_write].
  - destruct (m <=? 0); [|discriminate].
    intro H. injection H as <- <- <-.
    exists (got_signal s), (consoles_left s), (trace s). now destruct s.
  - destruct (m <=? 0).
    { intro H. injection H as <- <- <-.
      exists (got_signal s), (consoles_left s), (trace s). now destruct s. }
    destruct (0 <=? i).
    { intro H. apply IH in H. destruct H as (g & l & tr & ->).
      exists g, l, tr. reflexivity. }
    destruct (write_err _ _ _ _ _ _) as [[[nfd o2] s2]|] eqn:W; [|discriminate].
    apply write_err_cases in W.
    assert (S2 : exists tr2, s2 = set_trace tr2 s).
    { destruct W as [(_ & _ & _ & ->)|(_ & r & rest & _ & _ & [(_ & _ & ->)|(_ & _ & ->)])];
        eexists; reflexivity. }
    destruct S2 as [tr2 ->].
    destruct (0 <=? nfd).
    { intro H. apply IH in H. destruct H as (g & l & tr & ->).
      exists g, l, tr. reflexivity. }
    intro H. injection H as <- <- <-.
    destruct (console_lost_spec (set_trace tr2 s)) as (_ & _ & _ & g & l & ->).
    eexists; eexists; eexists; reflexivity.
Qed.

Lemma span_split (s : state) (p m i : Z) :
  0 <= i ->
  firstn (Z.to_nat i) (span s p m) ++ span s (p + i) (m - i) = span s p m.
Proof.
  intro Hi. unfold span.
  destruct (Z_le_gt_dec i m) as [L|G].
  - replace (Z.to_nat m) with (Z.to_nat i + Z.to_nat (m - i))%nat by lia.
    rewrite span_from_app, firstn_app, span_from_length, Nat.sub_diag.
    simpl. rewrite app_nil_r, firstn_all2 by (rewrite span_from_length; lia).
    now rewrite Z2Nat.id by lia.
  - replace (Z.to_nat (m - i)) with O by lia. simpl. rewrite app_nil_r.
    apply firstn_all2. rewrite span_from_length. lia.
Qed.

Lemma cons_write_spec (ws : list (Z * Z)) :
  forall o s c p m c1 o1 s1,
    cons_write ws o s c p m = Some (c1, o1, s1) ->
    0 <= fd c ->
    name c1 = name c
    /\ extends (console_event [name c]) s s1
    /\ (0 <= fd c1 -> accepted (trace s1) = accepted (trace s) ++ span s p m)
    /\ ((0 <= fd c1 /\ consoles_left s1 = consoles_left s
         /\ got_signal s1 = got_signal s)
        \/ (fd c1 = -1 /\ consoles_left s1 = consoles_left s - 1
            /\ got_signal s1 =
               if consoles_left s1 <=? 0 then 1 else got_signal s)).
Proof.
  induction ws as [|[i e] ws IH]; intros o s c p m c1 o1 s1; cbn [cons_write].
  - destruct (m <=? 0) eqn:M; [|discriminate].
    intros H Hfd. injection H as <- <- <-. apply Z.leb_le in M.
    split; [reflexivity|]. split; [apply extends_refl|]. split.
    + intros _. unfold span. replace (Z.to_nat m) with O by lia.
      simpl. now rewrite app_nil_r.
    + left. auto.
  - destruct (m <=? 0) eqn:M.
    { intros H Hfd. injection H as <- <- <-. apply Z.leb_le in M.
      split; [reflexivity|]. split; [apply extends_refl|]. split.
      + intros _. unfold span. replace (Z.to_nat m) with O by lia.
        simpl. now rewrite app_nil_r.
      + left. auto. }
    intros H Hfd.
    set (sw := emit (EvWrite (fd c) (span s p m) i) s) in *.
    assert (Esw : extends (console_event [name c]) s sw)
      by (apply extends_emit; exact Hfd).
    destruct (0 <=? i) eqn:I.
    { apply Z.leb_le in I. apply IH in H; [|exact Hfd].
      destruct H as (N & E & A & C).
      split; [exact N|]. split; [eapply extends_trans; eauto|]. split.
      - intro F. rewrite (A F). unfold sw at 1. simpl.
        rewrite accepted_app. simpl.
        settle (0 <=? i).
        rewrite app_nil_r, <- app_assoc. f_equal.
        change (span sw (p + i) (m - i)) with (span s (p + i) (m - i)).
        now apply span_split.
      - exact C. }
    apply Z.leb_gt in I.
    assert (Asw : accepted (trace sw) = accepted (trace s)).
    { unfold sw. simpl. rewrite accepted_app. simpl.
      settle (0 <=? i).
      now rewrite app_nil_r. }
    destruct (write_err (pts sw) (fd c) (name c) e (set_q_write ws o) sw)
      as [[[nfd o2] s2]|] eqn:W; [|discriminate].
    apply write_err_cases in W.
    destruct W as [(Ee & -> & -> & ->)
                  |(Ee & r & rest & Q & -> & [(R & -> & ->)|(R & -> & ->)])].
    + (* not a hang-up *)
      simpl in H. injection H as <- <- <-. simpl.
      destruct (console_lost_spec (emit (EvClose (pts sw)) sw)) as (L1 & L2 & L3 & _).
      split; [reflexivity|]. split.
      { eapply extends_same_trace; [exact L3|].
        eapply extends_trans; [exact Esw|].
        apply (extends_emit _ (EvClose (pts sw))). exact Logic.I. }
      split; [intros; lia|]. right. auto.
    + (* hang-up, reopened *)
      settle (0 <=? r) in H.
      apply IH in H; [|simpl; lia].
      destruct H as (N & E & A & C). simpl in N, C.
      split; [exact N|]. split.
      { eapply extends_trans; [exact Esw|].
        eapply extends_trans; [|exact E].
        eapply extends_trans; [apply (extends_emit _ (EvClose (fd c))); exact Logic.I|].
        apply extends_emit. simpl. now left. }
      split; [|exact C].
      intro F. rewrite (A F). simpl. rewrite !accepted_app. simpl.
      rewrite !app_nil_r.
      settle (0 <=? i).
      now rewrite app_nil_r.
    + (* hang-up, reopen failed *)
      replace (0 <=? -1) with false in H by reflexivity.
      injection H as <- <- <-. simpl.
      match goal with |- context [console_lost ?x] =>
        destruct (console_lost_spec x) as (L1 & L2 & L3 & _) end.
      split; [reflexivity|]. split.
      { eapply extends_same_trace; [exact L3|].
        eapply extends_trans; [exact Esw|].
        eapply extends_trans; [apply (extends_emit _ (EvClose (fd c))); exact Logic.I|].
        eapply extends_trans; [apply (extends_emit _ (EvOpenNb (name c) r)); simpl; now left|].
        apply (extends_emit _ (EvClose (pts sw))). exact Logic.I. }
      split; [intros; lia|]. right. auto.
Qed.

Lemma console_event_mono (n1 n2 : list string) (e : event) :
  incl n1 n2 -> console_event n1 e -> console_event n2 e.
Proof. intro H. destruct e; simpl; auto. Qed.

Lemma live_cons (c : real_cons) (cs : list real_cons) :
  live (c :: cs) = (if 0 <=? fd c then 1 else 0) + live cs.
Proof.
  unfold live. simpl. destruct (0 <=? fd c); [|reflexivity].
  cbn [List.length]. lia.
Qed.

Lemma live_nonneg (cs : list real_cons) : 0 <= live cs.
Proof. unfold live. lia. Qed.

Lemma fanout_spec (cs : list real_cons) (p n : Z) :
  forall o s cs1 o1 s1,
    fanout cs p n o s = Some (cs1, o1, s1) ->
    map name cs1 = map name cs
    /\ extends (console_event (map name cs)) s s1
    /\ Forall2 (fun c c1 => fd c < 0 -> c1 = c) cs cs1
    /\ consoles_left s1 - live cs1 = consoles_left s - live cs
    /\ consoles_left s1 <= consoles_left s
    /\ (got_signal s1 = got_signal s \/ got_signal s1 = 1)
    /\ (0 < consoles_left s -> consoles_left s1 <= 0 -> got_signal s1 = 1)
    /\ exists g l tr,
         s1 = set_trace tr (set_consoles_left l (set_got_signal g s)).
Proof.
  induction cs as [|c cs IH]; intros o s cs1 o1 s1; cbn [fanout].
  - intro H. injection H as <- <- <-.
    repeat split; auto using extends_refl; try lia.
    exists (got_signal s), (consoles_left s), (trace s). now destruct s.
  - destruct (fd c <? 0) eqn:F.
    + apply Z.ltb_lt in F.
      destruct (fanout cs p n o s) as [[[r2 o2] s2]|] eqn:R; [|discriminate].
      intro H. injection H as <- <- <-.
      destruct (IH _ _ _ _ _ R) as (N & E & D & L & L2 & G & G2 & Sh).
      split; [simpl; now rewrite N|]. split.
      { eapply extends_weaken; [|exact E]. intros e.
        apply console_event_mono. simpl. now apply incl_tl, incl_refl. }
      split; [constructor; auto|].
      rewrite !live_cons.
      settle (0 <=? fd c).
      repeat split; auto; lia.
    + apply Z.ltb_ge in F.
      destruct (cons_write (q_write o) o s c p n) as [[[c2 o2] s2]|] eqn:W;
        [|discriminate].
      destruct (fanout cs p n o2 s2) as [[[r3 o3] s3]|] eqn:R; [|discriminate].
      intro H. injection H as <- <- <-.
      destruct (cons_write_spec _ _ _ _ _ _ _ _ _ W F) as (N1 & E1 & _ & C1).
      destruct (cons_write_shape _ _ _ _ _ _ _ _ _ W) as (g1 & l1 & tr1 & Sh1).
      destruct (IH _ _ _ _ _ R) as (N & E & D & L & L2 & G & G2 & (g & l & tr & Sh)).
      split; [simpl; now rewrite N, N1|]. split.
      { eapply extends_trans.
        - eapply extends_weaken; [|exact E1]. intros e.
          apply console_event_mono. intros x [<-|[]]. now left.
        - eapply extends_weaken; [|exact E]. intros e.
          apply console_event_mono. simpl. now apply incl_tl, incl_refl. }
      split; [constructor; [intro; lia | exact D]|].
      rewrite !live_cons.
      settle (0 <=? fd c).
      destruct C1 as [(F2 & CL & GS)|(F2 & CL & GS)].
      * settle (0 <=? fd c2).
        rewrite CL, GS in *.
        repeat split; auto; try lia.
        exists g, l, tr. rewrite Sh, Sh1. reflexivity.
      * settle (0 <=? fd c2).
        repeat split; try lia.
        { destruct G as [G|G]; [|now right]. rewrite G, GS.
          destruct (consoles_left s2 <=? 0); auto. }
        { intros P0 P1.
          destruct (Z_le_gt_dec (consoles_left s2) 0) as [Le|Gt].
          - destruct G as [G|G]; [|exact G]. rewrite G, GS.
            settle (consoles_left s2 <=? 0). reflexivity.
          - apply G2; lia. }
        { exists g, l, tr. rewrite Sh, Sh1. reflexivity. }
Qed.








(** ** One turn of the main loop *)

Lemma writelog_byte_shape (ptr : Z) (d : bool) (s : state) :
  exists fr ie tk tr,
    snd (writelog_byte ptr (d, s)) =
      set_trace tr (set_ticks tk (set_inside_esc ie (set_first_run fr s)))
    /\ extends log_event s (snd (writelog_byte ptr (d, s))).
Proof.
  unfold writelog_byte.
  destruct ((buf s (ptr - 1) =? NL) || negb (first_run s =? 0)); simpl;
    destruct (esc_filter (inside_esc s) (buf s ptr)) as [[] ie]; simpl.
  - do 4 eexists. split; [reflexivity|].
    exists [EvFprintf (stamp_text (clock s (ticks s)))].
    split; [reflexivity | repeat constructor].
  - do 4 eexists. split; [reflexivity|].
    exists [EvFprintf (stamp_text (clock s (ticks s))); EvFwrite (buf s ptr)].
    split; [simpl; now rewrite <- app_assoc | repeat constructor].
  - exists (first_run s), ie, (ticks s), (trace s).
    split; [now destruct s|].
    exists []. split; [simpl; now rewrite app_nil_r | constructor].
  - exists (first_run s), ie, (ticks s), (trace s ++ [EvFwrite (buf s ptr)]).
    split; [now destruct s|].
    exists [EvFwrite (buf s ptr)]. split; [reflexivity | repeat constructor].
Qed.

Lemma writelog_loop_shape (n : nat) :
  forall ptr d s,
    exists fr ie tk tr,
      snd (writelog_loop n ptr (d, s)) =
        set_trace tr (set_ticks tk (set_inside_esc ie (set_first_run fr s)))
      /\ extends log_event s (snd (writelog_loop n ptr (d, s))).
Proof.
  induction n as [|n IH]; intros ptr d s; cbn [writelog_loop].
  - exists (first_run s), (inside_esc s), (ticks s), (trace s).
    split; [now destruct s | apply extends_refl].
  - destruct (writelog_byte_shape ptr d s) as (fr & ie & tk & tr & E & X).
    destruct (writelog_byte ptr (d, s)) as [d1 s1]. simpl in E, X.
    destruct (IH (ptr + 1) d1 s1) as (fr2 & ie2 & tk2 & tr2 & E2 & X2).
    exists fr2, ie2, tk2, tr2. split.
    + rewrite E2, E. reflexivity.
    + eapply extends_trans; eauto.
Qed.

Lemma writelog_shape (ptr len : Z) (s : state) :
  exists op fr ie tk tr,
    writelog ptr len s =
      set_trace tr
        (set_ticks tk (set_inside_esc ie (set_first_run fr (set_outptr op s))))
    /\ extends log_event s (writelog ptr len s).
Proof.
  unfold writelog.
  destruct (writelog_loop_shape (Z.to_nat len) ptr false s)
    as (fr & ie & tk & tr & E & X).
  destruct (writelog_loop (Z.to_nat len) ptr (false, s)) as [d s1].
  simpl in E, X. subst s1.
  assert (K : forall st,
             extends log_event s st ->
             buf st = buf s -> endptr st = endptr s -> inptr st = inptr s ->
             got_signal st = got_signal s -> didnl st = didnl s ->
             createlogfile st = createlogfile s -> syncalot st = syncalot s ->
             fp st = fp s -> logfile st = logfile s -> rotate st = rotate s ->
             ptm st = ptm s -> pts st = pts s -> cons st = cons s ->
             consoles_left st = consoles_left s -> clock st = clock s ->
             exists op fr ie tk tr,
               st = set_trace tr (set_ticks tk (set_inside_esc ie
                      (set_first_run fr (set_outptr op s))))
               /\ extends log_event s st).
  { intros st Xs. intros.
    exists (outptr st), (first_run st), (inside_esc st), (ticks st), (trace st).
    split; [|exact Xs]. destruct st, s; simpl in *. subst. reflexivity. }
  destruct d; simpl.
  - destruct (syncalot s =? 0); simpl;
      destruct (endptr s <=? outptr s + len); simpl;
      apply K; try reflexivity;
      (eapply extends_trans; [exact X|]);
      first [ exists [EvFflush]; split; [reflexivity | repeat constructor]
            | exists [EvFflush; EvFdatasync];
              split; [simpl; rewrite <- app_assoc; reflexivity
                     | repeat constructor] ].
  - destruct (endptr s <=? outptr s + len); simpl;
      apply K; try reflexivity;
      (eapply extends_same_trace; [|exact X]); reflexivity.
Qed.

Lemma do_fopen_shape (o o1 : os) (s s1 : state) :
  do_fopen o s = Some (o1, s1) ->
  exists f tr, s1 = set_trace tr (set_fp f s) /\ extends file_event s s1.
Proof.
  unfold do_fopen. destruct (q_fopen o) as [|ok rest]; [discriminate|].
  intro H. injection H as <- <-. do 2 eexists. split; [reflexivity|].
  apply (extends_emit _ (EvFopen (logfile s) ok)). exact Logic.I.
Qed.

Lemma open_logfile_shape (o o1 : os) (s s1 : state) :
  open_logfile o s = Some (o1, s1) ->
  exists f tr, s1 = set_trace tr (set_fp f s) /\ extends file_event s s1.
Proof.
  unfold open_logfile.
  assert (R : exists f tr, s = set_trace tr (set_fp f s) /\ extends file_event s s).
  { exists (fp s), (trace s). split; [now destruct s | apply extends_refl]. }
  assert (K : forall o2 s2 o3 s3,
             (exists f tr, s2 = set_trace tr (set_fp f s) /\ extends file_event s s2) ->
             (if negb (fp s2) && negb (createlogfile s2 =? 0)
              then do_fopen o2 s2 else Some (o2, s2)) = Some (o3, s3) ->
             exists f tr, s3 = set_trace tr (set_fp f s) /\ extends file_event s s3).
  { intros o2 s2 o3 s3 (f & tr & E & X) H.
    destruct (negb (fp s2) && negb (createlogfile s2 =? 0)).
    - apply do_fopen_shape in H. destruct H as (f2 & tr2 & E2 & X2).
      exists f2, tr2. split; [rewrite E2, E; reflexivity|].
      eapply extends_trans; eauto.
    - injection H as <- <-. exists f, tr. auto. }
  destruct (fp s) eqn:F.
  - intro H. apply (K o s o1 s1); auto.
  - destruct (q_access o) as [|a rest]; [discriminate|].
    destruct (a =? 0).
    + destruct (do_fopen _ _) as [[o2 s2]|] eqn:D; [|discriminate].
      intro H. apply (K o2 s2 o1 s1); auto.
      apply do_fopen_shape in D. destruct D as (f2 & tr2 & E2 & X2).
      destruct (rotate s =? 0).
      * exists f2, tr2. auto.
      * exists f2, tr2. split; [rewrite E2; reflexivity|].
        eapply extends_trans; [|exact X2].
        apply (extends_emit _ (EvRename _ _)). exact Logic.I.
    + intro H. apply (K (set_q_access rest o) s o1 s1); auto.
Qed.

(** The two ways through the body of [if (select(...) == 1)]. *)
Lemma capture_and_fanout_cases (o o1 : os) (s s1 : state) :
  capture_and_fanout o s = Some (o1, s1) ->
  s1 = s
  \/ exists data o2 cs s2,
       Z.of_nat (List.length data) <= endptr s - inptr s
       /\ fanout (cons s) (inptr s) (Z.of_nat (List.length data)) o2
            (store data s) = Some (cs, o1, s2)
       /\ s1 = ring_advance (Z.of_nat (List.length data)) (set_cons cs s2).
Proof.
  unfold capture_and_fanout.
  destruct (q_read o) as [|[data|] rest]; [discriminate| |].
  - destruct (endptr s - inptr s <? Z.of_nat (List.length data)) eqn:B;
      [discriminate|].
    apply Z.ltb_ge in B.
    change (cons (store data s)) with (cons s).
    change (inptr (store data s)) with (inptr s).
    destruct (fanout _ _ _ _ _) as [[[cs o2] s2]|] eqn:F; [|discriminate].
    intro H. injection H as <- <-. right.
    exists data, (set_q_read rest o), cs, s2. auto.
  - intro H. injection H as <- <-. now left.
Qed.

Lemma ring_advance_shape (n : Z) (s : state) :
  exists ip op, ring_advance n s = set_outptr op (set_inptr ip s).
Proof.
  exists (inptr (ring_advance n s)), (outptr (ring_advance n s)).
  unfold ring_advance. simpl.
  destruct ((inptr s + n - n <? outptr s) && (outptr s <? inptr s + n)); simpl;
    destruct (endptr s <=? inptr s + n); simpl;
    repeat match goal with |- context [if ?b then _ else _] => destruct b end;
    reflexivity.
Qed.

Lemma loop_event_console (names : list string) (e : event) :
  console_event names e -> loop_event names e.
Proof. unfold loop_event. tauto. Qed.

Lemma loop_event_log (names : list string) (e : event) :
  log_event e -> loop_event names e.
Proof. unfold loop_event. tauto. Qed.

Lemma loop_event_file (names : list string) (e : event) :
  file_event e -> loop_event names e.
Proof. unfold loop_event. tauto. Qed.

(** What a turn of the loop keeps, and what it may do. *)
Lemma main_iter_spec (o o1 : os) (s s1 : state) :
  main_iter o s = Some (o1, s1) ->
  (endptr s1 = endptr s /\ didnl s1 = didnl s /\ pts s1 = pts s
   /\ ptm s1 = ptm s /\ clock s1 = clock s)
  /\ map name (cons s1) = map name (cons s)
  /\ extends (loop_event (map name (cons s))) s s1
  /\ Forall2 (fun c c1 => fd c < 0 -> c1 = c) (cons s) (cons s1)
  /\ consoles_left s1 - live (cons s1) = consoles_left s - live (cons s)
  /\ (forall r rest,
         q_select o = (r, 0) :: rest ->
         (got_signal s1 = got_signal s \/ got_signal s1 = 1)
         /\ (0 < consoles_left s -> consoles_left s1 <= 0 -> got_signal s1 = 1)).
Proof.
  unfold main_iter. destruct (q_select o) as [|[r sig] rest]; [discriminate|].
  set (sa := if sig =? 0 then s else set_got_signal sig s).
  assert (Ha : exists g, sa = set_got_signal g s /\ (sig = 0 -> g = got_signal s)).
  { unfold sa. destruct (sig =? 0) eqn:Z0.
    - exists (got_signal s). split; [now destruct s | auto].
    - apply Z.eqb_neq in Z0. exists sig. split; [reflexivity | tauto]. }
  destruct Ha as (g & Ea & Hg). clearbody sa. subst sa.
  (* the capture phase *)
  assert (B : forall ob sb,
             (if r =? 1
              then capture_and_fanout (set_q_select rest o) (set_got_signal g s)
              else Some (set_q_select rest o, set_got_signal g s)) = Some (ob, sb) ->
             exists bf ip op cs l g1 tr,
               sb = set_trace tr (set_got_signal g1 (set_consoles_left l
                      (set_cons cs (set_outptr op (set_inptr ip (set_buf bf s))))))
               /\ map name cs = map name (cons s)
               /\ extends (console_event (map name (cons s))) s sb
               /\ Forall2 (fun c c1 => fd c < 0 -> c1 = c) (cons s) cs
               /\ l - live cs = consoles_left s - live (cons s)
               /\ (g1 = g \/ g1 = 1)
               /\ (0 < consoles_left s -> l <= 0 -> g1 = 1)).
  { intros ob sb H.
    assert (Same : exists bf ip op cs l g1 tr,
               set_got_signal g s =
                 set_trace tr (set_got_signal g1 (set_consoles_left l
                   (set_cons cs (set_outptr op (set_inptr ip (set_buf bf s))))))
               /\ map name cs = map name (cons s)
               /\ extends (console_event (map name (cons s))) s (set_got_signal g s)
               /\ Forall2 (fun c c1 => fd c < 0 -> c1 = c) (cons s) cs
               /\ l - live cs = consoles_left s - live (cons s)
               /\ (g1 = g \/ g1 = 1)
               /\ (0 < consoles_left s -> l <= 0 -> g1 = 1)).
    { exists (buf s), (inptr s), (outptr s), (cons s), (consoles_left s), g, (trace s).
      split; [now destruct s|]. split; [reflexivity|].
      split; [exists []; split; [simpl; now rewrite app_nil_r | constructor]|].
      split; [|split; [reflexivity | split; [now left | lia]]].
      clear. induction (cons s); constructor; auto. }
    destruct (r =? 1); [|injection H as <- <-; exact Same].
    apply capture_and_fanout_cases in H.
    destruct H as [->|(data & o2 & cs & s2 & Bd & F & ->)]; [exact Same|].
    apply fanout_spec in F. simpl in F.
    destruct F as (N & X & D & L & L2 & G & G2 & (g1 & l & tr & ->)).
    simpl in L, L2, G, G2.
    destruct (ring_advance_shape (Z.of_nat (List.length data))
                (set_cons cs (set_trace tr (set_consoles_left l
                   (set_got_signal g1 (store data (set_got_signal g s)))))))
      as (ip & op & ->).
    exists (buf (store data (set_got_signal g s))), ip, op, cs, l, g1, tr.
    split; [reflexivity|].
    split; [exact N|]. split.
    { destruct X as (evs & E & Fa). exists evs. split; [exact E | exact Fa]. }
    split; [exact D|]. split; [exact L|]. split; [exact G | exact G2]. }
  destruct (if r =? 1
            then capture_and_fanout (set_q_select rest o) (set_got_signal g s)
            else Some (set_q_select rest o, set_got_signal g s))
    as [[ob sb]|] eqn:C; [|discriminate].
  destruct (B ob sb eq_refl) as (bf & ip & op & cs & l & g1 & tr & -> & N & X & D & L & G & G2).
  clear B C.
  destruct (open_logfile ob _) as [[oc sc]|] eqn:Lf; [|discriminate].
  intro H. injection H as <- <-.
  apply open_logfile_shape in Lf. destruct Lf as (f & trc & -> & Xc).
  assert (X2 : extends (loop_event (map name (cons s))) s
                 (set_trace trc (set_fp f (set_trace tr (set_got_signal g1
                    (set_consoles_left l (set_cons cs (set_outptr op
                       (set_inptr ip (set_buf bf s))))))))))
    by (eapply extends_trans;
        [eapply extends_weaken; [apply loop_event_console | exact X]
        |eapply extends_weaken; [apply loop_event_file | exact Xc]]).
  assert (Fin : forall r0 rest0,
             (r, sig) :: rest = (r0, 0) :: rest0 ->
             (g1 = got_signal s \/ g1 = 1)
             /\ (0 < consoles_left s -> l <= 0 -> g1 = 1)).
  { intros r0 rest0 Hq. assert (S0 : sig = 0) by congruence.
    split; [|exact G2]. destruct G as [-> | ->]; [left; now apply Hg | now right]. }
  match goal with |- context [if ?b then _ else _] => destruct b end.
  - match goal with |- context [writelog ?p ?n ?st] =>
      destruct (writelog_shape p n st) as (op2 & fr & ie & tk & tr2 & E & Xw);
      rewrite E in *; clear E end.
    simpl. split; [repeat split|]. split; [exact N|]. split.
    { eapply extends_trans; [exact X2|].
      eapply extends_weaken; [apply loop_event_log | exact Xw]. }
    split; [exact D|]. split; [exact L | exact Fin].
  - simpl. split; [repeat split|]. split; [exact N|]. split; [exact X2|].
    split; [exact D|]. split; [exact L | exact Fin].
Qed.


Lemma main_iter_cases (o o1 : os) (s s1 : state) :
  main_iter o s = Some (o1, s1) ->
  exists r sig rest g ob sb sc,
    q_select o = (r, sig) :: rest
    /\ (sig = 0 -> g = got_signal s)
    /\ (sb = set_got_signal g s
        \/ exists data o2 cs s2,
             Z.of_nat (List.length data) <= endptr s - inptr s
             /\ fanout (cons s) (inptr s) (Z.of_nat (List.length data)) o2
                  (store data (set_got_signal g s)) = Some (cs, ob, s2)
             /\ sb = ring_advance (Z.of_nat (List.length data)) (set_cons cs s2))
    /\ open_logfile ob sb = Some (o1, sc)
    /\ s1 = (if fp sc && negb (todo sc =? 0)
             then writelog (outptr sc) (todo sc) sc else sc).
Proof.
  unfold main_iter. destruct (q_select o) as [|[r sig] rest]; [discriminate|].
  set (sa := if sig =? 0 then s else set_got_signal sig s).
  assert (Ha : exists g, sa = set_got_signal g s /\ (sig = 0 -> g = got_signal s)).
  { unfold sa. destruct (sig =? 0) eqn:Z0.
    - exists (got_signal s). split; [now destruct s | auto].
    - apply Z.eqb_neq in Z0. exists sig. split; [reflexivity | tauto]. }
  destruct Ha as (g & Ea & Hg). clearbody sa. subst sa.
  destruct (if r =? 1
            then capture_and_fanout (set_q_select rest o) (set_got_signal g s)
            else Some (set_q_select rest o, set_got_signal g s))
    as [[ob sb]|] eqn:C; [|discriminate].
  destruct (open_logfile ob sb) as [[oc sc]|] eqn:L; [|discriminate].
  intro H. injection H as <- <-.
  exists r, sig, rest, g, ob, sb, sc.
  split; [reflexivity|]. split; [exact Hg|]. split; [|split; [exact L | reflexivity]].
  destruct (r =? 1); [|injection C as <- <-; now left].
  apply capture_and_fanout_cases in C.
  destruct C as [->|(data & o2 & cs & s2 & Bd & F & ->)]; [now left|].
  right. exists data, o2, cs, s2. auto.
Qed.

(** ** The loop as a whole *)

Lemma main_loop_inv (P : state -> Prop) :
  (forall o s o1 s1, P s -> main_iter o s = Some (o1, s1) -> P s1) ->
  forall fuel o s o1 s1,
    P s -> main_loop fuel o s = Some (o1, s1) -> P s1 /\ got_signal s1 <> 0.
Proof.
  intros Step. induction fuel as [|fuel IH]; intros o s o1 s1 Hp; cbn [main_loop].
  - destruct (got_signal s =? 0) eqn:G; simpl; [discriminate|].
    intro H. injection H as <- <-. apply Z.eqb_neq in G. auto.
  - destruct (got_signal s =? 0) eqn:G; simpl.
    + destruct (main_iter o s) as [[o2 s2]|] eqn:M; [|discriminate].
      intro H. eapply IH; [|exact H]. eapply Step; eauto.
    + intro H. injection H as <- <-. apply Z.eqb_neq in G. auto.
Qed.

Lemma main_loop_stops (fuel : nat) (o : os) (s : state) :
  got_signal s <> 0 -> main_loop fuel o s = Some (o, s).
Proof.
  intro G. apply Z.eqb_neq in G. destruct fuel; cbn [main_loop]; now rewrite G.
Qed.

Lemma main_loop_turn (fuel : nat) (o o1 : os) (s s1 : state) :
  got_signal s = 0 -> main_iter o s = Some (o1, s1) ->
  main_loop (S fuel) o s = main_loop fuel o1 s1.
Proof. intros G M. cbn [main_loop]. now rewrite G, M. Qed.

Lemma closes_trace (cs : list real_cons) :
  forall s,
    trace (fold_left (fun a c => emit (EvClose (fd c)) a) cs s) =
    trace s ++ map (fun c => EvClose (fd c)) cs
    /\ didnl (fold_left (fun a c => emit (EvClose (fd c)) a) cs s) = didnl s.
Proof.
  induction cs as [|c cs IH]; intro s; simpl.
  - now rewrite app_nil_r.
  - destruct (IH (emit (EvClose (fd c)) s)) as [A B]. rewrite A, B. simpl.
    now rewrite <- app_assoc.
Qed.

Lemma main_exit_trace (s : state) :
  trace (main_exit s) =
    trace s
    ++ (if fp s
        then (if didnl s =? 0 then [EvFputc NL] else []) ++ [EvFclose]
        else [])
    ++ closes s
  /\ didnl (main_exit s) = didnl s.
Proof.
  unfold main_exit, closes.
  match goal with |- context [fold_left ?f ?l ?a] =>
    destruct (closes_trace l a) as [A B] end.
  rewrite A, B. clear A B.
  destruct (fp s); simpl; [destruct (didnl s =? 0); simpl|];
    rewrite <- ?app_assoc; simpl; auto.
Qed.

(** C4. A turn of the main loop, started with no signal pending and
    during which no handler runs, that takes the live-target count from
    above zero to zero: [got_signal] is 1 afterwards, the loop ends with
    this very turn whatever fuel is left, the consoles are all dead when
    the count matched the descriptors before, and what follows the loop
    closes the pty and every console. *)
Theorem all_consoles_lost_shutdown (o o1 : os) (s s1 : state)
    (r : Z) (rest : list (Z * Z)) :
  main_iter o s = Some (o1, s1) ->
  q_select o = (r, 0) :: rest ->
  got_signal s = 0 ->
  0 < consoles_left s ->
  consoles_left s1 <= 0 ->
  got_signal s1 = 1
  /\ (forall fuel, main_loop (S fuel) o s = Some (o1, s1))
  /\ (consoles_left s = live (cons s) ->
      consoles_left s1 = 0 /\ Forall (fun c => fd c < 0) (cons s1))
  /\ exists evs, trace (main_exit s1) = trace s1 ++ evs ++ closes s1.
Proof.
  intros M Q G0 L0 L1.
  destruct (main_iter_spec _ _ _ _ M) as (_ & _ & _ & _ & Lv & Sg).
  destruct (Sg r rest Q) as [_ G1]. specialize (G1 L0 L1).
  split; [exact G1|]. split; [|split].
  - intro fuel. rewrite (main_loop_turn fuel o o1 s s1 G0 M).
    apply main_loop_stops. lia.
  - intro Inv. pose proof (live_nonneg (cons s1)) as Nn.
    assert (Z0 : live (cons s1) = 0) by lia. split; [lia|].
    clear - Z0. induction (cons s1) as [|c cs IH]; [constructor|].
    rewrite live_cons in Z0. pose proof (live_nonneg cs).
    destruct (0 <=? fd c) eqn:F; [lia|]. apply Z.leb_gt in F.
    constructor; [exact F | apply IH; lia].
  - destruct (main_exit_trace s1) as [E _]. eexists. exact E.
Qed.

(** ** Descriptors and the paths they were opened on *)

Lemma holds_opened_more (tr evs : list event) (c : real_cons) :
  holds_opened tr c -> holds_opened (tr ++ evs) c.
Proof. unfold holds_opened. intros H F. apply in_or_app. left. auto. Qed.

Lemma wto_write (tr : list event) (p : string) (f r : Z) (d : list Z) :
  writes_to_opened tr -> In (EvOpenNb p f) tr ->
  writes_to_opened (tr ++ [EvWrite f d r]).
Proof.
  intros W O g d1 r1 Hin. apply in_app_or in Hin. destruct Hin as [Hin|[Hin|[]]].
  - destruct (W _ _ _ Hin) as [q Hq]. exists q. apply in_or_app. now left.
  - injection Hin as <- _ _. exists p. apply in_or_app. now left.
Qed.

Lemma wto_more (tr evs : list event) :
  writes_to_opened tr ->
  (forall f d r, ~ In (EvWrite f d r) evs) ->
  writes_to_opened (tr ++ evs).
Proof.
  intros W N g d1 r1 Hin. apply in_app_or in Hin. destruct Hin as [Hin|Hin].
  - destruct (W _ _ _ Hin) as [q Hq]. exists q. apply in_or_app. now left.
  - exfalso. eapply N; eauto.
Qed.

Lemma opened_extends (Q : event -> Prop) (s s1 : state) (cs : list real_cons) :
  extends Q s s1 ->
  (forall e, Q e -> forall f d r, e <> EvWrite f d r) ->
  Forall (holds_opened (trace s)) cs -> writes_to_opened (trace s) ->
  Forall (holds_opened (trace s1)) cs /\ writes_to_opened (trace s1).
Proof.
  intros (evs & E & F) HQ Hc W. rewrite E. split.
  - eapply Forall_impl; [|exact Hc]. intros c. apply holds_opened_more.
  - apply wto_more; [exact W|]. intros f d r Hin.
    rewrite Forall_forall in F. eapply HQ; eauto.
Qed.

Lemma cons_write_opened (ws : list (Z * Z)) :
  forall o s c p m c1 o1 s1,
    cons_write ws o s c p m = Some (c1, o1, s1) ->
    0 <= fd c ->
    holds_opened (trace s) c -> writes_to_opened (trace s) ->
    holds_opened (trace s1) c1 /\ writes_to_opened (trace s1).
Proof.
  induction ws as [|[i e] ws IH]; intros o s c p m c1 o1 s1; cbn [cons_write].
  - destruct (m <=? 0); [|discriminate].
    intros H. injection H as <- <- <-. auto.
  - destruct (m <=? 0).
    { intros H. injection H as <- <- <-. auto. }
    intros H Hfd Hc W.
    set (sw := emit (EvWrite (fd c) (span s p m) i) s) in *.
    assert (Wsw : writes_to_opened (trace sw))
      by (apply (wto_write _ (name c)); auto).
    assert (Csw : holds_opened (trace sw) c) by now apply holds_opened_more.
    clearbody sw.
    destruct (0 <=? i).
    { eapply IH; eauto. }
    destruct (write_err (pts sw) (fd c) (name c) e (set_q_write ws o) sw)
      as [[[nfd o2] s2]|] eqn:We; [|discriminate].
    apply write_err_cases in We.
    destruct We as [(Ee & -> & -> & ->)
                   |(Ee & r & rest & Q & -> & [(R & -> & ->)|(R & -> & ->)])].
    + replace (0 <=? -1) with false in H by reflexivity.
      injection H as <- <- <-.
      match goal with |- context [console_lost ?x] =>
        destruct (console_lost_spec x) as (_ & _ & L3 & _) end.
      rewrite L3. split; [intro F; simpl in F; lia|].
      apply wto_more; [exact Wsw|]. intros f d r0 [Hin|[]]. discriminate.
    + settle (0 <=? r) in H.
      eapply IH; [exact H | simpl; lia | |].
      * intros _. simpl. apply in_or_app. right. now left.
      * simpl. rewrite <- app_assoc. apply wto_more; [exact Wsw|].
        intros f d r0 [Hin|[Hin|[]]]; discriminate.
    + replace (0 <=? -1) with false in H by reflexivity.
      injection H as <- <- <-.
      match goal with |- context [console_lost ?x] =>
        destruct (console_lost_spec x) as (_ & _ & L3 & _) end.
      rewrite L3. split; [intro F; simpl in F; lia|].
      simpl. rewrite <- !app_assoc. apply wto_more; [exact Wsw|].
      intros f d r0 [Hin|[Hin|[Hin|[]]]]; discriminate.
Qed.

Lemma fanout_opened (cs : list real_cons) (p n : Z) :
  forall o s cs1 o1 s1,
    fanout cs p n o s = Some (cs1, o1, s1) ->
    Forall (holds_opened (trace s)) cs -> writes_to_opened (trace s) ->
    Forall (holds_opened (trace s1)) cs1 /\ writes_to_opened (trace s1).
Proof.
  induction cs as [|c cs IH]; intros o s cs1 o1 s1; cbn [fanout].
  - intro H. injection H as <- <- <-. auto.
  - intros H Hc W. inversion Hc as [|? ? Hc1 Hc2]; subst.
    destruct (fd c <? 0) eqn:F.
    + destruct (fanout cs p n o s) as [[[r2 o2] s2]|] eqn:R; [|discriminate].
      injection H as <- <- <-.
      destruct (IH _ _ _ _ _ R Hc2 W) as [A B]. split; [|exact B].
      constructor; [|exact A]. intro Fd. apply Z.ltb_lt in F. lia.
    + apply Z.ltb_ge in F.
      destruct (cons_write (q_write o) o s c p n) as [[[c2 o2] s2]|] eqn:Wr;
        [|discriminate].
      destruct (fanout cs p n o2 s2) as [[[r3 o3] s3]|] eqn:R; [|discriminate].
      injection H as <- <- <-.
      destruct (cons_write_opened _ _ _ _ _ _ _ _ _ Wr F Hc1 W) as [A1 W1].
      destruct (cons_write_spec _ _ _ _ _ _ _ _ _ Wr F) as (_ & (ev1 & E1 & _) & _).
      assert (Hc2' : Forall (holds_opened (trace s2)) cs).
      { rewrite E1. eapply Forall_impl; [|exact Hc2].
        intro. apply holds_opened_more. }
      destruct (IH _ _ _ _ _ R Hc2' W1) as [A B]. split; [|exact B].
      constructor; [|exact A].
      destruct (fanout_spec _ _ _ _ _ _ _ _ R) as (_ & (ev2 & E2 & _) & _).
      rewrite E2. now apply holds_opened_more.
Qed.

Lemma log_event_no_write (e : event) :
  log_event e -> forall f d r, e <> EvWrite f d r.
Proof. destruct e; simpl; intros H f0 d0 r0; try discriminate; contradiction. Qed.

Lemma file_event_no_write (e : event) :
  file_event e -> forall f d r, e <> EvWrite f d r.
Proof. destruct e; simpl; intros H f0 d0 r0; try discriminate; contradiction. Qed.

Lemma main_iter_opened (o o1 : os) (s s1 : state) :
  main_iter o s = Some (o1, s1) ->
  Forall (holds_opened (trace s)) (cons s) -> writes_to_opened (trace s) ->
  Forall (holds_opened (trace s1)) (cons s1) /\ writes_to_opened (trace s1).
Proof.
  intros M Hc W.
  destruct (main_iter_cases _ _ _ _ M)
    as (r & sig & rest & g & ob & sb & sc & _ & _ & Cap & L & ->).
  assert (B : Forall (holds_opened (trace sb)) (cons sb)
              /\ writes_to_opened (trace sb)).
  { destruct Cap as [->|(data & o2 & cs & s2 & _ & F & ->)]; [now split|].
    apply fanout_opened in F; [|exact Hc|exact W].
    destruct (ring_advance_shape (Z.of_nat (List.length data)) (set_cons cs s2))
      as (ip & op & ->). exact F. }
  destruct B as [Hb Wb].
  destruct (open_logfile_shape _ _ _ _ L) as (f & trc & Ec & Xc).
  assert (C : Forall (holds_opened (trace sc)) (cons sc)
              /\ writes_to_opened (trace sc)).
  { replace (cons sc) with (cons sb) by (rewrite Ec; reflexivity).
    eapply opened_extends; eauto. intros e. apply file_event_no_write. }
  destruct (fp sc && negb (todo sc =? 0)); [|exact C].
  destruct C as [Hcc Wc].
  destruct (writelog_shape (outptr sc) (todo sc) sc)
    as (op2 & fr & ie & tk & tr2 & E & Xw).
  replace (cons (writelog (outptr sc) (todo sc) sc)) with (cons sc)
    by (rewrite E; reflexivity).
  eapply opened_extends; eauto. intros e. apply log_event_no_write.
Qed.

(** ** Start-up *)

Lemma fix_name_fixed (n : string) : fixed_name (fix_name n).
Proof.
  unfold fix_name, fixed_name.
  destruct (String.eqb_spec n "/dev/tty0") as [->|N1].
  - simpl. split; discriminate.
  - destruct (String.eqb_spec n "/dev/vc/0") as [->|N2].
    + split; discriminate.
    + split; assumption.
Qed.

Lemma open_consoles_spec (names : list string) :
  forall o s cs o1 s1,
    open_consoles names o s = Some (cs, o1, s1) ->
    map name cs = map fix_name names
    /\ (exists evs,
           trace s1 = trace s ++ evs
           /\ opened evs = map fix_name names
           /\ Forall (run_event (map fix_name names)) evs
           /\ (forall f d r, ~ In (EvWrite f d r) evs))
    /\ (exists l tr, s1 = set_trace tr (set_consoles_left l s))
    /\ consoles_left s1 - live cs = consoles_left s - Z.of_nat (List.length names)
    /\ Forall (holds_opened (trace s1)) cs.
Proof.
  induction names as [|n names IH]; intros o s cs o1 s1; cbn [open_consoles].
  - intro H. injection H as <- <- <-. split; [reflexivity|]. split.
    { exists []. rewrite app_nil_r. split; [reflexivity|].
      split; [reflexivity|]. split; [constructor|]. intros f d r H. exact H. }
    split; [exists (consoles_left s), (trace s); now destruct s|].
    split; [reflexivity | constructor].
  - unfold open_nb. destruct (q_open o) as [|r0 rest]; [discriminate|].
    set (r := if r0 <? 0 then -1 else r0).
    set (so := emit (EvOpenNb (fix_name n) r0) s).
    set (s2 := if r <? 0 then set_consoles_left (consoles_left so - 1) so else so).
    destruct (open_consoles names (set_q_open rest o) s2) as [[[cs2 o2] s3]|] eqn:R;
      [|discriminate].
    intro H. injection H as <- <- <-.
    destruct (IH _ _ _ _ _ R) as (N & (evs & E & Op & Fa & Nw) & (l & tr & Sh) & L & Hc).
    assert (T2 : trace s2 = trace s ++ [EvOpenNb (fix_name n) r0])
      by (unfold s2; destruct (r <? 0); reflexivity).
    split; [simpl; now rewrite N|]. split; [|split; [|split]].
    + exists (EvOpenNb (fix_name n) r0 :: evs). split; [|split; [|split]].
      * rewrite E, T2, <- app_assoc. reflexivity.
      * simpl. now rewrite Op.
      * constructor; [simpl; now left|].
        eapply Forall_impl; [|exact Fa]. intros e.
        destruct e; simpl; auto.
      * intros f d r1 [Hin|Hin]; [discriminate | eapply Nw; eauto].
    + exists l, tr. rewrite Sh. unfold s2, so. destruct (r <? 0); reflexivity.
    + rewrite live_cons. cbn [fd List.length].
      assert (L2 : consoles_left s2 =
                   consoles_left s - (if 0 <=? r then 0 else 1)).
      { unfold s2. destruct (r <? 0) eqn:Rn.
        - apply Z.ltb_lt in Rn.
          settle (0 <=? r).
          simpl. lia.
        - apply Z.ltb_ge in Rn.
          settle (0 <=? r).
          simpl. lia. }
      destruct (0 <=? r); lia.
    + constructor; [|exact Hc].
      intro Fd. simpl in Fd. rewrite E, T2. simpl.
      apply in_or_app. left. apply in_or_app. right. left.
      unfold r in *. destruct (r0 <? 0); [lia | reflexivity].
Qed.


Lemma run_event_start (names : list string) (e : event) :
  match e with
  | EvIoctl _ | EvOpenRdwr _ _ | EvClose _ => True
  | _ => False
  end -> run_event names e.
Proof. destruct e; simpl; tauto. Qed.

Lemma start_tail_ok (names : list string) (t : list event) :
  Forall (fun e => match e with
                   | EvIoctl _ | EvOpenRdwr _ _ | EvClose _ => True
                   | _ => False
                   end) t ->
  opened t = []
  /\ Forall (run_event names) t
  /\ forall f d r, ~ In (EvWrite f d r) t.
Proof.
  induction 1 as [|e t He _ (I1 & I2 & I3)].
  - split; [reflexivity|]. split; [constructor|]. intros f d r H. exact H.
  - split; [|split].
    + destruct e; try contradiction; exact I1.
    + constructor; [now apply run_event_start | exact I2].
    + intros f d r [Hin|Hin]; [subst e; contradiction | eapply I3; eauto].
Qed.

Lemma main_start_spec (names : list string) (o o1 : os) (s s1 : state)
    (res : option Z) :
  main_start names o s = Some (o1, s1, res) ->
  didnl s1 = didnl s
  /\ got_signal s1 = got_signal s
  /\ (exists evs,
         trace s1 = trace s ++ evs
         /\ opened evs = map fix_name names
         /\ Forall (run_event (map fix_name names)) evs
         /\ (forall f d r, ~ In (EvWrite f d r) evs))
  /\ (res = None ->
      map name (cons s1) = map fix_name names
      /\ consoles_left s1 = live (cons s1)
      /\ Forall (holds_opened (trace s1)) (cons s1)
      /\ 0 < consoles_left s1)
  /\ (res = None \/ res = Some 1).
Proof.
  unfold main_start. destruct names as [|n0 names0] eqn:En.
  - intro H. injection H as <- <- <-.
    split; [reflexivity|]. split; [reflexivity|]. split.
    { exists []. rewrite app_nil_r. split; [reflexivity|]. split; [reflexivity|].
      split; [constructor|]. intros f d r H. exact H. }
    split; [discriminate | now right].
  - rewrite <- En. clear En n0 names0.
    destruct (open_consoles names o _) as [[[cs o2] s2]|] eqn:Oc; [|discriminate].
    apply open_consoles_spec in Oc.
    destruct Oc as (N & (evs & E & Op & Fa & Nw) & (l & tr & Sh) & L & Hc).
    simpl in E, L. subst s2. simpl in E, L, Hc. subst tr.
    assert (Ll : l = live cs) by lia. clear L.
    assert (Base0 :
              exists evs0,
                trace s ++ evs = trace s ++ evs0
                /\ opened evs0 = map fix_name names
                /\ Forall (run_event (map fix_name names)) evs0
                /\ (forall f d r, ~ In (EvWrite f d r) evs0))
      by (exists evs; auto).
    assert (Fin : forall tail,
               opened tail = [] ->
               Forall (run_event (map fix_name names)) tail ->
               (forall f d r, ~ In (EvWrite f d r) tail) ->
               exists evs0,
                 (trace s ++ evs) ++ tail = trace s ++ evs0
                 /\ opened evs0 = map fix_name names
                 /\ Forall (run_event (map fix_name names)) evs0
                 /\ (forall f d r, ~ In (EvWrite f d r) evs0)).
    { intros tail T1 T2 T3. exists (evs ++ tail). split; [now rewrite app_assoc|].
      split; [now rewrite opened_app, Op, T1, app_nil_r|].
      split; [apply Forall_app; now split|].
      intros f d r H. apply in_app_or in H. destruct H as [H|H].
      - eapply Nw; eauto.
      - eapply T3; eauto. }
    pose proof (live_nonneg cs) as Nn.
    simpl. destruct (l =? 0) eqn:L0.
    { intro H. injection H as <- <- <-. simpl.
      split; [reflexivity|]. split; [reflexivity|]. split; [exact Base0|].
      split; [discriminate | now right]. }
    apply Z.eqb_neq in L0.
    destruct (r_findpty o2) as [[m sl]|].
    2:{ intro H. injection H as <- <- <-. simpl.
        split; [reflexivity|]. split; [reflexivity|]. split; [exact Base0|].
        split; [discriminate | now right]. }
    destruct (0 <=? r_tty0 o2); destruct (r_tioccons o2 <? 0);
      intro H; injection H as <- <- <-; simpl;
      (split; [reflexivity|]); (split; [reflexivity|]);
      rewrite <- ?app_assoc; simpl;
      (split;
       [match goal with |- context [trace s ++ evs ++ ?t] =>
          destruct (start_tail_ok (map fix_name names) t) as (T1 & T2 & T3);
          [repeat (constructor; [exact Logic.I|]); constructor|];
          destruct (Fin t T1 T2 T3) as (e0 & Q1 & Q2 & Q3 & Q4);
          exists e0; rewrite <- Q1, <- app_assoc; auto
        end|]);
      (split; [|auto]);
      try discriminate;
      intros _; (split; [exact N|]); (split; [exact Ll|]); (split; [|lia]);
      (eapply Forall_impl; [|exact Hc]); intros c Hh;
      rewrite app_assoc; now apply holds_opened_more.
Qed.


(** ** Whole runs *)

Lemma loop_event_run (names : list string) (e : event) :
  loop_event names e -> run_event names e.
Proof.
  unfold loop_event. destruct e; simpl; intuition.
Qed.

Lemma main_exit_cons (s : state) : cons (main_exit s) = cons s.
Proof.
  unfold main_exit.
  assert (G : forall cs a, cons (fold_left (fun a c => emit (EvClose (fd c)) a) cs a)
                           = cons a).
  { induction cs as [|c cs IH]; intro a; simpl; [reflexivity|]. now rewrite IH. }
  rewrite G. destruct (fp s); [destruct (didnl s =? 0)|]; reflexivity.
Qed.

Lemma opened_run_event (names : list string) (tr : list event) (p : string) :
  Forall (run_event names) tr -> In p (opened tr) -> In p names.
Proof.
  induction 1 as [|e tr He _ IH]; simpl; [tauto|].
  unfold opened in *. simpl. intro Hin. apply in_app_or in Hin.
  destruct Hin as [Hin|Hin]; [|auto].
  destruct e; simpl in Hin; try contradiction.
  destruct Hin as [<-|[]]. exact He.
Qed.

Lemma main_cases (cfg : config) (mem : Z -> Z) (clk : nat -> list Z)
    (names : list string) (fuel : nat) (o : os) (st : Z) (sf : state) :
  main cfg mem clk names fuel o = Some (st, sf) ->
  (exists o1, main_start names o (init_state cfg mem clk) = Some (o1, sf, Some st))
  \/ (st = 0 /\ exists o1 s1 o2 s2,
        main_start names o (init_state cfg mem clk) = Some (o1, s1, None)
        /\ main_loop fuel o1 s1 = Some (o2, s2)
        /\ sf = main_exit s2).
Proof.
  unfold main.
  destruct (main_start names o (init_state cfg mem clk)) as [[[o1 s1] [status|]]|];
    [| |discriminate].
  - intro H. injection H as <- <-. left. eauto.
  - destruct (main_loop fuel o1 s1) as [[o2 s2]|] eqn:L; [|discriminate].
    intro H. injection H as <- <-. right. split; [reflexivity|].
    exists o1, s1, o2, s2. auto.
Qed.

Lemma main_run (cfg : config) (mem : Z -> Z) (clk : nat -> list Z)
    (names : list string) (fuel : nat) (o : os) (st : Z) (sf : state) :
  main cfg mem clk names fuel o = Some (st, sf) ->
  didnl sf = 1
  /\ (exists rest, opened (trace sf) = map fix_name names ++ rest)
  /\ Forall (run_event (map fix_name names)) (trace sf)
  /\ writes_to_opened (trace sf)
  /\ (st = 0 \/ st = 1)
  /\ (st = 0 -> map name (cons sf) = map fix_name names).
Proof.
  intro M. apply main_cases in M.
  set (N := map fix_name names).
  assert (W0 : forall evs, (forall f d r, ~ In (EvWrite f d r) evs) ->
                           writes_to_opened evs).
  { intros evs H f d r Hin. exfalso. eapply H; eauto. }
  destruct M as [(o1 & St)|(-> & o1 & s1 & o2 & s2 & St & Lp & ->)].
  - apply main_start_spec in St.
    destruct St as (D & _ & (evs & E & Op & Fa & Nw) & _ & R).
    simpl in E, D. rewrite E.
    split; [exact D|]. split; [exists []; now rewrite app_nil_r|].
    split; [exact Fa|]. split; [now apply W0|].
    destruct R as [R|R]; [discriminate|]. injection R as ->.
    split; [now right | intro H; discriminate H].
  - apply main_start_spec in St.
    destruct St as (D & _ & (evs & E & Op & Fa & Nw) & Rn & _).
    simpl in E, D. destruct (Rn eq_refl) as (Nm & _ & Hc & _).
    set (P := fun s : state =>
                didnl s = 1 /\ map name (cons s) = N
                /\ (exists more, trace s = evs ++ more
                                 /\ Forall (run_event N) more)
                /\ Forall (holds_opened (trace s)) (cons s)
                /\ writes_to_opened (trace s)).
    assert (P1 : P s1).
    { unfold P. split; [exact D|]. split; [exact Nm|]. split.
      - exists []. rewrite app_nil_r. split; [exact E | constructor].
      - split; [exact Hc|]. rewrite E. now apply W0. }
    assert (Step : forall oa sa ob sb,
               P sa -> main_iter oa sa = Some (ob, sb) -> P sb).
    { intros oa sa ob sb (Pd & Pn & (more & Pt & Pf) & Ph & Pw) Mi.
      destruct (main_iter_spec _ _ _ _ Mi) as ((_ & Dd & _) & Nn & (ev & Ee & Ef) & _).
      destruct (main_iter_opened _ _ _ _ Mi Ph Pw) as [Qh Qw].
      unfold P. split; [congruence|]. split; [congruence|].
      split; [|split; assumption].
      exists (more ++ ev). split; [rewrite Ee, Pt; now rewrite app_assoc|].
      apply Forall_app. split; [exact Pf|].
      eapply Forall_impl; [|exact Ef]. intro e. rewrite Pn. apply loop_event_run. }
    destruct (main_loop_inv P Step fuel o1 s1 o2 s2 P1 Lp)
      as ((Pd & Pn & (more & Pt & Pf) & Ph & Pw) & _).
    destruct (main_exit_trace s2) as [Et Ed].
    rewrite Pd in Et. change (1 =? 0) with false in Et. rewrite app_nil_l in Et.
    set (tail := (if fp s2 then [EvFclose] else []) ++ closes s2) in *.
    assert (Tl : opened tail = [] /\ Forall (run_event N) tail
                 /\ forall f d r, ~ In (EvWrite f d r) tail).
    { unfold tail, closes. generalize (cons s2) as cs. intro cs.
      assert (G : opened (map (fun c => EvClose (fd c)) cs) = []
                  /\ Forall (run_event N) (map (fun c => EvClose (fd c)) cs)
                  /\ forall f d r, ~ In (EvWrite f d r)
                                       (map (fun c => EvClose (fd c)) cs)).
      { induction cs as [|c cs (I1 & I2 & I3)]; simpl.
        - split; [reflexivity|]. split; [constructor|]. intros f d r H. exact H.
        - split; [exact I1|]. split; [constructor; [exact Logic.I | exact I2]|].
          intros f d r [H|H]; [discriminate | eapply I3; eauto]. }
      destruct G as (G1 & G2 & G3).
      destruct (fp s2); simpl.
      - split; [exact G1|]. split; [repeat constructor; exact G2|].
        intros f d r [H|[H|[H|H]]]; try discriminate. eapply G3; eauto.
      - split; [exact G1|]. split; [repeat constructor; exact G2|].
        intros f d r [H|[H|H]]; try discriminate. eapply G3; eauto. }
    destruct Tl as (T1 & T2 & T3).
    split; [congruence|]. split; [|split; [|split; [|split]]].
    + exists (opened more). rewrite Et, Pt, !opened_app, T1, app_nil_r.
      now rewrite Op.
    + rewrite Et, Pt. apply Forall_app. split; [|exact T2].
      apply Forall_app. now split.
    + rewrite Et. now apply wto_more.
    + now left.
    + intros _. now rewrite main_exit_cons.
Qed.

(** C7. In every run of [main], [didnl] still has its initial value 1 at
    the end and no [fputc] is ever made, whatever the bytes read were: no
    turn of the loop and no call of [writelog] changes [didnl], and what
    follows the loop writes the newline exactly when the log file is open
    and [didnl] is 0. *)
Theorem trailing_newline_never_written (cfg : config) (mem : Z -> Z)
    (clk : nat -> list Z) (names : list string) (fuel : nat) (o : os)
    (st : Z) (sf : state) :
  main cfg mem clk names fuel o = Some (st, sf) ->
  didnl sf = 1
  /\ (forall c, ~ In (EvFputc c) (trace sf))
  /\ (forall o0 s o1 s1, main_iter o0 s = Some (o1, s1) -> didnl s1 = didnl s)
  /\ (forall ptr len s, didnl (writelog ptr len s) = didnl s)
  /\ (forall s,
         trace (main_exit s) =
           trace s
           ++ (if fp s
               then (if didnl s =? 0 then [EvFputc NL] else []) ++ [EvFclose]
               else [])
           ++ closes s).
Proof.
  intro M. destruct (main_run _ _ _ _ _ _ _ _ M) as (D & _ & Fa & _).
  split; [exact D|]. split; [|split; [|split]].
  - intros c Hin. rewrite Forall_forall in Fa. exact (Fa _ Hin).
  - intros o0 s o1 s1 Mi.
    now destruct (main_iter_spec _ _ _ _ Mi) as ((_ & Dd & _) & _).
  - intros ptr len s.
    destruct (writelog_shape ptr len s) as (op & fr & ie & tk & tr & E & _).
    now rewrite E.
  - intro s. apply main_exit_trace.
Qed.

(** C10. In every run of [main]: the names "/dev/tty0" and "/dev/vc/0"
    become "/dev/tty1" and "/dev/vc/1"; start-up calls [open_nb] on the
    replaced names of the consoles found, in order; every path ever given
    to [open_nb] is one of them and is neither "/dev/tty0" nor "/dev/vc/0";
    every [write] goes to a descriptor that [open_nb] returned for such a
    path; and the console table holds the replaced names. *)
Theorem tty0_replaced_by_tty1 (cfg : config) (mem : Z -> Z)
    (clk : nat -> list Z) (names : list string) (fuel : nat) (o : os)
    (st : Z) (sf : state) :
  main cfg mem clk names fuel o = Some (st, sf) ->
  fix_name "/dev/tty0" = "/dev/tty1"%string
  /\ fix_name "/dev/vc/0" = "/dev/vc/1"%string
  /\ (exists rest, opened (trace sf) = map fix_name names ++ rest)
  /\ (forall p,
         In p (opened (trace sf)) ->
         In p (map fix_name names)
         /\ p <> "/dev/tty0"%string /\ p <> "/dev/vc/0"%string)
  /\ (forall f d r,
         In (EvWrite f d r) (trace sf) ->
         exists p,
           In (EvOpenNb p f) (trace sf)
           /\ p <> "/dev/tty0"%string /\ p <> "/dev/vc/0"%string)
  /\ (st = 0 -> map name (cons sf) = map fix_name names).
Proof.
  intro M. destruct (main_run _ _ _ _ _ _ _ _ M) as (_ & Op & Fa & W & _ & Nm).
  assert (Fx : forall p, In p (map fix_name names) ->
                         p <> "/dev/tty0"%string /\ p <> "/dev/vc/0"%string).
  { intros p Hin. apply in_map_iff in Hin. destruct Hin as (n & <- & _).
    apply fix_name_fixed. }
  split; [reflexivity|]. split; [reflexivity|]. split; [exact Op|].
  split; [|split; [|exact Nm]].
  - intros p Hin. pose proof (opened_run_event _ _ _ Fa Hin) as Hn. auto.
  - intros f d r Hin. destruct (W _ _ _ Hin) as [p Hp]. exists p.
    split; [exact Hp|]. apply Fx.
    rewrite Forall_forall in Fa. exact (Fa _ Hp).
Qed.

Lemma trailing_newline_never_written_witness :
  exists sf,
    main default_config (fun _ => 0) (fun _ => ctime_epoch) ["/dev/tty0"%string]
      2 demo_os = Some (0, sf)
    /\ file_bytes (trace sf) = stamp_text ctime_epoch ++ [65]
    /\ forall c, ~ In (EvFputc c) (trace sf).
Proof.
  eexists. split; [vm_compute; reflexivity|]. split; [vm_compute; reflexivity|].
  eapply (trailing_newline_never_written default_config (fun _ => 0)
            (fun _ => ctime_epoch) ["/dev/tty0"%string] 2 demo_os).
  vm_compute. reflexivity.
Defined.

Lemma tty0_replaced_by_tty1_witness :
  exists sf,
    main default_config (fun _ => 0) (fun _ => ctime_epoch) ["/dev/tty0"%string]
      2 demo_os = Some (0, sf)
    /\ opened (trace sf) = ["/dev/tty1"%string]
    /\ map name (cons sf) = ["/dev/tty1"%string]
    /\ forall p, In p (opened (trace sf)) -> p <> "/dev/tty0"%string.
Proof.
  eexists. split; [vm_compute; reflexivity|]. split; [vm_compute; reflexivity|].
  split; [vm_compute; reflexivity|].
  intros p Hin.
  eapply (tty0_replaced_by_tty1 default_config (fun _ => 0)
            (fun _ => ctime_epoch) ["/dev/tty0"%string] 2 demo_os);
    [vm_compute; reflexivity | exact Hin].
Defined.

Lemma all_consoles_lost_shutdown_witness :
  exists o1 s1,
    main_iter lost_os one_console = Some (o1, s1)
    /\ got_signal s1 = 1
    /\ main_loop 1 lost_os one_console = Some (o1, s1).
Proof.
  do 2 eexists. split; [vm_compute; reflexivity|].
  destruct (all_consoles_lost_shutdown lost_os _ one_console _ 1 []
              ltac:(vm_compute; reflexivity)) as (A & B & _).
  - reflexivity.
  - reflexivity.
  - vm_compute. reflexivity.
  - vm_compute. discriminate.
  - split; [exact A | apply B].
Defined.

(** ** The capture buffer *)

Lemma ring_advance_fields (n : Z) (s : state) :
  inptr (ring_advance n s) =
    (if endptr s <=? inptr s + n then 0 else inptr s + n)
  /\ outptr (ring_advance n s) =
       (let op := if (inptr s <? outptr s) && (outptr s <? inptr s + n)
                  then inptr s + n else outptr s in
        if endptr s <=? op then 0 else op)
  /\ buf (ring_advance n s) = buf s
  /\ endptr (ring_advance n s) = endptr s.
Proof.
  unfold ring_advance. simpl. rewrite Z.add_simpl_r.
  destruct ((inptr s <? outptr s) && (outptr s <? inptr s + n)); simpl;
    destruct (endptr s <=? inptr s + n) eqn:E1; simpl; rewrite ?E1; simpl;
    try (destruct (endptr s <=? outptr s) eqn:E2; simpl; rewrite ?E2; simpl);
    repeat split; reflexivity.
Qed.

Lemma capture_fields (d : list Z) (s : state) :
  let n := Z.of_nat (List.length d) in
  inptr (capture d s) = (if endptr s <=? inptr s + n then 0 else inptr s + n)
  /\ outptr (capture d s) =
       (let op := if (inptr s <? outptr s) && (outptr s <? inptr s + n)
                  then inptr s + n else outptr s in
        if endptr s <=? op then 0 else op)
  /\ buf (capture d s) = buf (store d s)
  /\ endptr (capture d s) = endptr s.
Proof. apply (ring_advance_fields (Z.of_nat (List.length d)) (store d s)). Qed.

Lemma store_below (d : list Z) (s : state) (n : nat) :
  Z.of_nat n <= inptr s ->
  span_from (buf (store d s)) 0 n = span_from (buf s) 0 n.
Proof.
  intro H. apply span_from_ext. intros a Ha. unfold store. simpl.
  settle (inptr s <=? a).
  reflexivity.
Qed.

(** The write pointer moves on, or wraps to the start when it reaches
    [endptr]; a read pointer at the start stays there. *)
Lemma captures_from_start (chunks : list (list Z)) :
  forall s pre lost,
    outptr s = 0 -> 0 <= inptr s < endptr s ->
    pre = lost ++ span_from (buf s) 0 (Z.to_nat (inptr s)) ->
    Z.of_nat (List.length lost) mod endptr s = 0 ->
    bounded_reads chunks s ->
    outptr (captures chunks s) = 0
    /\ 0 <= inptr (captures chunks s) < endptr s
    /\ endptr (captures chunks s) = endptr s
    /\ exists lost1,
         pre ++ List.concat chunks =
           lost1 ++ span_from (buf (captures chunks s)) 0
                      (Z.to_nat (inptr (captures chunks s)))
         /\ Z.of_nat (List.length lost1) mod endptr s = 0.
Proof.
  induction chunks as [|d chunks IH]; intros s pre lost Ho Hi Hp Hl Hb;
    [simpl | change (captures (d :: chunks) s) with (captures chunks (capture d s));
             cbn [List.concat]].
  - split; [exact Ho|]. split; [exact Hi|]. split; [reflexivity|].
    exists lost. rewrite app_nil_r. auto.
  - destruct Hb as [Hd Hb].
    destruct (capture_fields d s) as (Fi & Fo & Fb & Fe). simpl in Fi, Fo.
    set (n := Z.of_nat (List.length d)) in *.
    assert (Fo' : outptr (capture d s) = 0).
    { rewrite Fo, Ho.
      settle (inptr s <? 0).
      simpl. settle (endptr s <=? 0). reflexivity. }
    assert (Sp : span_from (buf (store d s)) 0 (Z.to_nat (inptr s + n)) =
                 span_from (buf s) 0 (Z.to_nat (inptr s)) ++ d).
    { replace (Z.to_nat (inptr s + n))
        with (Z.to_nat (inptr s) + List.length d)%nat by lia.
      rewrite span_from_app, store_below by lia. f_equal.
      replace (0 + Z.of_nat (Z.to_nat (inptr s))) with (inptr s) by lia.
      apply span_store. }
    destruct (endptr s <=? inptr s + n) eqn:Wr.
    + (* the write pointer wraps *)
      apply Z.leb_le in Wr. assert (En : inptr s + n = endptr s) by lia.
      specialize (IH (capture d s) (pre ++ d) (pre ++ d)).
      rewrite Fe in IH. rewrite (app_assoc pre d).
      apply IH; auto.
      * rewrite Fi. lia.
      * rewrite Fi. simpl. now rewrite app_nil_r.
      * rewrite Hp, !length_app, span_from_length, !Nat2Z.inj_add.
        rewrite Z2Nat.id by lia. rewrite <- Z.add_assoc.
        fold n. rewrite En.
        rewrite Z.add_mod, Hl, Z.mod_same by lia. reflexivity.
    + apply Z.leb_gt in Wr.
      specialize (IH (capture d s) (pre ++ d) lost).
      rewrite Fe in IH. rewrite (app_assoc pre d).
      apply IH; auto.
      * rewrite Fi. lia.
      * rewrite Fi, Fb, Sp, Hp. now rewrite app_assoc.
Qed.

(** While no log file is open, a turn of the main loop does to the buffer
    what [capture] does, or nothing. *)
Lemma main_iter_without_log (o o1 : os) (s s1 : state) :
  main_iter o s = Some (o1, s1) ->
  fp s1 = false ->
  (buf s1 = buf s /\ inptr s1 = inptr s /\ outptr s1 = outptr s)
  \/ exists d,
       Z.of_nat (List.length d) <= endptr s - inptr s
       /\ buf s1 = buf (capture d s)
       /\ inptr s1 = inptr (capture d s)
       /\ outptr s1 = outptr (capture d s).
Proof.
  intros M F.
  destruct (main_iter_cases _ _ _ _ M)
    as (r & sig & rest & g & ob & sb & sc & _ & _ & Cap & L & E1).
  destruct (open_logfile_shape _ _ _ _ L) as (f & trc & Ec & _).
  assert (Es : s1 = sc).
  { destruct (fp sc && negb (todo sc =? 0)) eqn:B; [|exact E1].
    exfalso. apply andb_prop in B. destruct B as [B _].
    destruct (writelog_shape (outptr sc) (todo sc) sc)
      as (op2 & fr & ie & tk & tr2 & E & _).
    rewrite E1, E in F. simpl in F. congruence. }
  rewrite Es, Ec. clear Es E1 F M L Ec. simpl.
  destruct Cap as [->|(data & o2 & cs & s2 & Bd & Fo & ->)]; [left; auto|].
  right. exists data. split; [exact Bd|].
  destruct (fanout_spec _ _ _ _ _ _ _ _ Fo) as (_ & _ & _ & _ & _ & _ & _ & Sh).
  destruct Sh as (g1 & l & tr & ->).
  destruct (ring_advance_fields (Z.of_nat (List.length data))
              (set_cons cs (set_trace tr (set_consoles_left l
                 (set_got_signal g1 (store data (set_got_signal g s)))))))
    as (A1 & A2 & A3 & _).
  destruct (capture_fields data s) as (B1 & B2 & B3 & _).
  rewrite A1, A2, A3, B1, B2, B3. simpl. auto.
Qed.

(** C2, as the code has it.  From an empty buffer with both pointers at
    the start of the arena, after captures of [T] bytes in all, none larger
    than the room up to [endptr] and no drain in between: the read pointer
    is still at the start, the write pointer is at [T mod endptr], and a
    drain hands over exactly the last [T mod endptr] bytes captured (for
    [T = endptr + K] with [0 < K < endptr], the last [K] bytes; what came
    before the wrap is lost).  A capture that carries the write pointer
    from below the read pointer to beyond it sets the read pointer to the
    write pointer, and then nothing is left to drain; any other capture
    leaves the read pointer where it is.  While no log file is open a turn
    of the main loop does to the buffer what [capture] does, or nothing. *)
Theorem overwrite_keeps_latest (chunks : list (list Z)) (s : state) :
  inptr s = 0 -> outptr s = 0 -> 0 < endptr s ->
  bounded_reads chunks s ->
  let s1 := captures chunks s in
  let T := Z.of_nat (List.length (List.concat chunks)) in
  outptr s1 = 0
  /\ inptr s1 = T mod endptr s
  /\ todo s1 = T mod endptr s
  /\ (exists lost, List.concat chunks = lost ++ unread s1)
  /\ Z.of_nat (List.length (unread s1)) = T mod endptr s
  /\ (forall n s0,
         inptr s0 < outptr s0 -> outptr s0 < inptr s0 + n ->
         outptr (ring_advance n s0) = inptr (ring_advance n s0)
         /\ todo (ring_advance n s0) = 0)
  /\ (forall n s0,
         ~ (inptr s0 < outptr s0 < inptr s0 + n) -> outptr s0 < endptr s0 ->
         outptr (ring_advance n s0) = outptr s0)
  /\ (forall o o1 s0 s2,
         main_iter o s0 = Some (o1, s2) -> fp s2 = false ->
         (buf s2 = buf s0 /\ inptr s2 = inptr s0 /\ outptr s2 = outptr s0)
         \/ exists d,
              Z.of_nat (List.length d) <= endptr s0 - inptr s0
              /\ buf s2 = buf (capture d s0)
              /\ inptr s2 = inptr (capture d s0)
              /\ outptr s2 = outptr (capture d s0)).
Proof.
  intros Hi Ho He Hb.
  destruct (captures_from_start chunks s [] []) as (A & B & C & lost & D & E);
    auto; try lia.
  { rewrite Hi. reflexivity. }
  simpl in D. cbv zeta.
  set (s1 := captures chunks s) in *.
  assert (Hu : unread s1 = span_from (buf s1) 0 (Z.to_nat (inptr s1))).
  { unfold unread, todo, span. rewrite A.
    settle (0 <=? inptr s1).
    now rewrite Z.sub_0_r. }
  assert (Hm : Z.of_nat (List.length (List.concat chunks)) mod endptr s = inptr s1).
  { rewrite D, length_app, span_from_length, Nat2Z.inj_add.
    rewrite Z2Nat.id by lia.
    rewrite Z.add_mod, E by lia. simpl.
    rewrite Z.mod_mod by lia. apply Z.mod_small. lia. }
  split; [exact A|]. split; [now rewrite Hm|]. split.
  { unfold todo. rewrite A.
    settle (0 <=? inptr s1).
    rewrite Hm. lia. }
  split; [exists lost; now rewrite Hu|]. split.
  { rewrite Hu, span_from_length, Hm. lia. }
  split; [|split; [|exact main_iter_without_log]].
  2:{ intros n s0 H1 H2.
      destruct (ring_advance_fields n s0) as (_ & Fo & _ & _).
      simpl in Fo. rewrite Fo.
      destruct ((inptr s0 <? outptr s0) && (outptr s0 <? inptr s0 + n)) eqn:Cr.
      - apply andb_prop in Cr. destruct Cr as [B1 B2].
        apply Z.ltb_lt in B1. apply Z.ltb_lt in B2. lia.
      - settle (endptr s0 <=? outptr s0). reflexivity. }
  intros n s0 H1 H2.
  destruct (ring_advance_fields n s0) as (Fi & Fo & _ & _).
  simpl in Fo.
  settle (inptr s0 <? outptr s0) in Fo.
  settle (outptr s0 <? inptr s0 + n) in Fo.
  simpl in Fo. split; [now rewrite Fi, Fo|].
  unfold todo. rewrite Fi, Fo. rewrite Z.leb_refl. lia.
Qed.

(** The arena holds [RINGBUF_SIZE] bytes; after one byte more than that,
    read in pieces of 4096, a drain hands over that one byte only and the
    read pointer is not at the write pointer. *)
Lemma one_byte_left_of_flood :
  fold_right (fun d t => Z.of_nat (List.length d) + t) 0 flood = RINGBUF_SIZE + 1
  /\ bounded_reads flood idle_state
  /\ inptr (captures flood idle_state) = 1
  /\ outptr (captures flood idle_state) = 0
  /\ outptr (captures flood idle_state) <> inptr (captures flood idle_state)
  /\ unread (captures flood idle_state) = [66]
  /\ Z.of_nat (List.length (unread (captures flood idle_state))) <> RINGBUF_SIZE.
Proof.
  split; [vm_compute; reflexivity|].
  split; [vm_compute; repeat split; discriminate|].
  split; [vm_compute; reflexivity|].
  split; [vm_compute; reflexivity|].
  split; [vm_compute; discriminate|].
  split; [vm_compute; reflexivity|].
  vm_compute. discriminate.
Qed.

Lemma overwrite_keeps_latest_witness :
  unread (captures [[1; 2; 3]; [4]; [5; 6]] tiny_ring) = [5; 6]
  /\ outptr (captures [[1; 2; 3]; [4]; [5; 6]] tiny_ring) = 0
  /\ inptr (captures [[1; 2; 3]; [4]; [5; 6]] tiny_ring) = 2.
Proof.
  destruct (overwrite_keeps_latest [[1; 2; 3]; [4]; [5; 6]] tiny_ring)
    as (A & B & _).
  - reflexivity.
  - reflexivity.
  - simpl. lia.
  - vm_compute. repeat split; discriminate.
  - split; [vm_compute; reflexivity|]. split; [exact A | exact B].
Defined.

(** ** Pointers of the capture buffer *)

Lemma writelog_ring (ptr len : Z) (s : state) :
  outptr (writelog ptr len s) =
    (if endptr s <=? outptr s + len then 0 else outptr s + len)
  /\ inptr (writelog ptr len s) = inptr s
  /\ endptr (writelog ptr len s) = endptr s
  /\ fp (writelog ptr len s) = fp s.
Proof.
  unfold writelog.
  destruct (writelog_loop_shape (Z.to_nat len) ptr false s)
    as (fr & ie & tk & tr & E & _).
  destruct (writelog_loop (Z.to_nat len) ptr (false, s)) as [d s1].
  simpl in E. subst s1.
  destruct d; simpl;
    [destruct (syncalot s =? 0); simpl|];
    destruct (endptr s <=? outptr s + len); simpl; auto.
Qed.

Lemma todo_bounds (s : state) :
  ring_ok s -> 0 <= todo s <= endptr s - outptr s.
Proof.
  intros [Hi Ho]. unfold todo.
  destruct (outptr s <=? inptr s) eqn:E.
  - apply Z.leb_le in E. lia.
  - lia.
Qed.

Lemma drain_ring (s : state) :
  ring_ok s ->
  ring_ok (drain s)
  /\ outptr (drain s) = (if outptr s <=? inptr s then inptr s else 0)
  /\ inptr (drain s) = inptr s /\ endptr (drain s) = endptr s.
Proof.
  intros R. pose proof (todo_bounds s R) as Tb. destruct R as [Hi Ho].
  unfold drain, ring_ok.
  destruct (writelog_ring (outptr s) (todo s) s) as (A & B & C & _).
  rewrite A, B, C. unfold todo in *.
  destruct (outptr s <=? inptr s) eqn:E.
  - apply Z.leb_le in E. settle (endptr s <=? outptr s + (inptr s - outptr s)).
    repeat split; lia.
  - settle (endptr s <=? outptr s + (endptr s - outptr s)).
    repeat split; lia.
Qed.

Lemma capture_ring (d : list Z) (s : state) :
  ring_ok s -> Z.of_nat (List.length d) <= endptr s - inptr s ->
  ring_ok (capture d s).
Proof.
  intros [Hi Ho] Hd. unfold ring_ok.
  destruct (capture_fields d s) as (A & B & _ & C). simpl in A, B.
  rewrite A, B, C.
  destruct (endptr s <=? inptr s + Z.of_nat (List.length d)) eqn:E1;
    destruct ((inptr s <? outptr s)
              && (outptr s <? inptr s + Z.of_nat (List.length d))); simpl;
    rewrite ?E1;
    try (destruct (endptr s <=? outptr s) eqn:E2);
    try apply Z.leb_le in E1; try apply Z.leb_gt in E1;
    try apply Z.leb_le in E2; try apply Z.leb_gt in E2; lia.
Qed.

Lemma main_iter_ring (o o1 : os) (s s1 : state) :
  main_iter o s = Some (o1, s1) -> ring_ok s -> ring_ok s1.
Proof.
  intros M R.
  destruct (main_iter_cases _ _ _ _ M)
    as (r & sig & rest & g & ob & sb & sc & _ & _ & Cap & L & ->).
  assert (Rb : ring_ok sb).
  { destruct Cap as [->|(data & o2 & cs & s2 & Bd & Fo & ->)]; [exact R|].
    destruct (fanout_spec _ _ _ _ _ _ _ _ Fo) as (_ & _ & _ & _ & _ & _ & _ & Sh).
    destruct Sh as (g1 & l & tr & ->).
    pose proof (capture_ring data s R Bd) as Rc. unfold ring_ok in *.
    destruct (ring_advance_fields (Z.of_nat (List.length data))
                (set_cons cs (set_trace tr (set_consoles_left l
                   (set_got_signal g1 (store data (set_got_signal g s)))))))
      as (A1 & A2 & _ & A3).
    destruct (capture_fields data s) as (B1 & B2 & _ & B3).
    rewrite A1, A2, A3. rewrite B1, B2, B3 in Rc. exact Rc. }
  destruct (open_logfile_shape _ _ _ _ L) as (f & trc & Ec & _).
  assert (Rc : ring_ok sc) by (rewrite Ec; exact Rb).
  destruct (fp sc && negb (todo sc =? 0)); [|exact Rc].
  apply (drain_ring sc Rc).
Qed.

(** X1. Through any number of turns of the main loop [inptr] and [outptr]
    stay inside the arena: from pointers in [0, endptr) the loop ends with
    pointers in [0, endptr), so the next [read] is asked for at least one
    byte and the span handed to [writelog] ends at or before [endptr]. *)
Theorem ring_pointers_stay_inside (fuel : nat) (o o1 : os) (s s1 : state) :
  main_loop fuel o s = Some (o1, s1) ->
  ring_ok s ->
  ring_ok s1
  /\ 0 < endptr s1 - inptr s1
  /\ 0 <= todo s1 <= endptr s1 - outptr s1.
Proof.
  intros L R.
  destruct (main_loop_inv ring_ok) with (1 := fun oa sa ob sb Ra Mi =>
    main_iter_ring oa ob sa sb Mi Ra) (2 := R) (3 := L) as [R1 _].
  split; [exact R1|]. split; [destruct R1; lia|].
  now apply todo_bounds.
Qed.

Lemma ring_pointers_stay_inside_witness :
  exists o1 s1,
    main_loop 1 lost_os one_console = Some (o1, s1)
    /\ ring_ok s1 /\ 0 < endptr s1 - inptr s1
    /\ 0 <= todo s1 <= endptr s1 - outptr s1.
Proof.
  do 2 eexists. split; [vm_compute; reflexivity|].
  eapply (ring_pointers_stay_inside 1 lost_os _ one_console _).
  - vm_compute. reflexivity.
  - unfold ring_ok. simpl. unfold RINGBUF_SIZE. lia.
Defined.

Lemma span_app (s : state) (p a b : Z) :
  0 <= a -> 0 <= b -> span s p (a + b) = span s p a ++ span s (p + a) b.
Proof.
  intros Ha Hb. unfold span.
  replace (Z.to_nat (a + b)) with (Z.to_nat a + Z.to_nat b)%nat by lia.
  rewrite span_from_app. now rewrite Z2Nat.id by lia.
Qed.

Lemma span_same_buf (s1 s2 : state) (p n : Z) :
  buf s1 = buf s2 -> span s1 p n = span s2 p n.
Proof. unfold span. now intros ->. Qed.

Lemma span_store_outside (d : list Z) (s : state) (p n : Z) :
  p + n <= inptr s \/ inptr s + Z.of_nat (List.length d) <= p ->
  span (store d s) p n = span s p n.
Proof.
  intro H. unfold span. apply span_from_ext. intros a Ha.
  unfold store. simpl.
  destruct (inptr s <=? a) eqn:E1; [|reflexivity].
  destruct (a <? inptr s + Z.of_nat (List.length d)) eqn:E2; [|reflexivity].
  apply Z.leb_le in E1. apply Z.ltb_lt in E2. lia.
Qed.

Lemma span_store_inside (d : list Z) (s : state) :
  span (store d s) (inptr s) (Z.of_nat (List.length d)) = d.
Proof. unfold span. rewrite Nat2Z.id. apply span_store. Qed.

Lemma span_capture (d : list Z) (s : state) (p n : Z) :
  span (capture d s) p n = span (store d s) p n.
Proof.
  apply span_same_buf. now destruct (capture_fields d s) as (_ & _ & B & _).
Qed.

Lemma span_nil (s : state) (p n : Z) : n <= 0 -> span s p n = [].
Proof. intro H. unfold span. now replace (Z.to_nat n) with O by lia. Qed.

Lemma span_drain (s : state) (p n : Z) : span (drain s) p n = span s p n.
Proof. apply span_same_buf. apply writelog_buf. Qed.

(** X2. What is buffered leaves in at most two drains: the bytes between
    [outptr] and [inptr] (around the end of the arena when they wrap) are
    the span handed to [writelog] now followed by the span handed over at
    the next drain, and after these two drains [outptr] has reached
    [inptr]. *)
Theorem two_drains_empty_buffer (s : state) :
  ring_ok s ->
  buffered s = unread s ++ unread (drain s)
  /\ outptr (drain (drain s)) = inptr s
  /\ todo (drain (drain s)) = 0
  /\ buffered (drain (drain s)) = [].
Proof.
  intro R.
  destruct (drain_ring s R) as (R1 & O1 & I1 & E1).
  destruct (drain_ring (drain s) R1) as (R2 & O2 & I2 & E2).
  rewrite O1, I1 in O2.
  assert (O2' : outptr (drain (drain s)) = inptr s).
  { rewrite O2. destruct R as [Hi Ho].
    destruct (outptr s <=? inptr s); [now rewrite Z.leb_refl|].
    now settle (0 <=? inptr s). }
  split; [|split; [exact O2'|split]].
  - unfold buffered, unread. rewrite span_drain.
    unfold todo at 1 2. rewrite O1, I1, E1. destruct R as [Hi Ho].
    destruct (outptr s <=? inptr s) eqn:E.
    + rewrite Z.leb_refl, Z.sub_diag, (span_nil s _ 0), app_nil_r by lia.
      reflexivity.
    + settle (0 <=? inptr s). now rewrite Z.sub_0_r.
  - unfold todo. rewrite O2', I2, I1, Z.leb_refl. lia.
  - unfold buffered. rewrite O2', I2, I1, Z.leb_refl, Z.sub_diag.
    apply span_nil. lia.
Qed.

Lemma two_drains_empty_buffer_witness :
  buffered wrapped_ring = [30; 40; 10]
  /\ buffered wrapped_ring = unread wrapped_ring ++ unread (drain wrapped_ring)
  /\ todo (drain (drain wrapped_ring)) = 0.
Proof.
  destruct (two_drains_empty_buffer wrapped_ring) as (A & _ & C & _).
  - unfold ring_ok. simpl. lia.
  - split; [vm_compute; reflexivity|]. split; [exact A | exact C].
Defined.

(** X3. A [read] that fits into the free room of the arena adds its bytes
    at the end of what is buffered and loses nothing. *)
Theorem capture_appends (d : list Z) (s : state) :
  ring_ok s ->
  Z.of_nat (List.length d) <= endptr s - inptr s ->
  Z.of_nat (List.length d) <= room s ->
  buffered (capture d s) = buffered s ++ d.
Proof.
  intros [Hi Ho] Hb Hr.
  destruct (capture_fields d s) as (A & B & _ & C). simpl in A, B.
  set (n := Z.of_nat (List.length d)) in *.
  assert (Hn : 0 <= n) by (unfold n; lia).
  unfold buffered, room in *. rewrite A, B, C, !span_capture.
  destruct (outptr s <=? inptr s) eqn:E.
  - apply Z.leb_le in E.
    settle (inptr s <? outptr s). cbn [andb].
    settle (endptr s <=? outptr s).
    destruct (endptr s <=? inptr s + n) eqn:W.
    + apply Z.leb_le in W. assert (En : inptr s + n = endptr s) by lia.
      assert (Op : 0 < outptr s) by lia.
      settle (outptr s <=? 0).
      rewrite (span_nil _ 0 0), app_nil_r by lia.
      replace (endptr s - outptr s) with ((inptr s - outptr s) + n) by lia.
      rewrite span_app by lia.
      replace (outptr s + (inptr s - outptr s)) with (inptr s) by lia.
      rewrite span_store_outside by lia.
      unfold n. now rewrite span_store_inside.
    + apply Z.leb_gt in W. settle (outptr s <=? inptr s + n).
      replace (inptr s + n - outptr s) with ((inptr s - outptr s) + n) by lia.
      rewrite span_app by lia.
      replace (outptr s + (inptr s - outptr s)) with (inptr s) by lia.
      rewrite span_store_outside by lia.
      unfold n. now rewrite span_store_inside.
  - apply Z.leb_gt in E.
    settle (inptr s <? outptr s). settle (outptr s <? inptr s + n). cbn [andb].
    settle (endptr s <=? outptr s). settle (endptr s <=? inptr s + n).
    settle (outptr s <=? inptr s + n).
    rewrite span_store_outside by lia. rewrite <- app_assoc. f_equal.
    rewrite span_app by lia. rewrite span_store_outside by lia.
    replace (0 + inptr s) with (inptr s) by lia.
    unfold n. now rewrite span_store_inside.
Qed.

Lemma capture_appends_witness :
  buffered (capture [1; 2] tiny_ring) = buffered tiny_ring ++ [1; 2].
Proof.
  apply (capture_appends [1; 2] tiny_ring).
  - unfold ring_ok. simpl. lia.
  - simpl. lia.
  - vm_compute. discriminate.
Defined.

(** X4. A [read] of more bytes than the free room makes [inptr] pass or
    reach [outptr]; the pointers are then equal, which the drain reads as
    an empty buffer: everything buffered, the new bytes included, is
    dropped. *)
Theorem capture_overflow_drops_all (d : list Z) (s : state) :
  ring_ok s ->
  Z.of_nat (List.length d) <= endptr s - inptr s ->
  room s < Z.of_nat (List.length d) ->
  buffered (capture d s) = []
  /\ todo (capture d s) = 0
  /\ outptr (capture d s) = inptr (capture d s).
Proof.
  intros [Hi Ho] Hb Hr.
  destruct (capture_fields d s) as (A & B & _ & C). simpl in A, B.
  set (n := Z.of_nat (List.length d)) in *.
  assert (Eq : outptr (capture d s) = inptr (capture d s)).
  { rewrite A, B. unfold room in Hr.
    destruct (outptr s <=? inptr s) eqn:E.
    - apply Z.leb_le in E. settle (inptr s <? outptr s). cbn [andb].
      settle (endptr s <=? outptr s). settle (endptr s <=? inptr s + n). lia.
    - apply Z.leb_gt in E. settle (inptr s <? outptr s). cbn [andb].
      destruct (outptr s <? inptr s + n) eqn:Cr.
      + reflexivity.
      + apply Z.ltb_ge in Cr. settle (endptr s <=? outptr s).
        settle (endptr s <=? inptr s + n). lia. }
  split; [|split; [|exact Eq]].
  - unfold buffered. rewrite Eq, Z.leb_refl, Z.sub_diag. apply span_nil. lia.
  - unfold todo. rewrite Eq, Z.leb_refl. lia.
Qed.

Lemma capture_overflow_drops_all_witness :
  buffered wrapped_ring = [30; 40; 10]
  /\ buffered (capture [7] wrapped_ring) = []
  /\ todo (capture [7] wrapped_ring) = 0
  /\ outptr (capture [7] wrapped_ring) = inptr (capture [7] wrapped_ring).
Proof.
  split; [vm_compute; reflexivity|].
  apply (capture_overflow_drops_all [7] wrapped_ring).
  - unfold ring_ok. simpl. lia.
  - simpl. lia.
  - vm_compute. reflexivity.
Defined.

(** ** What the filter lets through *)

Lemma esc_run_subseq (l : list Z) :
  forall ie, subseq (fst (esc_run ie l)) l.
Proof.
  induction l as [|c l IH]; intro ie; [constructor|].
  rewrite esc_run_cons. cbn [fst].
  destruct (fst (esc_filter ie c)); constructor; apply IH.
Qed.

Lemma esc_filter_state (ie c : Z) :
  esc_state ie -> esc_state (snd (esc_filter ie c)).
Proof.
  unfold esc_state, esc_filter. intros [-> | [-> | ->]]; simpl;
    repeat match goal with |- context [if ?b then _ else _] => destruct b end;
    simpl; auto.
Qed.

Lemma esc_run_state (l : list Z) :
  forall ie, esc_state ie -> esc_state (snd (esc_run ie l)).
Proof.
  induction l as [|c l IH]; intros ie H; [exact H|].
  rewrite esc_run_cons. cbn [snd]. apply IH. now apply esc_filter_state.
Qed.

(** X5. The escape filter only drops bytes: what one call of [writelog]
    passes to [fwrite] is a subsequence of the span it was given, nothing
    is added, changed or reordered, and the filter state stays one of 0, 1
    and 2. *)
Theorem filter_only_drops (ptr len : Z) (s : state) :
  exists out,
    fwritten (trace (writelog ptr len s)) = fwritten (trace s) ++ out
    /\ subseq out (span s ptr len)
    /\ (esc_state (inside_esc s) -> esc_state (inside_esc (writelog ptr len s))).
Proof.
  destruct (writelog_filter ptr len s) as [A B].
  exists (fst (esc_run (inside_esc s) (span s ptr len))).
  split; [exact B|]. split; [apply esc_run_subseq|].
  intro H. rewrite A. now apply esc_run_state.
Qed.

Lemma esc_filter_stray (c : Z) :
  ~ csi_param c -> ~ csi_final c -> esc_filter 2 c = (false, 2).
Proof.
  unfold csi_param, csi_final. intros Hp Hf. unfold esc_filter. simpl.
  destruct ((48 <=? c) && (c <=? 57)) eqn:E1.
  { apply andb_prop in E1. destruct E1 as [A B].
    apply Z.leb_le in A. apply Z.leb_le in B. exfalso. apply Hp. lia. }
  destruct (c =? 59) eqn:E2.
  { apply Z.eqb_eq in E2. exfalso. apply Hp. lia. }
  destruct ((32 <=? c) && (c <=? 47)) eqn:E3.
  { apply andb_prop in E3. destruct E3 as [A B].
    apply Z.leb_le in A. apply Z.leb_le in B. exfalso. apply Hp. lia. }
  simpl.
  destruct ((64 <=? c) && (c <=? 126)) eqn:E4; [|reflexivity].
  apply andb_prop in E4. destruct E4 as [A B].
  apply Z.leb_le in A. apply Z.leb_le in B. exfalso. apply Hf. lia.
Qed.

Lemma esc_run_stray (pre post : list Z) (c fin : Z) :
  Forall csi_param pre -> Forall csi_param post ->
  ~ csi_param c -> ~ csi_final c -> csi_final fin ->
  esc_run 0 (ESC :: LBRACKET :: pre ++ c :: post ++ [fin]) = ([c], 0).
Proof.
  intros Hpre Hpost Hp Hf Hfin.
  rewrite esc_run_cons, esc_filter_esc. cbn [fst snd].
  rewrite esc_run_cons, esc_filter_bracket. cbn [fst snd].
  rewrite (esc_run_params pre Hpre).
  rewrite esc_run_cons, (esc_filter_stray c Hp Hf). cbn [fst snd].
  rewrite (esc_run_params post Hpost).
  rewrite esc_run_cons, (esc_filter_final fin Hfin). reflexivity.
Qed.

(** X6. A byte inside a control sequence that is neither a parameter
    byte ('0'..'9', ';', 32..47) nor a final byte (64..126), such as the
    '?' of ESC [ ? 2 5 l, is written to the log although the rest of the
    sequence is removed. *)
Theorem stray_byte_in_sequence_is_logged
    (ptr len : Z) (s : state) (pre post : list Z) (c fin : Z) :
  inside_esc s = 0 ->
  span s ptr len = ESC :: LBRACKET :: pre ++ c :: post ++ [fin] ->
  Forall csi_param pre -> Forall csi_param post ->
  ~ csi_param c -> ~ csi_final c -> csi_final fin ->
  fwritten (trace (writelog ptr len s)) = fwritten (trace s) ++ [c]
  /\ inside_esc (writelog ptr len s) = 0.
Proof.
  intros H0 Hm Hpre Hpost Hp Hf Hfin.
  destruct (writelog_filter ptr len s) as [A B].
  rewrite H0, Hm, esc_run_stray in A, B by assumption. now split.
Qed.

Lemma stray_byte_in_sequence_is_logged_witness :
  span (boot_state [27; 91; 63; 50; 53; 108]) 0 6 = [27; 91; 63; 50; 53; 108]
  /\ fwritten (trace (writelog 0 6 (boot_state [27; 91; 63; 50; 53; 108])))
     = fwritten (trace (boot_state [27; 91; 63; 50; 53; 108])) ++ [63]
  /\ inside_esc (writelog 0 6 (boot_state [27; 91; 63; 50; 53; 108])) = 0.
Proof.
  split; [vm_compute; reflexivity|].
  apply (stray_byte_in_sequence_is_logged 0 6
           (boot_state [27; 91; 63; 50; 53; 108]) [] [50; 53] 63 108).
  - reflexivity.
  - vm_compute. reflexivity.
  - constructor.
  - repeat constructor; unfold csi_param; lia.
  - unfold csi_param. lia.
  - unfold csi_final. lia.
  - unfold csi_final. lia.
Defined.

(** ** Flushing *)

Lemma writelog_byte_dosync (ptr : Z) (d : bool) (s : state) :
  exists body,
    trace (snd (writelog_byte ptr (d, s))) = trace s ++ body
    /\ fst (writelog_byte ptr (d, s)) =
       (d || match stamps body with [] => false | _ :: _ => true end)
    /\ syncalot (snd (writelog_byte ptr (d, s))) = syncalot s
    /\ Forall loop_output body.
Proof.
  unfold writelog_byte.
  destruct ((buf s (ptr - 1) =? NL) || negb (first_run s =? 0)); simpl;
    destruct (esc_filter (inside_esc s) (buf s ptr)) as [[] ie]; simpl.
  - exists [EvFprintf (stamp_text (clock s (ticks s)))].
    simpl. rewrite orb_true_r. repeat split; auto. repeat constructor.
  - exists [EvFprintf (stamp_text (clock s (ticks s))); EvFwrite (buf s ptr)].
    simpl. rewrite <- app_assoc, orb_true_r. repeat split; auto.
    repeat constructor.
  - exists []. rewrite app_nil_r, orb_false_r. repeat split; auto.
  - exists [EvFwrite (buf s ptr)]. rewrite orb_false_r.
    repeat split; auto. repeat constructor.
Qed.

Lemma writelog_loop_dosync (n : nat) :
  forall ptr d s,
    exists body,
      trace (snd (writelog_loop n ptr (d, s))) = trace s ++ body
      /\ fst (writelog_loop n ptr (d, s)) =
         (d || match stamps body with [] => false | _ :: _ => true end)
      /\ syncalot (snd (writelog_loop n ptr (d, s))) = syncalot s
      /\ Forall loop_output body.
Proof.
  induction n as [|n IH]; intros ptr d s; cbn [writelog_loop].
  - exists []. rewrite app_nil_r, orb_false_r. simpl. repeat split; auto.
  - destruct (writelog_byte_dosync ptr d s) as (b1 & T1 & D1 & S1 & F1).
    destruct (writelog_byte ptr (d, s)) as [d1 s1]. simpl in T1, D1, S1.
    destruct (IH (ptr + 1) d1 s1) as (b2 & T2 & D2 & S2 & F2).
    exists (b1 ++ b2). split; [now rewrite T2, T1, app_assoc|].
    split; [|split; [congruence | now apply Forall_app]].
    rewrite D2, D1, stamps_app.
    destruct (stamps b1); destruct (stamps b2); destruct d; reflexivity.
Qed.

(** X7. One call of [writelog] calls [fflush] at most once, after the
    last byte, and exactly when it wrote a time stamp; [fdatasync] follows
    exactly when [syncalot] is set as well.  A span without a line start
    is left in the stdio buffer. *)
Theorem flush_only_after_stamp (ptr len : Z) (s : state) :
  exists body,
    Forall loop_output body
    /\ fwritten body = fst (esc_run (inside_esc s) (span s ptr len))
    /\ trace (writelog ptr len s) =
       trace s ++ body ++ flush_tail (syncalot s) body.
Proof.
  destruct (writelog_loop_dosync (Z.to_nat len) ptr false s)
    as (body & T & D & Sy & F).
  destruct (writelog_loop_filter (Z.to_nat len) ptr false s) as [_ Fw].
  exists body. split; [exact F|]. split.
  { rewrite T, fwritten_app in Fw. now apply app_inv_head in Fw. }
  unfold writelog, flush_tail.
  destruct (writelog_loop (Z.to_nat len) ptr (false, s)) as [d s1].
  simpl in T, D, Sy. subst d.
  destruct (stamps body); simpl.
  - destruct (endptr s1 <=? outptr s1 + len); simpl;
      now rewrite T, app_nil_r.
  - rewrite Sy. destruct (syncalot s =? 0); simpl;
      destruct (endptr s1 <=? outptr s1 + len); simpl;
      rewrite T, <- ?app_assoc; reflexivity.
Qed.

(** ** What a turn takes from the operating system *)

Lemma cons_write_os (ws : list (Z * Z)) :
  forall o s c p m c1 o1 s1,
    cons_write ws o s c p m = Some (c1, o1, s1) ->
    q_write o = ws ->
    exists qw qo, o1 = set_q_open qo (set_q_write qw o).
Proof.
  induction ws as [|[i e] ws IH]; intros o s c p m c1 o1 s1; cbn [cons_write].
  - destruct (m <=? 0); [|discriminate].
    intros H Q. injection H as <- <- <-.
    exists (q_write o), (q_open o). now destruct o.
  - destruct (m <=? 0).
    { intros H Q. injection H as <- <- <-.
      exists (q_write o), (q_open o). now destruct o. }
    destruct (0 <=? i).
    { intros H Q. apply IH in H; [|reflexivity].
      destruct H as (qw & qo & ->). exists qw, qo. reflexivity. }
    destruct (write_err _ _ _ _ _ _) as [[[nfd o2] s2]|] eqn:W; [|discriminate].
    apply write_err_cases in W.
    assert (O2 : exists qo2, o2 = set_q_open qo2 (set_q_write ws o)).
    { destruct W as [(_ & _ & -> & _)|(_ & r & rest & _ & -> & _)].
      - exists (q_open o). now destruct o.
      - exists rest. reflexivity. }
    destruct O2 as [qo2 ->].
    destruct (0 <=? nfd).
    { intros H Q. apply IH in H; [|reflexivity].
      destruct H as (qw & qo & ->). exists qw, qo. reflexivity. }
    intros H Q. injection H as <- <- <-. exists ws, qo2. reflexivity.
Qed.

Lemma fanout_os (cs : list real_cons) (p n : Z) :
  forall o s cs1 o1 s1,
    fanout cs p n o s = Some (cs1, o1, s1) ->
    exists qw qo, o1 = set_q_open qo (set_q_write qw o).
Proof.
  induction cs as [|c cs IH]; intros o s cs1 o1 s1; cbn [fanout].
  - intro H. injection H as <- <- <-.
    exists (q_write o), (q_open o). now destruct o.
  - destruct (fd c <? 0).
    + destruct (fanout cs p n o s) as [[[r2 o2] s2]|] eqn:R; [|discriminate].
      intro H. injection H as <- <- <-. eapply IH; eauto.
    + destruct (cons_write (q_write o) o s c p n) as [[[c2 o2] s2]|] eqn:W;
        [|discriminate].
      destruct (fanout cs p n o2 s2) as [[[r3 o3] s3]|] eqn:R; [|discriminate].
      intro H. injection H as <- <- <-.
      apply cons_write_os in W; [|reflexivity]. destruct W as (qw & qo & ->).
      apply IH in R. destruct R as (qw2 & qo2 & ->).
      exists qw2, qo2. reflexivity.
Qed.

Lemma do_fopen_os (o o1 : os) (s s1 : state) :
  do_fopen o s = Some (o1, s1) -> exists qf, o1 = set_q_fopen qf o.
Proof.
  unfold do_fopen. destruct (q_fopen o) as [|ok rest]; [discriminate|].
  intro H. injection H as <- <-. eauto.
Qed.

Lemma open_logfile_os (o o1 : os) (s s1 : state) :
  open_logfile o s = Some (o1, s1) ->
  exists qa qf, o1 = set_q_fopen qf (set_q_access qa o).
Proof.
  unfold open_logfile.
  assert (K : forall o2 s2 o3 s3,
             (exists qa qf, o2 = set_q_fopen qf (set_q_access qa o)) ->
             (if negb (fp s2) && negb (createlogfile s2 =? 0)
              then do_fopen o2 s2 else Some (o2, s2)) = Some (o3, s3) ->
             exists qa qf, o3 = set_q_fopen qf (set_q_access qa o)).
  { intros o2 s2 o3 s3 (qa & qf & ->) H.
    destruct (negb (fp s2) && negb (createlogfile s2 =? 0)).
    - apply do_fopen_os in H. destruct H as (qf2 & ->).
      exists qa, qf2. reflexivity.
    - injection H as <- <-. eauto. }
  assert (R : exists qa qf, o = set_q_fopen qf (set_q_access qa o))
    by (exists (q_access o), (q_fopen o); now destruct o).
  destruct (fp s).
  - intro H. apply (K o s o1 s1); auto.
  - destruct (q_access o) as [|a rest] eqn:Qa; [discriminate|].
    destruct (a =? 0).
    + destruct (do_fopen _ _) as [[o2 s2]|] eqn:D; [|discriminate].
      intro H. apply (K o2 s2 o1 s1); auto.
      apply do_fopen_os in D. destruct D as (qf2 & ->).
      exists rest, qf2. reflexivity.
    + intro H. apply (K (set_q_access rest o) s o1 s1); auto.
      exists rest, (q_fopen o). now destruct o.
Qed.

(** A turn of the loop takes exactly one answer of [select]. *)
Lemma main_iter_select (o o1 : os) (s s1 : state) :
  main_iter o s = Some (o1, s1) ->
  exists x, q_select o = x :: q_select o1.
Proof.
  unfold main_iter. destruct (q_select o) as [|[r sig] rest]; [discriminate|].
  set (sa := if sig =? 0 then s else set_got_signal sig s). clearbody sa.
  assert (C : forall ob sb,
             (if r =? 1 then capture_and_fanout (set_q_select rest o) sa
              else Some (set_q_select rest o, sa)) = Some (ob, sb) ->
             q_select ob = rest).
  { intros ob sb H. destruct (r =? 1); [|now injection H as <- <-].
    unfold capture_and_fanout in H. cbn [q_read set_q_select] in H.
    destruct (q_read o) as [|[data|] rr]; [discriminate| |].
    - destruct (endptr sa - inptr sa <? Z.of_nat (List.length data));
        [discriminate|].
      destruct (fanout _ _ _ _ _) as [[[cs o2] s2]|] eqn:F; [|discriminate].
      injection H as <- <-. apply fanout_os in F.
      destruct F as (qw & qo & ->). reflexivity.
    - now injection H as <- <-. }
  destruct (if r =? 1 then capture_and_fanout (set_q_select rest o) sa
            else Some (set_q_select rest o, sa)) as [[ob sb]|]; [|discriminate].
  specialize (C ob sb eq_refl).
  destruct (open_logfile ob sb) as [[oc sc]|] eqn:L; [|discriminate].
  intro H. injection H as <- <-.
  apply open_logfile_os in L. destruct L as (qa & qf & ->).
  exists (r, sig). simpl. now rewrite C.
Qed.

(** ** Why the loop ends *)

Lemma fanout_signal (cs : list real_cons) (p n : Z) :
  forall o s cs1 o1 s1,
    fanout cs p n o s = Some (cs1, o1, s1) ->
    got_signal s1 = got_signal s
    \/ (got_signal s1 = 1 /\ consoles_left s1 <= 0).
Proof.
  induction cs as [|c cs IH]; intros o s cs1 o1 s1; cbn [fanout].
  - intro H. injection H as <- <- <-. now left.
  - destruct (fd c <? 0) eqn:F.
    + destruct (fanout cs p n o s) as [[[r2 o2] s2]|] eqn:R; [|discriminate].
      intro H. injection H as <- <- <-. eapply IH; eauto.
    + apply Z.ltb_ge in F.
      destruct (cons_write (q_write o) o s c p n) as [[[c2 o2] s2]|] eqn:W;
        [|discriminate].
      destruct (fanout cs p n o2 s2) as [[[r3 o3] s3]|] eqn:R; [|discriminate].
      intro H. injection H as <- <- <-.
      destruct (cons_write_spec _ _ _ _ _ _ _ _ _ W F) as (_ & _ & _ & C1).
      destruct (fanout_spec _ _ _ _ _ _ _ _ R) as (_ & _ & _ & _ & Le & _).
      destruct (IH _ _ _ _ _ R) as [G|G]; [|now right].
      destruct C1 as [(_ & _ & GS)|(_ & _ & GS)]; [left; congruence|].
      rewrite G, GS. destruct (consoles_left s2 <=? 0) eqn:Z0; [|now left].
      apply Z.leb_le in Z0. right. split; [reflexivity | lia].
Qed.

Lemma main_iter_signal (o o1 : os) (s s1 : state) (r : Z) (rest : list (Z * Z)) :
  main_iter o s = Some (o1, s1) ->
  q_select o = (r, 0) :: rest ->
  got_signal s1 = got_signal s
  \/ (got_signal s1 = 1 /\ consoles_left s1 <= 0).
Proof.
  intros M Q.
  destruct (main_iter_cases _ _ _ _ M)
    as (r0 & sig & rest0 & g & ob & sb & sc & Q0 & Hg & Cap & L & ->).
  rewrite Q in Q0. injection Q0 as <- <- <-. specialize (Hg eq_refl). subst g.
  assert (B : got_signal sb = got_signal s
              \/ (got_signal sb = 1 /\ consoles_left sb <= 0)).
  { destruct Cap as [->|(data & o2 & cs & s2 & _ & Fo & ->)]; [now left|].
    apply fanout_signal in Fo. simpl in Fo.
    destruct (ring_advance_shape (Z.of_nat (List.length data)) (set_cons cs s2))
      as (ip & op & ->). exact Fo. }
  destruct (open_logfile_shape _ _ _ _ L) as (f & trc & -> & _).
  match goal with |- context [if ?b then _ else _] => destruct b end;
    [|exact B].
  match goal with |- context [writelog ?p ?n ?st] =>
    destruct (writelog_shape p n st) as (op2 & fr & ie & tk & tr2 & E & _);
    rewrite E end.
  exact B.
Qed.

(** X8. When no signal arrives, the main loop ends only because the
    last console was lost: started with a console left and the count in
    step with the descriptors, it ends with [got_signal] at 1, no console
    left and every descriptor negative. *)
Theorem loop_ends_only_without_consoles (fuel : nat) :
  forall (o o1 : os) (s s1 : state),
    main_loop fuel o s = Some (o1, s1) ->
    quiet o ->
    got_signal s = 0 ->
    consoles_left s = live (cons s) ->
    0 < consoles_left s ->
    got_signal s1 = 1
    /\ consoles_left s1 = 0
    /\ Forall (fun c => fd c < 0) (cons s1).
Proof.
  induction fuel as [|fuel IH]; intros o o1 s s1; cbn [main_loop];
    intros L Q G0 Lv Pos; rewrite G0 in L; simpl in L; [discriminate|].
  destruct (main_iter o s) as [[o2 s2]|] eqn:M; [|discriminate].
  destruct (main_iter_select _ _ _ _ M) as [[r sig] Qs].
  unfold quiet in Q. rewrite Qs in Q. inversion Q as [|? ? Q1 Q2]; subst.
  simpl in Q1. subst sig.
  destruct (main_iter_spec _ _ _ _ M) as (_ & _ & _ & _ & Lv2 & _).
  assert (Lv' : consoles_left s2 = live (cons s2)) by lia.
  destruct (main_iter_signal _ _ _ _ _ _ M Qs) as [G|[G Z0]].
  - (* no console was lost for good: the loop goes on *)
    rewrite G0 in G.
    assert (Pos2 : 0 < consoles_left s2).
    { destruct (main_iter_spec _ _ _ _ M) as (_ & _ & _ & _ & _ & Sg).
      destruct (Sg r (q_select o2) Qs) as [_ S2].
      destruct (Z_le_gt_dec (consoles_left s2) 0) as [Le|Gt]; [|lia].
      specialize (S2 Pos Le). lia. }
    eapply IH; eauto.
  - rewrite main_loop_stops in L by lia. injection L as <- <-.
    pose proof (live_nonneg (cons s2)) as Nn.
    split; [exact G|]. split; [lia|].
    assert (Z1 : live (cons s2) = 0) by lia.
    clear - Z1. induction (cons s2) as [|c cs IHc]; [constructor|].
    rewrite live_cons in Z1. pose proof (live_nonneg cs).
    destruct (0 <=? fd c) eqn:F; [lia|]. apply Z.leb_gt in F.
    constructor; [exact F | apply IHc; lia].
Qed.

Lemma loop_ends_only_without_consoles_witness :
  exists o1 s1,
    main_loop 1 lost_os one_console = Some (o1, s1)
    /\ got_signal s1 = 1
    /\ consoles_left s1 = 0
    /\ Forall (fun c => fd c < 0) (cons s1).
Proof.
  do 2 eexists. split; [vm_compute; reflexivity|].
  eapply (loop_ends_only_without_consoles 1 lost_os _ one_console _).
  - vm_compute. reflexivity.
  - unfold quiet. simpl. repeat constructor.
  - reflexivity.
  - vm_compute. reflexivity.
  - vm_compute. reflexivity.
Defined.

(** ** One turn, from [read] to the log file *)

Lemma open_logfile_open (o : os) (s : state) :
  fp s = true -> open_logfile o s = Some (o, s).
Proof.
  intro F. unfold open_logfile. cbv zeta. rewrite F. cbv iota beta.
  now rewrite F.
Qed.

Lemma fwritten_console (names : list string) (evs : list event) :
  Forall (console_event names) evs -> fwritten evs = [].
Proof.
  induction 1 as [|e evs He _ IH]; [reflexivity|].
  destruct e; simpl in He; try contradiction; exact IH.
Qed.

Lemma main_iter_read (o o1 : os) (s s1 : state) (sig : Z)
    (rs : list (Z * Z)) (data : list Z) (rr : list (option (list Z))) :
  main_iter o s = Some (o1, s1) ->
  q_select o = (1, sig) :: rs ->
  q_read o = Some data :: rr ->
  exists g cs o2 s2 sc,
    Z.of_nat (List.length data) <= endptr s - inptr s
    /\ fanout (cons s) (inptr s) (Z.of_nat (List.length data))
         (set_q_read rr (set_q_select rs o))
         (store data (set_got_signal g s)) = Some (cs, o2, s2)
    /\ open_logfile o2
         (ring_advance (Z.of_nat (List.length data)) (set_cons cs s2))
       = Some (o1, sc)
    /\ s1 = (if fp sc && negb (todo sc =? 0)
             then writelog (outptr sc) (todo sc) sc else sc).
Proof.
  intros M Qs Qr. unfold main_iter in M. rewrite Qs in M.
  change (1 =? 1) with true in M. cbv iota in M.
  assert (E : exists g, (if sig =? 0 then s else set_got_signal sig s)
                        = set_got_signal g s).
  { destruct (sig =? 0); [exists (got_signal s); now destruct s | eauto]. }
  destruct E as [g E]. rewrite E in M. exists g.
  unfold capture_and_fanout in M. cbn [q_read set_q_select] in M.
  rewrite Qr in M.
  change (endptr (set_got_signal g s)) with (endptr s) in M.
  change (inptr (set_got_signal g s)) with (inptr s) in M.
  destruct (endptr s - inptr s <? Z.of_nat (List.length data)) eqn:B;
    [discriminate|]. apply Z.ltb_ge in B.
  change (cons (store data (set_got_signal g s))) with (cons s) in M.
  change (inptr (store data (set_got_signal g s))) with (inptr s) in M.
  change (set_q_read rr
            {| q_select := rs; q_read := q_read o; q_write := q_write o;
               q_open := q_open o; q_access := q_access o;
               q_fopen := q_fopen o; r_findpty := r_findpty o;
               r_tty0 := r_tty0 o; r_tioccons := r_tioccons o |})
    with (set_q_read rr (set_q_select rs o)) in M.
  destruct (fanout _ _ _ _ _) as [[[cs o2] s2]|] eqn:F; [|discriminate].
  destruct (open_logfile _ _) as [[oc sc]|] eqn:L; [|discriminate].
  injection M as <- <-. exists cs, o2, s2, sc. repeat split; auto.
Qed.

(** X9. With the log file open and nothing buffered, a turn of the loop
    in which [read] returns fewer bytes than the arena holds passes
    exactly these bytes through the escape filter to the log file, and
    leaves nothing buffered. *)
Theorem turn_logs_what_was_read (o o1 : os) (s s1 : state) (sig : Z)
    (rs : list (Z * Z)) (data : list Z) (rr : list (option (list Z))) :
  main_iter o s = Some (o1, s1) ->
  q_select o = (1, sig) :: rs ->
  q_read o = Some data :: rr ->
  fp s = true ->
  ring_ok s ->
  outptr s = inptr s ->
  Z.of_nat (List.length data) < endptr s ->
  fwritten (trace s1) = fwritten (trace s) ++ fst (esc_run (inside_esc s) data)
  /\ inside_esc s1 = snd (esc_run (inside_esc s) data)
  /\ outptr s1 = inptr s1
  /\ fp s1 = true.
Proof.
  intros M Qs Qr Fp [[I0 I1] _] Em Lt.
  destruct (main_iter_read _ _ _ _ _ _ _ _ M Qs Qr)
    as (g & cs & o2 & s2 & sc & Bd & Fo & L & ->).
  destruct (fanout_spec _ _ _ _ _ _ _ _ Fo)
    as (_ & (evs & Tr & Ev) & _ & _ & _ & _ & _ & (g2 & l & tr & Sh)).
  set (n := Z.of_nat (List.length data)) in *.
  set (sb := ring_advance n (set_cons cs s2)) in *.
  destruct (ring_advance_fields n (set_cons cs s2)) as (Ip & Op & Bf & En).
  destruct (ring_advance_shape n (set_cons cs s2)) as (ip & op & Sb).
  fold sb in Ip, Op, Bf, En, Sb.
  assert (Fs : fp sb = true) by (rewrite Sb, Sh; exact Fp).
  rewrite (open_logfile_open o2 sb Fs) in L. injection L as <- <-.
  assert (Ie : inside_esc sb = inside_esc s) by (rewrite Sb, Sh; reflexivity).
  assert (Fw : fwritten (trace sb) = fwritten (trace s)).
  { replace (trace sb) with (trace s2) by (rewrite Sb; reflexivity).
    rewrite Tr. change (trace (store data (set_got_signal g s))) with (trace s).
    rewrite fwritten_app, (fwritten_console _ _ Ev). apply app_nil_r. }
  assert (Sp : span sb (inptr s) n = data).
  { unfold span. rewrite Bf. replace (buf (set_cons cs s2))
      with (buf (store data (set_got_signal g s))) by (rewrite Sh; reflexivity).
    change (buf (store data (set_got_signal g s))) with (buf (store data s)).
    unfold n. rewrite Nat2Z.id. apply span_store. }
  replace (inptr (set_cons cs s2)) with (inptr s) in Ip, Op
    by (rewrite Sh; reflexivity).
  replace (outptr (set_cons cs s2)) with (outptr s) in Op
    by (rewrite Sh; reflexivity).
  replace (endptr (set_cons cs s2)) with (endptr s) in Ip, Op, En
    by (rewrite Sh; reflexivity).
  rewrite Em in Op. rewrite Z.ltb_irrefl in Op. cbn [andb] in Op.
  settle (endptr s <=? inptr s) in Op.
  assert (Td : todo sb = n).
  { unfold todo. rewrite Ip, Op, En.
    destruct (endptr s <=? inptr s + n) eqn:W.
    - apply Z.leb_le in W.
      destruct (inptr s <=? 0) eqn:Z0; [apply Z.leb_le in Z0|]; lia.
    - settle (inptr s <=? inptr s + n). lia. }
  rewrite Fs, Td. cbn [andb].
  destruct (n =? 0) eqn:N0; cbn [negb].
  - apply Z.eqb_eq in N0.
    assert (D : data = [])
      by (destruct data; [reflexivity | unfold n in N0; simpl in N0; lia]).
    replace (esc_run (inside_esc s) data) with (esc_run (inside_esc s) [])
      by (now rewrite D).
    simpl. rewrite app_nil_r.
    repeat split; auto. rewrite Ip, Op.
    settle (endptr s <=? inptr s + n). lia.
  - apply Z.eqb_neq in N0.
    destruct (writelog_filter (outptr sb) n sb) as [A B].
    destruct (writelog_ring (outptr sb) n sb) as (O1 & I2 & _ & F2).
    rewrite Op, Sp, Ie, Fw in *.
    repeat split; auto; [|congruence].
    rewrite O1, I2, Ip, En. reflexivity.
Qed.

Lemma turn_logs_what_was_read_witness :
  exists o1 s1,
    main_iter typing_os logging_console = Some (o1, s1)
    /\ fwritten (trace s1) =
         fwritten (trace logging_console)
         ++ fst (esc_run (inside_esc logging_console) [65; 13; 66])
    /\ fwritten (trace s1) = [65; 66]
    /\ outptr s1 = inptr s1.
Proof.
  do 2 eexists. split; [vm_compute; reflexivity|].
  destruct (turn_logs_what_was_read typing_os _ logging_console _ 0
              [(0, 15)] [65; 13; 66] [] ltac:(vm_compute; reflexivity))
    as (A & _ & C & _).
  - reflexivity.
  - reflexivity.
  - reflexivity.
  - unfold ring_ok. simpl. unfold RINGBUF_SIZE. lia.
  - reflexivity.
  - simpl. unfold RINGBUF_SIZE. lia.
  - split; [exact A|]. split; [vm_compute; reflexivity | exact C].
Defined.

(** ** The stamp at the wrap of the arena *)

Lemma stamps_console (names : list string) (evs : list event) :
  Forall (console_event names) evs -> stamps evs = [].
Proof.
  induction 1 as [|e evs He _ IH]; [reflexivity|].
  destruct e; simpl in He; try contradiction; exact IH.
Qed.

(** What one turn with the log file open and nothing buffered adds to the
    stamps, and where it leaves the pointers. *)
Lemma turn_stamps (o o1 : os) (s s1 : state) (sig : Z)
    (rs : list (Z * Z)) (data : list Z) (rr : list (option (list Z))) :
  main_iter o s = Some (o1, s1) ->
  q_select o = (1, sig) :: rs ->
  q_read o = Some data :: rr ->
  fp s = true ->
  ring_ok s ->
  outptr s = inptr s ->
  Z.of_nat (List.length data) < endptr s ->
  List.length (stamps (trace s1)) =
    Nat.add (List.length (stamps (trace s)))
      (line_starts (buf s (inptr s - 1)) (negb (first_run s =? 0)) data)
  /\ buf s1 = buf (store data s)
  /\ inptr s1 = (if endptr s <=? inptr s + Z.of_nat (List.length data)
                 then 0 else inptr s + Z.of_nat (List.length data))
  /\ outptr s1 = inptr s1
  /\ endptr s1 = endptr s
  /\ fp s1 = true
  /\ negb (first_run s1 =? 0) =
       match data with [] => negb (first_run s =? 0) | _ :: _ => false end.
Proof.
  intros M Qs Qr Fp [[I0 I1] _] Em Lt.
  destruct (main_iter_read _ _ _ _ _ _ _ _ M Qs Qr)
    as (g & cs & o2 & s2 & sc & Bd & Fo & L & ->).
  destruct (fanout_spec _ _ _ _ _ _ _ _ Fo)
    as (_ & (evs & Tr & Ev) & _ & _ & _ & _ & _ & (g2 & l & tr & Sh)).
  set (n := Z.of_nat (List.length data)) in *.
  set (sb := ring_advance n (set_cons cs s2)) in *.
  destruct (ring_advance_fields n (set_cons cs s2)) as (Ip & Op & Bf & En).
  destruct (ring_advance_shape n (set_cons cs s2)) as (ip & op & Sb).
  fold sb in Ip, Op, Bf, En, Sb.
  assert (Fs : fp sb = true) by (rewrite Sb, Sh; exact Fp).
  rewrite (open_logfile_open o2 sb Fs) in L. injection L as <- <-.
  assert (Fr : first_run sb = first_run s) by (rewrite Sb, Sh; reflexivity).
  assert (St : stamps (trace sb) = stamps (trace s)).
  { replace (trace sb) with (trace s2) by (rewrite Sb; reflexivity).
    rewrite Tr. change (trace (store data (set_got_signal g s))) with (trace s).
    rewrite stamps_app, (stamps_console _ _ Ev). apply app_nil_r. }
  assert (Bs : buf sb = buf (store data s)).
  { rewrite Bf. rewrite Sh. reflexivity. }
  assert (Sp : span_from (buf sb) (inptr s) (List.length data) = data).
  { rewrite Bs. apply span_store. }
  replace (inptr (set_cons cs s2)) with (inptr s) in Ip, Op
    by (rewrite Sh; reflexivity).
  replace (outptr (set_cons cs s2)) with (outptr s) in Op
    by (rewrite Sh; reflexivity).
  replace (endptr (set_cons cs s2)) with (endptr s) in Ip, Op, En
    by (rewrite Sh; reflexivity).
  rewrite Em in Op. rewrite Z.ltb_irrefl in Op. cbn [andb] in Op.
  settle (endptr s <=? inptr s) in Op.
  assert (Td : todo sb = n).
  { unfold todo. rewrite Ip, Op, En.
    destruct (endptr s <=? inptr s + n) eqn:W.
    - apply Z.leb_le in W.
      destruct (inptr s <=? 0) eqn:Z0; [apply Z.leb_le in Z0|]; lia.
    - settle (inptr s <=? inptr s + n). lia. }
  rewrite Fs, Td. cbn [andb].
  destruct (n =? 0) eqn:N0; cbn [negb].
  - apply Z.eqb_eq in N0.
    assert (D : data = [])
      by (destruct data; [reflexivity | unfold n in N0; simpl in N0; lia]).
    subst data. cbn [line_starts]. rewrite St, Fr, Nat.add_0_r.
    repeat split; auto. rewrite Ip, Op.
    settle (endptr s <=? inptr s + n). lia.
  - apply Z.eqb_neq in N0.
    destruct (writelog_ring (outptr sb) n sb) as (O1 & I2 & E2 & F2).
    destruct (writelog_trace (outptr sb) n sb) as (tail & E & Hs & _).
    split.
    { rewrite E, stamps_app, Hs, app_nil_r, writelog_loop_stamps.
      unfold n. rewrite Nat2Z.id, Op, Sp, St, Fr. do 2 f_equal.
      rewrite Bs. unfold store. simpl. settle (inptr s <=? inptr s - 1).
      reflexivity. }
    split; [rewrite writelog_buf; exact Bs|].
    split; [rewrite I2; exact Ip|].
    split; [rewrite O1, I2, Op, Ip, En; reflexivity|].
    split; [congruence|]. split; [congruence|].
    unfold n. rewrite writelog_first_run.
    destruct data; [simpl in N0; unfold n in N0; simpl in N0; lia | reflexivity].
Qed.

Lemma line_starts_prev (p q : Z) (l : list Z) :
  p = NL -> q <> NL -> l <> [] ->
  line_starts p false l = S (line_starts q false l).
Proof.
  intros -> Hq Hl. destruct l as [|c r]; [contradiction|].
  cbn [line_starts]. apply Z.eqb_neq in Hq. rewrite Hq. reflexivity.
Qed.

Lemma store_last (d : list Z) (s : state) :
  d <> [] ->
  buf (store d s) (inptr s + Z.of_nat (List.length d) - 1) = last d 0.
Proof.
  intro Hd. unfold store. simpl.
  assert (Ln : (0 < List.length d)%nat)
    by (destruct d; [contradiction | simpl; lia]).
  settle (inptr s <=? inptr s + Z.of_nat (List.length d) - 1).
  settle (inptr s + Z.of_nat (List.length d) - 1
          <? inptr s + Z.of_nat (List.length d)).
  cbn [andb].
  replace (Z.to_nat (inptr s + Z.of_nat (List.length d) - 1 - inptr s))
    with (Nat.pred (List.length d)) by lia.
  clear Hd Ln. induction d as [|a [|b d] IH]; try reflexivity. exact IH.
Qed.

(** C9. The code looks for the newline at [ptr - 1] in memory, which is
    the byte before the current one in the stream except at the start of
    the arena.  A read that ends at the end of the arena with a newline
    wraps both pointers to the start; the next read is written from
    there, and whether its first byte gets a stamp is decided by the byte
    in front of the arena, not by that newline: when that byte is no
    newline, the turn writes one stamp fewer than the stream has line
    starts, and the line that starts the arena goes to the file without
    its stamp. *)
Theorem stamp_lost_at_wrap (o o1 o2 : os) (s s1 s2 : state) (sig1 sig2 : Z)
    (rs1 rs2 : list (Z * Z)) (d1 d2 : list Z)
    (rr1 rr2 : list (option (list Z))) :
  main_iter o s = Some (o1, s1) ->
  q_select o = (1, sig1) :: rs1 ->
  q_read o = Some d1 :: rr1 ->
  main_iter o1 s1 = Some (o2, s2) ->
  q_select o1 = (1, sig2) :: rs2 ->
  q_read o1 = Some d2 :: rr2 ->
  fp s = true ->
  ring_ok s ->
  outptr s = inptr s ->
  0 < inptr s ->
  Z.of_nat (List.length d1) = endptr s - inptr s ->
  last d1 0 = NL ->
  d2 <> [] ->
  Z.of_nat (List.length d2) < endptr s ->
  buf s1 (endptr s - 1) = NL
  /\ inptr s1 = 0 /\ outptr s1 = 0
  /\ List.length (stamps (trace s2)) =
       Nat.add (List.length (stamps (trace s1)))
         (line_starts (buf s (-1)) false d2)
  /\ (buf s (-1) <> NL ->
      S (List.length (stamps (trace s2))) =
        Nat.add (List.length (stamps (trace s1)))
          (line_starts (last d1 0) false d2)).
Proof.
  intros M1 Qs1 Qr1 M2 Qs2 Qr2 Fp Ok Em Pos L1 Nl D2 L2.
  assert (N1 : d1 <> []).
  { destruct Ok as [[_ I1] _]. destruct d1; [simpl in L1; lia | discriminate]. }
  destruct (turn_stamps _ _ _ _ _ _ _ _ M1 Qs1 Qr1 Fp Ok Em ltac:(lia))
    as (_ & B1 & I1 & O1 & E1 & F1 & R1).
  rewrite L1 in I1. settle (endptr s <=? inptr s + (endptr s - inptr s)) in I1.
  rewrite I1 in O1.
  assert (Ok1 : ring_ok s1).
  { unfold ring_ok. rewrite I1, O1, E1. destruct Ok as [[? ?] _]. lia. }
  destruct (turn_stamps _ _ _ _ _ _ _ _ M2 Qs2 Qr2 F1 Ok1 ltac:(congruence)
              ltac:(rewrite E1; exact L2))
    as (S2 & _).
  destruct d1 as [|a d1]; [contradiction|]. rewrite R1 in S2.
  rewrite I1 in S2. change (0 - 1) with (-1) in S2.
  assert (Bm : buf s1 (-1) = buf s (-1)).
  { rewrite B1. unfold store. simpl. settle (inptr s <=? -1). reflexivity. }
  rewrite Bm in S2.
  split.
  { rewrite B1, <- Nl.
    replace (endptr s - 1)
      with (inptr s + Z.of_nat (List.length (a :: d1)) - 1) by lia.
    apply store_last. discriminate. }
  split; [exact I1|]. split; [exact O1|]. split; [exact S2|].
  intro Hb. rewrite S2, (line_starts_prev (last (a :: d1) 0) (buf s (-1)) d2 Nl Hb D2).
  lia.
Qed.

(** Two bytes before the end of the arena "C" and a newline arrive, then
    "B": the file gets the three bytes and no stamp before the "B". *)
Lemma stamp_lost_at_wrap_witness :
  exists o1 s1 o2 s2,
    main_iter wrapping_os near_the_end = Some (o1, s1)
    /\ main_iter o1 s1 = Some (o2, s2)
    /\ file_bytes (trace s2) = [67; 10; 66]
    /\ buf s1 (endptr near_the_end - 1) = NL
    /\ inptr s1 = 0 /\ outptr s1 = 0
    /\ List.length (stamps (trace s2)) =
         Nat.add (List.length (stamps (trace s1)))
           (line_starts (buf near_the_end (-1)) false [66])
    /\ S (List.length (stamps (trace s2))) =
         Nat.add (List.length (stamps (trace s1)))
           (line_starts (last [67; 10] 0) false [66]).
Proof.
  assert (R : match main_iter wrapping_os near_the_end with
              | Some (o1, s1) =>
                  match main_iter o1 s1 with
                  | Some (_, s2) =>
                      Some (q_select o1, q_read o1, file_bytes (trace s2))
                  | None => None
                  end
              | None => None
              end = Some ([(1, 0)], [Some [66]], [67; 10; 66]))
    by (vm_compute; reflexivity).
  destruct (main_iter wrapping_os near_the_end) as [[o1 s1]|] eqn:M1;
    [|discriminate R].
  destruct (main_iter o1 s1) as [[o2 s2]|] eqn:M2; [|discriminate R].
  injection R as Qs Qr Fb.
  exists o1, s1, o2, s2.
  split; [reflexivity|]. split; [exact M2|]. split; [exact Fb|].
  destruct (stamp_lost_at_wrap wrapping_os o1 o2 near_the_end s1 s2 0 0
              [(1, 0)] [] [67; 10] [66] [Some [66]] []
              M1 eq_refl eq_refl M2 Qs Qr)
    as (A & B & C & D & E).
  - reflexivity.
  - unfold ring_ok. simpl. unfold RINGBUF_SIZE. lia.
  - reflexivity.
  - simpl. unfold RINGBUF_SIZE. lia.
  - simpl. unfold RINGBUF_SIZE. lia.
  - reflexivity.
  - discriminate.
  - simpl. unfold RINGBUF_SIZE. lia.
  - split; [exact A|]. split; [exact B|]. split; [exact C|].
    split; [exact D|]. apply E. discriminate.
Defined.

(** ** What the consoles receive *)




(** ** The log file, once open *)

Lemma main_iter_open (o o1 : os) (s s1 : state) :
  main_iter o s = Some (o1, s1) ->
  fp s = true ->
  fp s1 = true /\ q_access o1 = q_access o /\ q_fopen o1 = q_fopen o
  /\ exists evs, trace s1 = trace s ++ evs /\ Forall (fun e => ~ file_event e) evs.
Proof.
  unfold main_iter. destruct (q_select o) as [|[r sig] rest]; [discriminate|].
  intros M Fp.
  assert (E : exists g, (if sig =? 0 then s else set_got_signal sig s)
                        = set_got_signal g s).
  { destruct (sig =? 0); [exists (got_signal s); now destruct s | eauto]. }
  destruct E as [g E]. rewrite E in M. clear E.
  assert (C : forall ob sb,
             (if r =? 1 then capture_and_fanout (set_q_select rest o)
                               (set_got_signal g s)
              else Some (set_q_select rest o, set_got_signal g s))
             = Some (ob, sb) ->
             fp sb = true /\ q_access ob = q_access o /\ q_fopen ob = q_fopen o
             /\ exists evs, trace sb = trace s ++ evs
                            /\ Forall (fun e => ~ file_event e) evs).
  { intros ob sb H.
    assert (R : exists evs, trace s = trace s ++ evs
                            /\ Forall (fun e => ~ file_event e) evs)
      by (exists []; split; [now rewrite app_nil_r | constructor]).
    destruct (r =? 1); [|injection H as <- <-; auto].
    unfold capture_and_fanout in H. cbn [q_read set_q_select] in H.
    destruct (q_read o) as [|[data|] rr]; [discriminate| |].
    - destruct (_ <? _); [discriminate|].
      destruct (fanout _ _ _ _ _) as [[[cs o2] s2]|] eqn:F; [|discriminate].
      injection H as <- <-.
      destruct (fanout_os _ _ _ _ _ _ _ _ F) as (qw & qo & ->).
      destruct (fanout_spec _ _ _ _ _ _ _ _ F)
        as (_ & (evs & Tr & Ev) & _ & _ & _ & _ & _ & (g2 & l & tr & Sh)).
      destruct (ring_advance_shape (Z.of_nat (List.length data)) (set_cons cs s2))
        as (ip & op & ->).
      split; [rewrite Sh; exact Fp|]. split; [reflexivity|].
      split; [reflexivity|]. exists evs. split; [exact Tr|].
      eapply Forall_impl; [|exact Ev]. intros e He Hf.
      destruct e; simpl in He, Hf; contradiction.
    - injection H as <- <-. auto. }
  destruct (if r =? 1 then _ else _) as [[ob sb]|]; [|discriminate].
  destruct (C ob sb eq_refl) as (Fb & Qa & Qf & evs & Tr & Ev).
  rewrite (open_logfile_open ob sb Fb) in M. injection M as <- <-.
  rewrite Fb. destruct (negb (todo sb =? 0)); cbn [andb].
  - destruct (writelog_ring (outptr sb) (todo sb) sb) as (_ & _ & _ & F2).
    destruct (writelog_shape (outptr sb) (todo sb) sb)
      as (a & b & c & d & e & _ & (ev2 & T2 & E2)).
    split; [congruence|]. split; [exact Qa|]. split; [exact Qf|].
    exists (evs ++ ev2). split; [rewrite T2, Tr; now rewrite app_assoc|].
    apply Forall_app. split; [exact Ev|].
    eapply Forall_impl; [|exact E2]. intros e0 He Hf.
    destruct e0; simpl in He, Hf; contradiction.
  - repeat split; auto. exists evs. auto.
Qed.

(** X11. Once the log file is open it stays open: through the rest of
    the loop the program calls neither [access] nor [fopen] nor [rename]
    again. *)
Theorem log_file_opened_once (fuel : nat) :
  forall (o o1 : os) (s s1 : state),
    main_loop fuel o s = Some (o1, s1) ->
    fp s = true ->
    fp s1 = true
    /\ q_access o1 = q_access o
    /\ q_fopen o1 = q_fopen o
    /\ exists evs, trace s1 = trace s ++ evs
                   /\ Forall (fun e => ~ file_event e) evs.
Proof.
  induction fuel as [|fuel IH]; intros o o1 s s1; cbn [main_loop];
    (destruct (negb (got_signal s =? 0));
     [intros H Fp; injection H as <- <-; repeat split; auto;
      exists []; split; [now rewrite app_nil_r | constructor]|]);
    [discriminate|].
  destruct (main_iter o s) as [[o2 s2]|] eqn:M; [|discriminate].
  intros L Fp.
  destruct (main_iter_open _ _ _ _ M Fp) as (F2 & Qa & Qf & evs & Tr & Ev).
  destruct (IH _ _ _ _ L F2) as (F3 & Qa3 & Qf3 & ev3 & Tr3 & Ev3).
  split; [exact F3|]. split; [congruence|]. split; [congruence|].
  exists (evs ++ ev3). split; [rewrite Tr3, Tr; now rewrite app_assoc|].
  apply Forall_app. auto.
Qed.

Lemma log_file_opened_once_witness :
  exists o1 s1,
    main_loop 2 typing_os logging_console = Some (o1, s1)
    /\ fp s1 = true
    /\ q_access o1 = q_access typing_os
    /\ q_fopen o1 = q_fopen typing_os
    /\ exists evs, trace s1 = trace logging_console ++ evs
                   /\ Forall (fun e => ~ file_event e) evs.
Proof.
  do 2 eexists. split; [vm_compute; reflexivity|].
  eapply (log_file_opened_once 2 typing_os _ logging_console _).
  - vm_compute. reflexivity.
  - reflexivity.
Defined.

(** ** When start-up gives up *)

Lemma open_consoles_events (names : list string) :
  forall o s cs o1 s1,
    open_consoles names o s = Some (cs, o1, s1) ->
    (exists q, o1 = set_q_open q o)
    /\ exists evs,
         trace s1 = trace s ++ evs
         /\ Forall2 (fun c e => exists r, e = EvOpenNb (name c) r
                                          /\ fd c = if r <? 0 then -1 else r)
              cs evs.
Proof.
  induction names as [|n names IH]; intros o s cs o1 s1; cbn [open_consoles].
  - intro H. injection H as <- <- <-. split.
    + exists (q_open o). now destruct o.
    + exists []. split; [now rewrite app_nil_r | constructor].
  - unfold open_nb. destruct (q_open o) as [|r rest] eqn:Q; [discriminate|].
    match goal with |- context [open_consoles names ?a ?b] =>
      destruct (open_consoles names a b) as [[[cs2 o2] s2]|] eqn:R end;
      [|discriminate].
    intro H. injection H as <- <- <-.
    destruct (IH _ _ _ _ _ R) as ((q & ->) & evs & Tr & F2). split.
    + exists q. reflexivity.
    + exists (EvOpenNb (fix_name n) r :: evs). split.
      * rewrite Tr. destruct (r <? 0) eqn:Rn; simpl; rewrite ?Rn; simpl;
          now rewrite <- app_assoc.
      * constructor; [|exact F2]. exists r. split; reflexivity.
Qed.

Lemma live_some_open (cs : list real_cons) (evs : list event) :
  Forall2 (fun c e => exists r, e = EvOpenNb (name c) r
                                /\ fd c = if r <? 0 then -1 else r) cs evs ->
  (0 < live cs <-> some_open evs)
  /\ Forall (fun e => exists p r, e = EvOpenNb p r) evs.
Proof.
  induction 1 as [|c e cs evs (r & -> & Fd) _ IH].
  - split; [|constructor]. unfold live, some_open. simpl. split; [lia|].
    intros (p & r & [] & _).
  - destruct IH as [IH All]. split; [|constructor; eauto].
    rewrite live_cons. pose proof (live_nonneg cs) as Nn. rewrite Fd.
    unfold some_open in *. destruct (r <? 0) eqn:R.
    + apply Z.ltb_lt in R. change (0 <=? -1) with false. cbv iota.
      split.
      * intro H. destruct IH as [IH _].
        destruct IH as (p & r2 & I & Hr); [lia|]. exists p, r2. split; [now right|lia].
      * intros (p & r2 & [I|I] & Hr); [injection I as <- <-; lia|].
        destruct IH as [_ IH]. assert (0 < live cs) by (apply IH; eauto). lia.
    + apply Z.ltb_ge in R. settle (0 <=? r). split; [|lia].
      intros _. exists (name c), r. split; [now left | lia].
Qed.

(** X12. Start-up goes on to the main loop exactly when some console
    could be opened, a pty was found and the TIOCCONS ioctl on the slave
    succeeded; otherwise it returns 1.  TIOCCONS is issued only after a
    console was opened and a pty found. *)
Theorem start_gives_up_exactly_when (names : list string) (o o1 : os)
    (s s1 : state) (res : option Z) :
  main_start names o s = Some (o1, s1, res) ->
  exists evs,
    trace s1 = trace s ++ evs
    /\ (res = None <->
        some_open evs /\ r_findpty o <> None /\ 0 <= r_tioccons o)
    /\ (res <> None -> res = Some 1)
    /\ ((exists f, In (EvIoctl f) evs) <->
        some_open evs /\ r_findpty o <> None).
Proof.
  unfold main_start. destruct names as [|n names].
  { intro H. injection H as <- <- <-. exists []. split; [now rewrite app_nil_r|].
    split; [|split; [auto|]]; (split; [discriminate || (intros (f & []))|]);
      intros ((p & r & [] & _) & _). }
  set (nm := n :: names).
  set (s0 := set_consoles_left (Z.of_nat (List.length nm)) s).
  destruct (open_consoles nm o s0) as [[[cs oa] sa]|] eqn:O; [|discriminate].
  destruct (open_consoles_events _ _ _ _ _ _ O) as ((q & ->) & evs & Tr & F2).
  destruct (open_consoles_spec _ _ _ _ _ _ O)
    as (_ & _ & (l & tr & Sh) & Cnt & _).
  destruct (live_some_open _ _ F2) as [Lv All].
  change (consoles_left s0) with (Z.of_nat (List.length nm)) in Cnt.
  change (trace s0) with (trace s) in Tr.
  change (consoles_left (set_cons cs sa)) with (consoles_left sa).
  change (r_findpty (set_q_open q o)) with (r_findpty o).
  change (r_tioccons (set_q_open q o)) with (r_tioccons o).
  change (r_tty0 (set_q_open q o)) with (r_tty0 o).
  assert (NoI : forall f, ~ In (EvIoctl f) evs).
  { intros f I. rewrite Forall_forall in All.
    destruct (All _ I) as (p & r & ?). discriminate. }
  destruct (consoles_left sa =? 0) eqn:Z0.
  { apply Z.eqb_eq in Z0. intro H. injection H as <- <- <-.
    exists evs. split; [exact Tr|].
    assert (No : ~ some_open evs) by (intro So; apply Lv in So; lia).
    split; [split; [discriminate | tauto]|]. split; [auto|].
    split; [intros (f & I); exfalso; eapply NoI; eauto | tauto]. }
  apply Z.eqb_neq in Z0.
  assert (So : some_open evs).
  { apply Lv. pose proof (live_nonneg cs). lia. }
  destruct (r_findpty o) as [[m sl]|] eqn:Fp.
  2:{ intro H. injection H as <- <- <-. exists evs. split; [exact Tr|].
      split; [split; [discriminate | tauto]|]. split; [auto|].
      split; [intros (f & I); exfalso; eapply NoI; eauto | tauto]. }
  set (s3 := emit (EvIoctl 0) (set_ptys m sl (set_cons cs sa))).
  set (s4 := emit (EvOpenRdwr "/dev/tty0" (r_tty0 o)) s3).
  set (s5 := if 0 <=? r_tty0 o
             then emit (EvClose (r_tty0 o)) (emit (EvIoctl (r_tty0 o)) s4)
             else s4).
  set (s6 := emit (EvIoctl (pts s5)) s5).
  assert (T6 : exists tail, trace s6 = trace s ++ evs ++ EvIoctl 0 :: tail
                            /\ some_open (evs ++ EvIoctl 0 :: tail)).
  { unfold s6, s5. destruct (0 <=? r_tty0 o); unfold s4, s3, emit; simpl;
      rewrite Tr; repeat rewrite <- app_assoc; simpl;
      eexists; (split; [reflexivity|]);
      destruct So as (p & r & I & Hr); exists p, r;
      (split; [apply in_or_app; now left | exact Hr]). }
  destruct T6 as (tail & T6 & So6).
  assert (Io : exists f, In (EvIoctl f) (evs ++ EvIoctl 0 :: tail)).
  { exists 0. apply in_or_app. right. now left. }
  assert (Ne : Some (m, sl) <> None) by discriminate.
  destruct (r_tioccons o <? 0) eqn:Tc;
    [apply Z.ltb_lt in Tc | apply Z.ltb_ge in Tc];
    intro H; injection H as <- <- <-;
    exists (evs ++ EvIoctl 0 :: tail); (split; [exact T6|]).
  - split; [split; [discriminate | intros (_ & _ & ?); lia]|].
    split; [auto|]. tauto.
  - split; [split; [tauto | reflexivity]|].
    split; [intro H; now contradiction H|]. tauto.
Qed.

Lemma start_gives_up_exactly_when_witness :
  exists o1 s1,
    main_start ["/dev/ttyS0"%string] demo_os idle_state = Some (o1, s1, None)
    /\ exists evs,
         trace s1 = trace idle_state ++ evs
         /\ (@None Z = None <->
             some_open evs /\ r_findpty demo_os <> None
             /\ 0 <= r_tioccons demo_os)
         /\ (@None Z <> None -> @None Z = Some 1)
         /\ ((exists f, In (EvIoctl f) evs) <->
             some_open evs /\ r_findpty demo_os <> None).
Proof.
  do 2 eexists. split; [vm_compute; reflexivity|].
  eapply (start_gives_up_exactly_when ["/dev/ttyS0"%string] demo_os).
  vm_compute. reflexivity.
Defined.

Lemma try_pairs_app (a b : list (Z * Z)) :
  forall v w,
    try_pairs (a ++ b) v w =
      match try_pairs a v w with
      | Some (false, v1, w1) => try_pairs b v1 w1
      | r => r
      end.
Proof.
  induction a as [|[i j] a IH]; intros v w; [reflexivity|].
  cbn [app try_pairs].
  destruct (try_pair i j v w) as [[[[] v1] w1]|]; auto.
Qed.

Lemma findpty_j_run (i : Z) (n : nat) :
  forall (fuel a : nat) (v : pty_vars) (w : sys),
    (a + n <= 58 \/ 58 < a)%nat -> (a + n <= 103)%nat ->
    findpty_j (n + fuel) i (Z.of_nat a) v w =
      match try_pairs (map (fun j => (i, j)) (map Z.of_nat (seq a n))) v w with
      | Some (false, v1, w1) => findpty_j fuel i (Z.of_nat (a + n)) v1 w1
      | r => r
      end.
Proof.
  induction n as [|n IH]; intros fuel a v w Hj Ha.
  - cbn [seq map try_pairs Nat.add]. now rewrite Nat.add_0_r.
  - assert (E : (102 <? Z.of_nat a) = false) by (apply Z.ltb_ge; lia).
    assert (J : (Z.of_nat a =? 57 + 1) = false) by (apply Z.eqb_neq; lia).
    cbn [Nat.add findpty_j seq map try_pairs]. rewrite E, J.
    destruct (try_pair i (Z.of_nat a) v w) as [[[[] v1] w1]|]; try reflexivity.
    replace (Z.of_nat a + 1) with (Z.of_nat (S a)) by lia.
    rewrite IH by lia. now replace (S a + n)%nat with (a + S n)%nat by lia.
Qed.

Lemma findpty_j_steps (i : Z) (v : pty_vars) (w : sys) (k : nat) :
  findpty_j (17 + k) i 48 v w = try_pairs (map (fun j => (i, j)) hex_digits) v w.
Proof.
  change hex_digits
    with (map Z.of_nat (seq 48 10) ++ [97] ++ map Z.of_nat (seq 98 5)).
  rewrite !map_app, !try_pairs_app.
  change (17 + k)%nat with (10 + (1 + (5 + S k)))%nat.
  rewrite (findpty_j_run i 10 _ 48) by lia.
  destruct (try_pairs _ v w) as [[[[] v1] w1]|];
    [reflexivity | | reflexivity].
  change (Z.of_nat (48 + 10)) with 58.
  change (1 + (5 + S k))%nat with (S (5 + S k)).
  cbn [findpty_j map app try_pairs].
  change (102 <? 58) with false. change (58 =? 57 + 1) with true. cbv iota.
  destruct (try_pair i 97 v1 w1) as [[[[] v2] w2]|];
    [reflexivity | | reflexivity].
  change (97 + 1) with (Z.of_nat 98).
  rewrite (findpty_j_run i 5 _ 98) by lia.
  destruct (try_pairs _ v2 w2) as [[[[] v3] w3]|]; reflexivity.
Qed.

Lemma findpty_i_from (n : nat) :
  forall (fuel a : nat) (v : pty_vars) (w : sys),
    (a + n = 123)%nat -> (n <= fuel)%nat ->
    findpty_i fuel (Z.of_nat a) v w =
      try_pairs
        (flat_map (fun i => map (fun j => (i, j)) hex_digits)
           (map Z.of_nat (seq a n))) v w.
Proof.
  induction n as [|n IH]; intros fuel a v w Ha Hf.
  - assert (E : (122 <? Z.of_nat a) = true) by (apply Z.ltb_lt; lia).
    destruct fuel; cbn [findpty_i]; rewrite E; reflexivity.
  - destruct fuel as [|fuel]; [lia|].
    assert (E : (122 <? Z.of_nat a) = false) by (apply Z.ltb_ge; lia).
    cbn [findpty_i seq map flat_map]. rewrite E.
    rewrite (findpty_j_steps _ _ _ 38), try_pairs_app.
    destruct (try_pairs _ v w) as [[[[] v1] w1]|]; try reflexivity.
    replace (Z.of_nat a + 1) with (Z.of_nat (S a)) by lia.
    apply IH; lia.
Qed.

Lemma findpty_i_steps (v : pty_vars) (w : sys) :
  findpty_i 11 112 v w = try_pairs legacy_ptys v w.
Proof. apply (findpty_i_from 11 11 112); lia. Qed.

(** ** findpty *)

Lemma do_open_calls (path : string) (w w1 : sys) (r : Z) :
  do_open path w = Some (r, w1) ->
  calls w1 = calls w ++ [PrOpen path r] /\ opens w = r :: opens w1.
Proof.
  unfold do_open. destruct (opens w) as [|x rest]; [discriminate|].
  intro H. injection H as <- <-. split; reflexivity.
Qed.

Lemma try_pair_cases (i j : Z) (v v1 : pty_vars) (w w1 : sys) (found : bool) :
  try_pair i j v w = Some (found, v1, w1) ->
  (found = false /\ exists r, r < 0
     /\ calls w1 = calls w ++ [PrOpen (pty_path i j) r])
  \/ (found = false /\ exists r r2, 0 <= r /\ r2 < 0
       /\ calls w1 = calls w
            ++ [PrOpen (pty_path i j) r; PrOpen (tty_path i j) r2])
  \/ (found = true /\ 0 <= master v1 /\ 0 <= slave v1
       /\ tty v1 = tty_path i j
       /\ calls w1 = calls w
            ++ [PrOpen (pty_path i j) (master v1);
                PrOpen (tty_path i j) (slave v1)]).
Proof.
  unfold try_pair.
  destruct (do_open (pty_path i j) w) as [[m wa]|] eqn:A; [|discriminate].
  apply do_open_calls in A. destruct A as [A _].
  destruct (0 <=? m) eqn:M.
  - apply Z.leb_le in M.
    destruct (do_open (tty_path i j) wa) as [[sl wb]|] eqn:B; [|discriminate].
    apply do_open_calls in B. destruct B as [B _].
    intro H. injection H as <- <- <-. rewrite B, A, <- app_assoc. simpl.
    destruct (0 <=? sl) eqn:S1.
    + apply Z.leb_le in S1. right. right. repeat split; auto.
    + apply Z.leb_gt in S1. right. left. split; [reflexivity|].
      exists m, sl. repeat split; auto.
  - apply Z.leb_gt in M. intro H. injection H as <- <- <-.
    left. split; [reflexivity|]. exists m. split; auto.
Qed.

Lemma try_pairs_spec (l : list (Z * Z)) :
  forall v w found v1 w1,
    try_pairs l v w = Some (found, v1, w1) ->
    (found = false /\ exists evs, calls w1 = calls w ++ evs /\ fruitless l evs)
    \/ (found = true /\ exists before i j after evs,
          l = before ++ (i, j) :: after
          /\ fruitless before evs
          /\ calls w1 = calls w ++ evs
               ++ [PrOpen (pty_path i j) (master v1);
                   PrOpen (tty_path i j) (slave v1)]
          /\ 0 <= master v1 /\ 0 <= slave v1 /\ tty v1 = tty_path i j).
Proof.
  induction l as [|[i j] l IH]; intros v w found v1 w1; cbn [try_pairs].
  - intro H. injection H as <- <- <-. left. split; [reflexivity|].
    exists []. split; [now rewrite app_nil_r | constructor].
  - destruct (try_pair i j v w) as [[[f va] wa]|] eqn:T; [|discriminate].
    destruct (try_pair_cases _ _ _ _ _ _ _ T)
      as [(-> & r & Hr & C)|[(-> & r & r2 & Hr & Hr2 & C)|(-> & M & S1 & Ty & C)]].
    + intro H. destruct (IH _ _ _ _ _ H)
        as [(-> & evs & C2 & Fr)|(-> & b & i2 & j2 & a & evs & -> & Fr & C2 & R)].
      * left. split; [reflexivity|]. exists (PrOpen (pty_path i j) r :: evs).
        split; [rewrite C2, C, <- app_assoc; reflexivity|].
        now constructor.
      * right. split; [reflexivity|].
        exists ((i, j) :: b), i2, j2, a, (PrOpen (pty_path i j) r :: evs).
        split; [reflexivity|]. split; [now constructor|].
        split; [rewrite C2, C, <- app_assoc; reflexivity | exact R].
    + intro H. destruct (IH _ _ _ _ _ H)
        as [(-> & evs & C2 & Fr)|(-> & b & i2 & j2 & a & evs & -> & Fr & C2 & R)].
      * left. split; [reflexivity|].
        exists (PrOpen (pty_path i j) r :: PrOpen (tty_path i j) r2 :: evs).
        split; [rewrite C2, C, <- app_assoc; reflexivity|].
        now constructor.
      * right. split; [reflexivity|].
        exists ((i, j) :: b), i2, j2, a,
          (PrOpen (pty_path i j) r :: PrOpen (tty_path i j) r2 :: evs).
        split; [reflexivity|]. split; [now constructor|].
        split; [rewrite C2, C, <- app_assoc; reflexivity | exact R].
    + intro H. injection H as <- <- <-. right. split; [reflexivity|].
      exists [], i, j, l, []. split; [reflexivity|]. split; [constructor|].
      split; [exact C | auto].
Qed.

Lemma fruitless_opens (l : list (Z * Z)) (evs : list probe) :
  fruitless l evs ->
  Forall (fun e => exists p r, e = PrOpen p r) evs
  /\ (List.length l <= List.length evs <= 2 * List.length l)%nat.
Proof.
  induction 1 as [|i j r l evs Hr _ [IH1 IH2]|i j r r2 l evs Hr Hr2 _ [IH1 IH2]].
  - split; [constructor | simpl; lia].
  - split; [constructor; eauto | simpl; lia].
  - split; [repeat (constructor; eauto) | simpl; lia].
Qed.

Lemma open_fds_opens (evs : list probe) :
  forall held,
    Forall (fun e => exists p r, e = PrOpen p r) evs ->
    forall f, In f (open_fds evs held) <->
              In f held \/ exists p, In (PrOpen p f) evs /\ 0 <= f.
Proof.
  induction evs as [|e evs IH]; intros held A f.
  - simpl. split; [auto | intros [H|(p & [] & _)]; exact H].
  - inversion A as [|? ? (p & r & ->) A2]; subst. cbn [open_fds].
    rewrite (IH _ A2). destruct (0 <=? r) eqn:R.
    + apply Z.leb_le in R. rewrite in_app_iff. simpl. split.
      * intros [[H|[<-|[]]]|(q & I & Hf)]; eauto;
          try (right; exists p; split; [now left | exact R]).
      * intros [H|(q & [I|I] & Hf)]; eauto;
          try (injection I as <- <-; left; right; now left).
    + apply Z.leb_gt in R. split.
      * intros [H|(q & I & Hf)]; eauto;
          try (right; exists q; split; [now right|auto]).
      * intros [H|(q & [I|I] & Hf)]; eauto; try (injection I as <- <-; lia).
Qed.

(** X13. When [openpty] fails and [findpty] still returns 0, the master
    and the slave it returns are the two sides of one old-style pty: it
    opened /dev/ptyXY and then /dev/ttyXY for the same X in p..z and Y in
    0..9a..f, these two calls were its last, [name] holds the slave's
    path, and every pair before that one in the alphabet had failed. *)
Theorem findpty_returns_matching_pair (m sl : Z) (nm : string) (w w1 : sys)
    (m1 s1 : Z) (n1 : string) :
  findpty None m sl nm w = Some (0, (m1, s1, n1), w1) ->
  exists i j before after evs,
    legacy_ptys = before ++ (i, j) :: after
    /\ fruitless before evs
    /\ calls w1 = calls w ++ evs
         ++ [PrOpen (pty_path i j) m1; PrOpen (tty_path i j) s1]
    /\ n1 = tty_path i j /\ 0 <= m1 /\ 0 <= s1.
Proof.
  unfold findpty. rewrite findpty_i_steps.
  destruct (try_pairs legacy_ptys _ w) as [[[found v1] wa]|] eqn:T;
    [|discriminate].
  destruct found; [|discriminate]. intro H. injection H as <- <- <- <-.
  destruct (try_pairs_spec _ _ _ _ _ _ T)
    as [(D & _)|(_ & b & i & j & a & evs & L & Fr & C & M & S1 & Ty)];
    [discriminate|].
  exists i, j, b, a, evs. repeat split; auto.
Qed.

Lemma findpty_returns_matching_pair_witness :
  exists w1,
    findpty None (-1) (-1) EmptyString pty_sys
      = Some (0, (5, 6, "/dev/ttyp2"%string), w1)
    /\ exists i j before after evs,
         legacy_ptys = before ++ (i, j) :: after
         /\ fruitless before evs
         /\ calls w1 = calls pty_sys ++ evs
              ++ [PrOpen (pty_path i j) 5; PrOpen (tty_path i j) 6]
         /\ "/dev/ttyp2"%string = tty_path i j /\ 0 <= 5 /\ 0 <= 6.
Proof.
  eexists. split; [vm_compute; reflexivity|].
  eapply (findpty_returns_matching_pair (-1) (-1) EmptyString pty_sys).
  vm_compute. reflexivity.
Defined.

(** X14. [findpty] returns -1 only after it has gone through all 176
    old-style names in order, and leaves [name] alone.  It never closes
    anything: every master that opened while its slave did not is still
    open when it returns. *)
Theorem findpty_gives_up_after_all_names (m sl : Z) (nm : string) (w w1 : sys)
    (r m1 s1 : Z) (n1 : string) (held : list Z) :
  findpty None m sl nm w = Some (r, (m1, s1, n1), w1) ->
  r <> 0 ->
  r = -1 /\ n1 = nm
  /\ exists evs,
       calls w1 = calls w ++ evs
       /\ fruitless legacy_ptys evs
       /\ (176 <= List.length evs <= 352)%nat
       /\ (forall f, In f (open_fds evs held) <->
                      In f held \/ exists p, In (PrOpen p f) evs /\ 0 <= f).
Proof.
  unfold findpty. rewrite findpty_i_steps.
  destruct (try_pairs legacy_ptys _ w) as [[[found v1] wa]|] eqn:T;
    [|discriminate].
  destruct found; intro H; injection H as <- <- <- <- <-; [lia|].
  intros _. split; [reflexivity|]. split; [reflexivity|].
  destruct (try_pairs_spec _ _ _ _ _ _ T) as [(_ & evs & C & Fr)|(D & _)];
    [|discriminate].
  destruct (fruitless_opens _ _ Fr) as [A Len].
  change (List.length legacy_ptys) with 176%nat in Len.
  exists evs. split; [exact C|]. split; [exact Fr|]. split; [lia|].
  intro f. apply open_fds_opens. exact A.
Qed.

Lemma findpty_gives_up_after_all_names_witness :
  exists w1,
    findpty None (-1) (-1) EmptyString no_pty_sys
      = Some (-1, (-1, -1, EmptyString), w1)
    /\ exists evs,
         calls w1 = calls no_pty_sys ++ evs
         /\ fruitless legacy_ptys evs
         /\ (176 <= List.length evs <= 352)%nat.
Proof.
  eexists. split; [vm_compute; reflexivity|].
  destruct (findpty_gives_up_after_all_names (-1) (-1) EmptyString no_pty_sys
              _ (-1) (-1) (-1) EmptyString [] ltac:(vm_compute; reflexivity))
    as (_ & _ & evs & C & Fr & Ln & _).
  - lia.
  - exists evs. auto.
Defined.

Lemma try_pair_total (i j : Z) (v : pty_vars) (w : sys) :
  (2 <= List.length (opens w))%nat ->
  exists f v1 w1,
    try_pair i j v w = Some (f, v1, w1)
    /\ (List.length (opens w) <= List.length (opens w1) + 2)%nat.
Proof.
  intro L. unfold try_pair, do_open.
  destruct (opens w) as [|a [|b rest]]; simpl in L; try lia.
  destruct (0 <=? a); simpl; eexists _, _, _; (split; [reflexivity|]);
    simpl; lia.
Qed.

Lemma try_pairs_total (l : list (Z * Z)) :
  forall v w,
    (2 * List.length l <= List.length (opens w))%nat ->
    exists r, try_pairs l v w = Some r.
Proof.
  induction l as [|[i j] l IH]; intros v w L; cbn [try_pairs]; [eauto|].
  simpl in L.
  destruct (try_pair_total i j v w) as (f & v1 & w1 & -> & L1); [lia|].
  destruct f; [eauto|]. apply IH. lia.
Qed.

(** X15. [findpty] always returns, with 0 or -1: the two loops end
    whatever [open] answers (352 answers are enough for all the names). *)
Theorem findpty_returns (pty : option (Z * Z * string)) (m sl : Z)
    (nm : string) (w : sys) :
  (352 <= List.length (opens w))%nat ->
  exists r out w1,
    findpty pty m sl nm w = Some (r, out, w1) /\ (r = 0 \/ r = -1).
Proof.
  intro L. unfold findpty. destruct pty as [p|]; [eauto 6|].
  rewrite findpty_i_steps.
  destruct (try_pairs_total legacy_ptys (mk_pty m sl EmptyString) w)
    as [[[f v1] w1] ->].
  { change (List.length legacy_ptys) with 176%nat. lia. }
  destruct f; eauto 6.
Qed.

Lemma findpty_returns_witness :
  exists r out w1,
    findpty None (-1) (-1) EmptyString no_pty_sys = Some (r, out, w1)
    /\ (r = 0 \/ r = -1).
Proof.
  apply (findpty_returns None (-1) (-1) EmptyString no_pty_sys).
  unfold no_pty_sys. cbn [opens]. rewrite repeat_length. lia.
Defined.

(** ** isconsole *)

Lemma cut_comma_no_comma (s : string) : no_comma (cut_comma s).
Proof.
  induction s as [|c s IH]; simpl; [exact Logic.I|].
  destruct (Ascii.eqb c ",") eqn:E; simpl; [exact Logic.I|].
  split; [|exact IH]. intros ->. now rewrite Ascii.eqb_refl in E.
Qed.

Lemma cut_comma_length (s : string) :
  (String.length (cut_comma s) <= String.length s)%nat.
Proof.
  induction s as [|c s IH]; simpl; [lia|].
  destruct (Ascii.eqb c ","); simpl; lia.
Qed.

Lemma substring_length_le (s : string) :
  forall n m, (String.length (substring n m s) <= m)%nat.
Proof.
  induction s as [|c s IH]; intros n m; destruct n, m; simpl; try lia.
  - specialize (IH 0%nat m). lia.
  - apply IH.
  - apply (IH n (S m)).
Qed.

Lemma dev_name_fits (rlen : nat) (fmt : option string) (p : string) :
  no_comma (dev_name rlen fmt p)
  /\ (String.length (dev_name rlen fmt p) <= rlen - 1)%nat.
Proof.
  destruct fmt as [f|]; cbn [dev_name].
  - split; [apply cut_comma_no_comma|].
    etransitivity; [apply cut_comma_length | apply substring_length_le].
  - split; [exact Logic.I | simpl; lia].
Qed.

Lemma try_devs_spec (fmts : list (option string)) (p : string) (rlen : nat) :
  forall w v w1,
    try_devs fmts p rlen w = Some (v, w1) ->
    exists fails,
      Forall refused fails
      /\ match v with
         | IsConsole res =>
             exists f, 0 <= f
               /\ calls w1 = calls w ++ fails ++ [PrOpen res f; PrClose f]
               /\ no_comma res
               /\ (String.length res <= rlen - 1)%nat
         | _ => calls w1 = calls w ++ fails
         end.
Proof.
  induction fmts as [|fmt fmts IH]; intros w v w1; cbn [try_devs].
  - intro H. injection H as <- <-. exists []. split; [constructor|].
    now rewrite app_nil_r.
  - destruct (do_open _ w) as [[f wa]|] eqn:D; [|discriminate].
    apply do_open_calls in D. destruct D as [D _].
    destruct (0 <=? f) eqn:F.
    + apply Z.leb_le in F. intro H. injection H as <- <-.
      exists []. split; [constructor|]. exists f. split; [exact F|].
      split; [simpl; rewrite D, <- app_assoc; reflexivity|].
      apply dev_name_fits.
    + apply Z.leb_gt in F. intro H.
      destruct (IH _ _ _ H) as (fails & Fa & R).
      exists (PrOpen (dev_name rlen fmt p) f :: fails).
      split; [constructor; [eexists _, f; split; [reflexivity | exact F] | exact Fa]|].
      destruct v as [res|].
      * destruct R as (g & G & C & Nc & Ln). exists g. split; [exact G|].
        split; [rewrite C, D, <- app_assoc; reflexivity | auto].
      * rewrite R, D, <- app_assoc. reflexivity.
Qed.

Lemma isconsole_from_spec (tbl : list consdev_t) (s : string) (rlen : nat) :
  forall w v w1,
    isconsole_from tbl s rlen w = Some (v, w1) ->
    exists fails,
      Forall refused fails
      /\ match v with
         | IsConsole res =>
             exists f, 0 <= f
               /\ calls w1 = calls w ++ fails ++ [PrOpen res f; PrClose f]
               /\ no_comma res
               /\ (String.length res <= rlen - 1)%nat
         | _ => calls w1 = calls w ++ fails
         end.
Proof.
  induction tbl as [|c tbl IH]; intros w v w1; cbn [isconsole_from].
  - intro H. injection H as <- <-. exists []. split; [constructor|].
    now rewrite app_nil_r.
  - destruct (Nat.leb _ _); [apply IH|].
    destruct (negb _ || negb _); [apply IH|].
    destruct (try_devs _ _ _ w) as [[va wa]|] eqn:T; [|discriminate].
    destruct (try_devs_spec _ _ _ _ _ _ T) as (fails & Fa & R).
    destruct va as [res|].
    + intro H. injection H as <- <-. exists fails. auto.
    + intro H. destruct (IH _ _ _ H) as (fails2 & Fa2 & R2).
      exists (fails ++ fails2). split; [apply Forall_app; auto|].
      destruct v as [res|].
      * destruct R2 as (g & G & C & Nc & Ln). exists g. split; [exact G|].
        split; [rewrite C, R; now repeat rewrite <- app_assoc | auto].
      * rewrite R2, R. now rewrite app_assoc.
Qed.

(** X16. [isconsole] leaves no descriptor open: every [open] it makes
    either fails or is the last one and is followed by the [close] of what
    it returned.  The name it returns with 1 is the one that opened; it has
    no comma and fits the buffer of [rlen] bytes. *)
Theorem isconsole_leaves_nothing_open (s : string) (rlen : nat) (w w1 : sys)
    (v : verdict) :
  isconsole s rlen w = Some (v, w1) ->
  exists fails,
    Forall refused fails
    /\ match v with
       | IsConsole res =>
           exists f, 0 <= f
             /\ calls w1 = calls w ++ fails ++ [PrOpen res f; PrClose f]
             /\ no_comma res
             /\ (String.length res <= rlen - 1)%nat
       | _ => calls w1 = calls w ++ fails
       end.
Proof. apply isconsole_from_spec. Qed.

Lemma isconsole_leaves_nothing_open_witness :
  exists w1,
    isconsole "ttyS0,115200" NAME_SIZE serial_sys
      = Some (IsConsole "/dev/ttyS0", w1)
    /\ exists fails,
         Forall refused fails
         /\ exists f, 0 <= f
              /\ calls w1 = calls serial_sys ++ fails
                   ++ [PrOpen "/dev/ttyS0" f; PrClose f]
              /\ no_comma "/dev/ttyS0"
              /\ (String.length "/dev/ttyS0" <= NAME_SIZE - 1)%nat.
Proof.
  eexists. split; [vm_compute; reflexivity|].
  apply (isconsole_leaves_nothing_open "ttyS0,115200" NAME_SIZE serial_sys _
           (IsConsole "/dev/ttyS0")).
  vm_compute. reflexivity.
Defined.

(** ** One table entry per name *)

Lemma substring_whole (s : string) : substring 0 (String.length s) s = s.
Proof. induction s as [|c s IH]; simpl; [reflexivity | now rewrite IH]. Qed.

Lemma try_devs_not_console (fmts : list (option string)) (p : string)
    (rlen : nat) (w : sys) (tbl : list consdev_t) (s : string) :
  (forall w1, isconsole_from tbl s rlen w1 = Some (NotConsole, w1)) ->
  match try_devs fmts p rlen w with
  | Some (NotConsole, w1) => isconsole_from tbl s rlen w1
  | r => r
  end = try_devs fmts p rlen w.
Proof.
  intro H. destruct (try_devs fmts p rlen w) as [[[res|] w1]|]; auto.
Qed.

Lemma isconsole_entry (c : consdev_t) (d : ascii) (rest : string)
    (rlen : nat) (w : sys) :
  In c consdev ->
  is_digit d = true ->
  isconsole (String.append (cmdline c) (String d rest)) rlen w =
    try_devs [dev2 c; dev1 c] (String d rest) rlen w.
Proof.
  intros I Hd. unfold isconsole, consdev in *.
  assert (Sub : substring 0 (S (String.length rest) - 0) (String d rest)
                = String d rest).
  { simpl. now rewrite substring_whole. }
  assert (Sub1 : substring 0 (String.length rest - 0) rest = rest).
  { rewrite Nat.sub_0_r. apply substring_whole. }
  simpl in I.
  destruct I as [<-|[<-|[<-|[<-|[<-|[]]]]]];
    cbn [cmdline dev1 dev2 String.append isconsole_from String.length Nat.leb
         prefix get substring Nat.sub];
    repeat match goal with
           | |- context [Nat.leb (String.length rest) ?n] =>
               destruct (Nat.leb (String.length rest) n)
           end;
    decide_chars Hd; cbn [negb orb];
    rewrite ?Hd; rewrite ?substring_whole;
    change (is_digit "C") with false; change (is_digit "S") with false;
    cbn [negb orb];
    try reflexivity;
    match goal with
    | |- context [try_devs ?f ?p rlen w] =>
        destruct (try_devs f p rlen w) as [[[res|] w1]|]; reflexivity
    end.
Qed.

(** X17. A console name made of a table prefix and a number is handled
    by that table entry alone, although the prefixes ttySC, ttyS and tty
    overlap: [isconsole] tries the entry's [dev2] format, then its [dev1]
    format, and nothing else. *)
Theorem console_name_matches_one_entry (c : consdev_t) (d : ascii)
    (rest : string) (rlen : nat) (w : sys) :
  In c consdev ->
  is_digit d = true ->
  isconsole (String.append (cmdline c) (String d rest)) rlen w =
    try_devs [dev2 c; dev1 c] (String d rest) rlen w.
Proof. apply isconsole_entry. Qed.

Lemma console_name_matches_one_entry_witness :
  isconsole "ttyS0,115200" NAME_SIZE serial_sys =
    try_devs [Some "/dev/tts/%s"%string; Some "/dev/ttyS%s"%string]
      "0,115200" NAME_SIZE serial_sys.
Proof.
  apply (console_name_matches_one_entry ttyS_entry "0" ",115200" NAME_SIZE
           serial_sys).
  - simpl. tauto.
  - reflexivity.
Defined.

(** ** The options after the comma *)

Lemma append_empty (s : string) : String.append s EmptyString = s.
Proof. induction s as [|c s IH]; simpl; [reflexivity | now rewrite IH]. Qed.

Lemma cut_comma_substring (x : string) :
  forall n,
    (String.length (cut_comma x) <= n)%nat ->
    cut_comma (substring 0 n x) = cut_comma x.
Proof.
  induction x as [|c x IH]; intros n L.
  - destruct n; reflexivity.
  - simpl in L. destruct (Ascii.eqb c ",") eqn:E.
    + destruct n; simpl; rewrite ?E; reflexivity.
    + simpl in L. destruct n as [|n]; [lia|]. simpl. rewrite E.
      f_equal. apply IH. lia.
Qed.

Lemma table_format (c : consdev_t) (f : string) (arg : string) :
  In c consdev -> dev1 c = Some f \/ dev2 c = Some f ->
  cut_comma (sprintf_s f arg) = sprintf_s f (cut_comma arg).
Proof.
  intros I H. unfold consdev in I. simpl in I.
  destruct I as [<-|[<-|[<-|[<-|[<-|[]]]]]]; simpl in H;
    destruct H as [H|H]; try discriminate H; injection H as <-;
    cbn [sprintf_s cut_comma]; rewrite !append_empty; reflexivity.
Qed.

Lemma name_tried (c : consdev_t) (f arg : string) (rlen : nat) :
  In c consdev -> dev1 c = Some f \/ dev2 c = Some f ->
  (String.length (sprintf_s f (cut_comma arg)) < rlen)%nat ->
  cut_comma (snprintf_s rlen f arg) = sprintf_s f (cut_comma arg).
Proof.
  intros I H L. unfold snprintf_s.
  rewrite cut_comma_substring; rewrite (table_format c f arg I H);
    [reflexivity | lia].
Qed.

(** X19. The options that follow a comma in a console name (as in
    ttyS0,115200n8) are dropped from the device name; the [dev2] name is
    tried first, and the [dev1] name only when that does not open. *)
Theorem console_options_are_dropped (c : consdev_t) (f1 f2 : string)
    (d : ascii) (rest : string) (rlen : nat) (w : sys) (r r2 : Z)
    (q : list Z) :
  In c consdev ->
  dev1 c = Some f1 -> dev2 c = Some f2 ->
  is_digit d = true ->
  (String.length (sprintf_s f1 (cut_comma (String d rest))) < rlen)%nat ->
  (String.length (sprintf_s f2 (cut_comma (String d rest))) < rlen)%nat ->
  opens w = r :: r2 :: q ->
  let n1 := sprintf_s f1 (cut_comma (String d rest)) in
  let n2 := sprintf_s f2 (cut_comma (String d rest)) in
  isconsole (String.append (cmdline c) (String d rest)) rlen w =
    Some (if 0 <=? r
          then (IsConsole n2,
                mk_sys (r2 :: q) (calls w ++ [PrOpen n2 r; PrClose r]))
          else if 0 <=? r2
          then (IsConsole n1,
                mk_sys q (calls w ++ [PrOpen n2 r; PrOpen n1 r2; PrClose r2]))
          else (NotConsole,
                mk_sys q (calls w ++ [PrOpen n2 r; PrOpen n1 r2]))).
Proof.
  intros I D1 D2 Hd L1 L2 Q n1 n2.
  rewrite (isconsole_entry c d rest rlen w I Hd), D1, D2.
  cbn [try_devs dev_name].
  rewrite (name_tried c f2 _ rlen I (or_intror D2) L2).
  rewrite (name_tried c f1 _ rlen I (or_introl D1) L1).
  fold n1 n2. unfold do_open. rewrite Q.
  destruct (0 <=? r);
    [unfold call; cbn [opens calls]; rewrite <- app_assoc; reflexivity|].
  cbn [opens].
  destruct (0 <=? r2); unfold call; cbn [opens calls];
    repeat rewrite <- app_assoc; reflexivity.
Qed.

Lemma console_options_are_dropped_witness :
  isconsole "ttyS0,115200" NAME_SIZE serial_sys =
    Some (IsConsole "/dev/ttyS0",
          mk_sys [] [PrOpen "/dev/tts/0" (-1); PrOpen "/dev/ttyS0" 7;
                     PrClose 7]).
Proof.
  apply (console_options_are_dropped ttyS_entry "/dev/ttyS%s" "/dev/tts/%s"
           "0" ",115200" NAME_SIZE serial_sys (-1) 7 []).
  - simpl. tauto.
  - reflexivity.
  - reflexivity.
  - reflexivity.
  - vm_compute. lia.
  - vm_compute. lia.
  - reflexivity.
Defined.

(** X18. The [dev2] format of the ttyB entry is a null pointer: for a
    console named ttyB and a number, the first name [isconsole] opens is
    the empty one, and it returns 1 with it should it open.  When it does
    not, [isconsole] opens /dev/ttyB with the number, without what follows
    a comma, and returns 1 with this name when it opens and 0 when not. *)
Theorem ttyB_found_by_dev1_name (d : ascii) (rest : string) (rlen : nat)
    (w : sys) (r r2 : Z) (q : list Z) :
  is_digit d = true ->
  (String.length (String.append "/dev/ttyB" (cut_comma (String d rest)))
   < rlen)%nat ->
  opens w = r :: r2 :: q ->
  let n1 := String.append "/dev/ttyB" (cut_comma (String d rest)) in
  isconsole (String.append "ttyB" (String d rest)) rlen w =
    Some (if 0 <=? r
          then (IsConsole EmptyString,
                mk_sys (r2 :: q) (calls w ++ [PrOpen EmptyString r; PrClose r]))
          else if 0 <=? r2
          then (IsConsole n1,
                mk_sys q (calls w
                          ++ [PrOpen EmptyString r; PrOpen n1 r2; PrClose r2]))
          else (NotConsole,
                mk_sys q (calls w ++ [PrOpen EmptyString r; PrOpen n1 r2]))).
Proof.
  intros Hd L Q n1.
  assert (I : In (mk_consdev "ttyB" (Some "/dev/ttyB%s"%string) None) consdev)
    by now left.
  assert (E : sprintf_s "/dev/ttyB%s" (cut_comma (String d rest)) = n1).
  { unfold n1. cbn [sprintf_s]. now rewrite append_empty. }
  pose proof (isconsole_entry _ d rest rlen w I Hd) as K.
  cbn [cmdline dev1 dev2 try_devs dev_name] in K. rewrite K. clear K.
  rewrite (name_tried _ "/dev/ttyB%s" _ rlen I (or_introl eq_refl))
    by (rewrite E; exact L).
  rewrite E. unfold do_open. rewrite Q.
  destruct (0 <=? r);
    [unfold call; cbn [opens calls]; rewrite <- app_assoc; reflexivity|].
  cbn [opens].
  destruct (0 <=? r2); unfold call; cbn [opens calls];
    repeat rewrite <- app_assoc; reflexivity.
Qed.

Lemma ttyB_found_by_dev1_name_witness :
  isconsole "ttyB0,9600" NAME_SIZE serial_sys =
    Some (IsConsole "/dev/ttyB0",
          mk_sys [] [PrOpen EmptyString (-1); PrOpen "/dev/ttyB0" 7;
                     PrClose 7]).
Proof.
  apply (ttyB_found_by_dev1_name "0" ",9600" NAME_SIZE serial_sys (-1) 7 []).
  - reflexivity.
  - vm_compute. lia.
  - reflexivity.
Defined.

(** ** consolenames *)

Lemma refused_dev_probe (evs : list probe) :
  Forall refused evs -> Forall dev_probe evs.
Proof.
  apply Forall_impl. intros e (p & r & -> & _). exact Logic.I.
Qed.

Lemma isconsole_probes (s : string) (w w1 : sys) (v : verdict) :
  isconsole s NAME_SIZE w = Some (v, w1) ->
  exists evs,
    calls w1 = calls w ++ evs /\ Forall dev_probe evs
    /\ match v with IsConsole res => probed evs res | _ => True end.
Proof.
  intro H. destruct (isconsole_from_spec _ _ _ _ _ _ H) as (fails & Fa & R).
  apply refused_dev_probe in Fa.
  destruct v as [res|].
  - destruct R as (f & F & C & Nc & Ln).
    exists (fails ++ [PrOpen res f; PrClose f]). split; [exact C|].
    split; [apply Forall_app; split; [exact Fa | repeat constructor]|].
    split; [|split; [exact Nc | unfold NAME_SIZE in *; lia]].
    exists f. split; [exact F|].
    split; apply in_or_app; right; simpl; auto.
  - exists fails. auto.
Qed.

Lemma probed_more (a b : list probe) (x : string) :
  probed b x -> probed (a ++ b) x.
Proof.
  intros ((f & F & I1 & I2) & R). split; [|exact R].
  exists f. split; [exact F|]. split; apply in_or_app; now right.
Qed.

Lemma probed_less (a b : list probe) (x : string) :
  probed a x -> probed (a ++ b) x.
Proof.
  intros ((f & F & I1 & I2) & R). split; [|exact R].
  exists f. split; [exact F|]. split; apply in_or_app; now left.
Qed.

Lemma existsb_eqb_false (x : string) (l : list string) :
  existsb (String.eqb x) l = false -> ~ In x l.
Proof.
  intros E I. assert (T : existsb (String.eqb x) l = true).
  { apply existsb_exists. exists x. split; [exact I | apply String.eqb_refl]. }
  congruence.
Qed.

Lemma scan_spec (max_consoles : Z) (k : nat) :
  forall st w st1 w1,
    scan k max_consoles st w = Some (Done st1 w1) ->
    exists evs more,
      calls w1 = calls w ++ evs /\ Forall dev_probe evs
      /\ found st1 = found st ++ more
      /\ Forall (probed evs) more
      /\ (NoDup (found st) -> NoDup (found st1))
      /\ (Z.of_nat (List.length (found st)) < max_consoles ->
          Z.of_nat (List.length (found st1)) <= max_consoles).
Proof.
  induction k as [|p IH]; intros st w st1 w1; cbn [scan].
  - intro H. injection H as <- <-. exists [], [].
    rewrite !app_nil_r. repeat split; auto. lia.
  - destruct (is_blank _).
    { intro H. apply IH in H. exact H. }
    destruct (prefix _ _); [|apply IH].
    destruct (isconsole _ _ w) as [[v wa]|] eqn:C; [|discriminate].
    destruct (isconsole_probes _ _ _ _ C) as (ev1 & C1 & D1 & P1).
    assert (K : forall st2,
               found st2 = found st ->
               scan p max_consoles st2 wa = Some (Done st1 w1) ->
               exists evs more,
                 calls w1 = calls w ++ evs /\ Forall dev_probe evs
                 /\ found st1 = found st ++ more
                 /\ Forall (probed evs) more
                 /\ (NoDup (found st) -> NoDup (found st1))
                 /\ (Z.of_nat (List.length (found st)) < max_consoles ->
                     Z.of_nat (List.length (found st1)) <= max_consoles)).
    { intros st2 E H. apply IH in H.
      destruct H as (evs & more & C2 & D2 & Fo & Pr & Nd & Ln).
      rewrite E in *. exists (ev1 ++ evs), more.
      split; [rewrite C2, C1; now rewrite app_assoc|].
      split; [apply Forall_app; auto|]. split; [exact Fo|].
      split; [|auto].
      eapply Forall_impl; [|exact Pr]. intros x. apply probed_more. }
    destruct v as [res|].
    + destruct (existsb _ _) eqn:Ex; [apply K; reflexivity|].
      apply existsb_eqb_false in Ex.
      destruct (max_consoles <=? _) eqn:Mx.
      * intro H. injection H as <- <-. exists ev1, [res]. cbn [found].
        split; [exact C1|]. split; [exact D1|]. split; [reflexivity|].
        split; [constructor; [exact P1 | constructor]|].
        split.
        -- intro Nd. apply NoDup_app; [exact Nd | repeat constructor; auto |].
           intros x Ix [<-|[]]. contradiction.
        -- rewrite length_app. simpl. lia.
      * apply Z.leb_gt in Mx. intro H. apply IH in H.
        destruct H as (evs & more & C2 & D2 & Fo & Pr & Nd & Ln).
        cbn [found] in *. exists (ev1 ++ evs), (res :: more).
        split; [rewrite C2, C1; now rewrite app_assoc|].
        split; [apply Forall_app; auto|].
        split; [rewrite Fo, <- app_assoc; reflexivity|].
        split; [constructor; [now apply probed_less|]|].
        { eapply Forall_impl; [|exact Pr]. intros x. apply probed_more. }
        split.
        -- intro N0. apply Nd.
           apply NoDup_app; [exact N0 | repeat constructor; auto |].
           intros x Ix [<-|[]]. contradiction.
        -- intros _. apply Ln. exact Mx.
    + apply K. reflexivity.
Qed.

Lemma guess_spec (l : list string) :
  forall w n names w1,
    guess l w = Some (Done (n, names) w1) ->
    exists evs,
      calls w1 = calls w ++ evs /\ Forall dev_probe evs
      /\ ((n = 0 /\ names = [])
          \/ (n = 1 /\ exists res, names = [res] /\ probed evs res)).
Proof.
  induction l as [|d l IH]; intros w n names w1; cbn [guess].
  - intro H. injection H as <- <- <-. exists []. rewrite app_nil_r.
    split; [reflexivity|]. split; [constructor | now left].
  - destruct (isconsole d NAME_SIZE w) as [[v wa]|] eqn:C; [|discriminate].
    destruct (isconsole_probes _ _ _ _ C) as (ev1 & C1 & D1 & P1).
    destruct v as [res|].
    + intro H. injection H as <- <- <-. exists ev1. split; [exact C1|].
      split; [exact D1|]. right. split; [reflexivity|]. eauto.
    + intro H. apply IH in H.
      destruct H as (evs & C2 & D2 & R). exists (ev1 ++ evs).
      split; [rewrite C2, C1; now rewrite app_assoc|].
      split; [apply Forall_app; auto|].
      destruct R as [R|(-> & res & -> & Pr)]; [now left|].
      right. split; [reflexivity|]. exists res. split; [reflexivity|].
      now apply probed_more.
Qed.

(** The part of [consolenames] that reads /proc/cmdline. *)
Lemma consolenames_front (max_consoles : Z) (e : proc_env) (w : sys)
    (f : Z) (q : list Z) :
  0 <= stat_proc e ->
  (same_dev e = true -> 0 <= mount_ret e) ->
  opens w = f :: q ->
  consolenames max_consoles e w =
    match (if f <? 0 then None else read_cmdline e) with
    | None => Some (Done (0, []) (mk_sys q (calls w ++ proc_calls e f)))
    | Some data =>
        if Nat.ltb (KERNEL_COMMAND_LENGTH - 1) (List.length data) then None
        else
          match scan (List.length data) max_consoles (mk_scan data [] false)
                  (mk_sys q (calls w ++ proc_calls e f)) with
          | None => None
          | Some (Done st w1) =>
              if 0 <? Z.of_nat (List.length (found st))
              then Some (Done (Z.of_nat (List.length (found st)), found st) w1)
              else guess defcons w1
          end
    end.
Proof.
  intros St Mr Q. unfold consolenames, proc_calls, do_open, call.
  settle (stat_proc e <? 0).
  destruct (same_dev e).
  - specialize (Mr eq_refl). settle (mount_ret e <? 0).
    cbn [andb opens calls]. rewrite Q.
    destruct (f <? 0); cbn [opens calls app];
      repeat rewrite <- app_assoc; reflexivity.
  - cbn [andb opens calls]. rewrite Q.
    destruct (f <? 0); cbn [opens calls app];
      repeat rewrite <- app_assoc; reflexivity.
Qed.

Lemma consolenames_early (max_consoles : Z) (e : proc_env) (w : sys) :
  (stat_proc e < 0 ->
   consolenames max_consoles e w = Some (Done (0, []) w))
  /\ (0 <= stat_proc e -> same_dev e = true -> mount_ret e < 0 ->
      consolenames max_consoles e w =
        Some (Done (-1, []) (call (PrMount (mount_ret e)) w)))
  /\ (0 <= stat_proc e -> (same_dev e = true -> 0 <= mount_ret e) ->
      opens w = [] -> consolenames max_consoles e w = None).
Proof.
  unfold consolenames, do_open. repeat split.
  - intro St. now settle (stat_proc e <? 0).
  - intros St -> Mr. settle (stat_proc e <? 0). settle (mount_ret e <? 0).
    reflexivity.
  - intros St Mr Q. settle (stat_proc e <? 0).
    destruct (same_dev e).
    + specialize (Mr eq_refl). settle (mount_ret e <? 0).
      cbn [andb call opens]. now rewrite Q.
    + cbn [andb]. now rewrite Q.
Qed.

Lemma try_devs_first_open (fmts : list (option string)) (p : string)
    (rlen : nat) :
  forall w,
    try_devs fmts p rlen w =
      match first_open (map (fun f => dev_name rlen f p) fmts) w with
      | None => None
      | Some (Some res, w1) => Some (IsConsole res, w1)
      | Some (None, w1) => Some (NotConsole, w1)
      end.
Proof.
  induction fmts as [|f fmts IH]; intro w; cbn [try_devs map first_open];
    [reflexivity|].
  destruct (do_open _ w) as [[a wa]|]; [|reflexivity].
  destruct (0 <=? a); [reflexivity | apply IH].
Qed.

Lemma first_open_app (a b : list string) :
  forall w,
    first_open (a ++ b) w =
      match first_open a w with
      | Some (None, w1) => first_open b w1
      | r => r
      end.
Proof.
  induction a as [|p a IH]; intro w; cbn [app first_open]; [reflexivity|].
  destruct (do_open p w) as [[f wa]|]; [|reflexivity].
  destruct (0 <=? f); [reflexivity | apply IH].
Qed.

Lemma first_open_none (l : list string) :
  forall w w1,
    first_open l w = Some (None, w1) ->
    exists fails, calls w1 = calls w ++ fails /\ refusals l fails.
Proof.
  induction l as [|p l IH]; intros w w1; cbn [first_open].
  - intro H. injection H as <-. exists []. split; [now rewrite app_nil_r|].
    constructor.
  - destruct (do_open p w) as [[f wa]|] eqn:D; [|discriminate].
    apply do_open_calls in D. destruct D as [D _].
    destruct (0 <=? f) eqn:F; [discriminate|]. apply Z.leb_gt in F.
    intro H. destruct (IH _ _ H) as (fails & C & R).
    exists (PrOpen p f :: fails).
    split; [rewrite C, D, <- app_assoc; reflexivity|].
    constructor; [eauto | exact R].
Qed.

(** A default console is the prefix of a table entry and the number 0. *)
Lemma default_console (c : consdev_t) (w : sys) :
  In c consdev ->
  isconsole (String.append (cmdline c) "0") NAME_SIZE w =
    match first_open [dev_name NAME_SIZE (dev2 c) "0";
                      dev_name NAME_SIZE (dev1 c) "0"] w with
    | None => None
    | Some (Some res, w1) => Some (IsConsole res, w1)
    | Some (None, w1) => Some (NotConsole, w1)
    end.
Proof.
  intro I.
  rewrite (isconsole_entry c "0" EmptyString NAME_SIZE w I eq_refl).
  apply try_devs_first_open.
Qed.

Lemma guess_table (cs : list consdev_t) :
  Forall (fun c => In c consdev) cs ->
  forall w,
    guess (map (fun c => String.append (cmdline c) "0") cs) w =
      match first_open
              (flat_map (fun c => [dev_name NAME_SIZE (dev2 c) "0";
                                   dev_name NAME_SIZE (dev1 c) "0"]) cs) w with
      | None => None
      | Some (Some res, w1) => Some (Done (1, [res]) w1)
      | Some (None, w1) => Some (Done (0, []) w1)
      end.
Proof.
  induction 1 as [|c cs I _ IH]; intro w; [reflexivity|].
  cbn [map guess flat_map]. rewrite (default_console c w I), first_open_app.
  destruct (first_open _ w) as [[[res|] w1]|]; try reflexivity.
  apply IH.
Qed.

Lemma guess_defcons (w : sys) :
  guess defcons w =
    match first_open default_devices w with
    | None => None
    | Some (Some res, w1) => Some (Done (1, [res]) w1)
    | Some (None, w1) => Some (Done (0, []) w1)
    end.
Proof.
  apply (guess_table
           [ mk_consdev "tty" (Some "/dev/tty%s"%string) (Some "/dev/vc/%s"%string);
             mk_consdev "hvc" (Some "/dev/hvc%s"%string) (Some "/dev/hvc/%s"%string);
             mk_consdev "ttyS" (Some "/dev/ttyS%s"%string) (Some "/dev/tts/%s"%string);
             mk_consdev "ttySC" (Some "/dev/ttySC%s"%string) (Some "/dev/ttsc/%s"%string);
             mk_consdev "ttyB" (Some "/dev/ttyB%s"%string) None ]).
  repeat (constructor; [simpl; tauto|]). constructor.
Qed.

(** X20. The guess of a default console opens /dev/vc/0, /dev/tty0,
    /dev/hvc/0, /dev/hvc0, /dev/tts/0, /dev/ttyS0, /dev/ttsc/0,
    /dev/ttySC0, the empty name (from the null [dev2] format of ttyB) and
    /dev/ttyB0 in this order; the first that opens is the one console and
    the guess returns 1, and when none of the ten opens it returns 0. *)
Theorem defaults_are_tried_in_order (w : sys) :
  guess defcons w =
    match first_open default_devices w with
    | None => None
    | Some (Some res, w1) => Some (Done (1, [res]) w1)
    | Some (None, w1) => Some (Done (0, []) w1)
    end.
Proof. apply guess_defcons. Qed.

Lemma consolenames_split (max_consoles : Z) (e : proc_env) (w : sys)
    (o : outcome (Z * list string)) :
  consolenames max_consoles e w = Some o ->
  (stat_proc e < 0 /\ o = Done (0, []) w)
  \/ (0 <= stat_proc e /\ same_dev e = true /\ mount_ret e < 0
      /\ o = Done (-1, []) (call (PrMount (mount_ret e)) w))
  \/ (0 <= stat_proc e /\ (same_dev e = true -> 0 <= mount_ret e)
      /\ exists f q, opens w = f :: q).
Proof.
  intro H. destruct (consolenames_early max_consoles e w) as (E1 & E2 & E3).
  destruct (Z_lt_ge_dec (stat_proc e) 0) as [St|St].
  { left. rewrite (E1 St) in H. injection H as <-. auto. }
  right. destruct (same_dev e) eqn:Sd.
  - destruct (Z_lt_ge_dec (mount_ret e) 0) as [Mr|Mr].
    + left. rewrite E2 in H by (auto; lia). injection H as <-.
      repeat split; auto; lia.
    + right. split; [lia|]. split; [intros _; lia|].
      destruct (opens w) as [|f q] eqn:Q; [|eauto].
      rewrite E3 in H; [discriminate | lia | intros _; lia | reflexivity].
  - right. split; [lia|]. split; [discriminate|].
    destruct (opens w) as [|f q] eqn:Q; [|eauto].
    rewrite E3 in H; [discriminate | lia | discriminate | reflexivity].
Qed.

(** X21. What [consolenames] returns is between -1 and [max_consoles];
    when it is positive it is the number of names in the table, the names
    are all different, and each of them is a device that [isconsole]
    opened and closed again, without a comma and short enough for the
    [name] field. *)
Theorem console_table_bounded_and_distinct (max_consoles : Z) (e : proc_env)
    (w w1 : sys) (n : Z) (l : list string) :
  consolenames max_consoles e w = Some (Done (n, l) w1) ->
  1 <= max_consoles ->
  -1 <= n <= max_consoles
  /\ (n <= 0 -> l = [])
  /\ (0 < n -> n = Z.of_nat (List.length l))
  /\ NoDup l
  /\ exists evs, calls w1 = calls w ++ evs /\ Forall (probed evs) l.
Proof.
  intros H Mx.
  assert (Nil : forall wz, n = 0 \/ n = -1 -> l = [] -> calls w1 = calls wz ->
                -1 <= n <= max_consoles /\ (n <= 0 -> l = [])
                /\ (0 < n -> n = Z.of_nat (List.length l)) /\ NoDup l
                /\ exists evs, calls w1 = calls wz ++ evs /\ Forall (probed evs) l).
  { intros wz Hn -> C. split; [lia|]. split; [auto|]. split; [lia|].
    split; [constructor|]. exists []. rewrite app_nil_r. auto. }
  destruct (consolenames_split _ _ _ _ H)
    as [(St & E)|[(St & Sd & Mr & E)|(St & Mr & f & q & Q)]].
  - injection E as -> -> ->. apply (Nil w); auto.
  - injection E as -> -> ->.
    split; [lia|]. split; [auto|]. split; [lia|]. split; [constructor|].
    exists [PrMount (mount_ret e)]. split; [reflexivity | constructor].
  - rewrite (consolenames_front _ _ _ _ _ St Mr Q) in H.
    set (w0 := mk_sys q (calls w ++ proc_calls e f)) in *.
    destruct (if f <? 0 then None else read_cmdline e) as [data|].
    2:{ injection H as <- <- <-.
        split; [lia|]. split; [auto|]. split; [lia|]. split; [constructor|].
        exists (proc_calls e f). split; [reflexivity | constructor]. }
    destruct (Nat.ltb _ _); [discriminate|].
    destruct (scan _ _ _ w0) as [[st wa]|] eqn:Sc; [|discriminate].
    destruct (scan_spec _ _ _ _ _ _ Sc)
      as (evs & more & C & Dp & Fo & Pr & Nd & Ln).
    cbn [found app] in Fo, Nd, Ln. simpl in Ln.
    destruct (0 <? Z.of_nat (List.length (found st))) eqn:Pos.
    + apply Z.ltb_lt in Pos. injection H as <- <- <-.
      split; [split; [lia | apply Ln; lia]|]. split; [lia|].
      split; [auto|]. split; [apply Nd; constructor|].
      exists (proc_calls e f ++ evs).
      split; [rewrite C; unfold w0; cbn [calls]; now rewrite app_assoc|].
      rewrite Fo. eapply Forall_impl; [|exact Pr].
      intros x. apply probed_more.
    + destruct (guess_spec _ _ _ _ _ H)
        as (ev2 & C2 & D2 & [(-> & ->)|(-> & res & -> & Pr2)]).
      * split; [lia|]. split; [auto|]. split; [lia|]. split; [constructor|].
        exists ((proc_calls e f ++ evs) ++ ev2).
        split; [rewrite C2, C; unfold w0; cbn [calls];
                now repeat rewrite app_assoc|].
        constructor.
      * split; [lia|]. split; [lia|]. split; [reflexivity|].
        split; [repeat constructor; auto|].
        exists ((proc_calls e f ++ evs) ++ ev2).
        split; [rewrite C2, C; unfold w0; cbn [calls];
                now repeat rewrite app_assoc|].
        constructor; [now apply probed_more | constructor].
Qed.

Lemma console_table_bounded_and_distinct_witness :
  exists w1,
    consolenames MAX_CONSOLES boot_proc boot_sys
      = Some (Done (2, ["/dev/ttyS0"; "/dev/tty0"]%string) w1)
    /\ -1 <= 2 <= MAX_CONSOLES
    /\ NoDup ["/dev/ttyS0"; "/dev/tty0"]%string
    /\ exists evs,
         calls w1 = calls boot_sys ++ evs
         /\ Forall (probed evs) ["/dev/ttyS0"; "/dev/tty0"]%string.
Proof.
  eexists. split; [vm_compute; reflexivity|].
  destruct (console_table_bounded_and_distinct MAX_CONSOLES boot_proc boot_sys
              _ 2 ["/dev/ttyS0"; "/dev/tty0"]%string
              ltac:(vm_compute; reflexivity))
    as (A & _ & _ & D & E).
  - unfold MAX_CONSOLES. lia.
  - split; [exact A|]. split; [exact D | exact E].
Defined.

(** X22. [consolenames] returns -1 exactly when /proc had to be mounted
    and [mount] failed.  When /proc is missing, or /proc/cmdline cannot be
    opened or read, it returns 0 and has opened no device, so the default
    consoles are not tried.  It returns 0 in one more case only: after it
    has opened each of the ten default names in turn and none of them
    opened. *)
Theorem consolenames_returns_zero_when (max_consoles : Z) (e : proc_env)
    (w w1 : sys) (n : Z) (l : list string) :
  consolenames max_consoles e w = Some (Done (n, l) w1) ->
  let unreadable :=
    stat_proc e < 0
    \/ ((same_dev e = true -> 0 <= mount_ret e)
        /\ exists f q, opens w = f :: q
                       /\ (f < 0 \/ read_cmdline e = None)) in
  (n = -1 <-> 0 <= stat_proc e /\ same_dev e = true /\ mount_ret e < 0)
  /\ (unreadable ->
      n = 0 /\ exists evs, calls w1 = calls w ++ evs /\ Forall proc_call evs)
  /\ (n = 0 ->
      unreadable
      \/ exists before fails,
           calls w1 = calls w ++ before ++ fails
           /\ refusals default_devices fails).
Proof.
  intros H unreadable. unfold unreadable. clear unreadable.
  destruct (consolenames_split _ _ _ _ H)
    as [(St & E)|[(St & Sd & Mr & E)|(St & Mr & f & q & Q)]].
  - injection E as -> -> ->. split; [split; [discriminate | lia]|].
    split; [|auto]. intros _. split; [reflexivity|].
    exists []. rewrite app_nil_r. auto.
  - injection E as -> -> ->. split; [split; [auto | intros; reflexivity]|].
    split; [|discriminate].
    intros [St2|(M2 & _)]; [lia | specialize (M2 Sd); lia].
  - rewrite (consolenames_front _ _ _ _ _ St Mr Q) in H.
    set (w0 := mk_sys q (calls w ++ proc_calls e f)) in *.
    assert (Pc : Forall proc_call (proc_calls e f)).
    { unfold proc_calls.
      repeat (apply Forall_app; split);
        [destruct (same_dev e) | | destruct (f <? 0) | destruct (same_dev e)];
        repeat constructor. }
    split.
    { split; [|intros (_ & Sd & Mr2); specialize (Mr Sd); lia].
      intros ->. exfalso.
      destruct (if f <? 0 then None else read_cmdline e) as [data|];
        [|discriminate].
      destruct (Nat.ltb _ _); [discriminate|].
      destruct (scan _ _ _ w0) as [[st wa]|] eqn:Sc; [|discriminate].
      destruct (0 <? Z.of_nat (List.length (found st))) eqn:Pos.
      - apply Z.ltb_lt in Pos. injection H as H _ _. lia.
      - destruct (guess_spec _ _ _ _ _ H) as (_ & _ & _ & [(G & _)|(G & _)]);
          discriminate. }
    destruct (if f <? 0 then None else read_cmdline e) as [data|] eqn:Rd.
    2:{ injection H as <- <- <-. split.
        - intros _. split; [reflexivity|].
          exists (proc_calls e f). split; [reflexivity | exact Pc].
        - intros _. left. right. split; [exact Mr|].
          exists f, q. split; [exact Q|].
          destruct (f <? 0) eqn:F; [left; now apply Z.ltb_lt | now right]. }
    assert (F : 0 <= f /\ read_cmdline e = Some data).
    { destruct (f <? 0) eqn:F; [discriminate|]. apply Z.ltb_ge in F. auto. }
    destruct F as [F Rd2].
    split.
    { intros [St2|(_ & f2 & q2 & Q2 & [F2|R2])]; [lia| |congruence].
      rewrite Q in Q2. injection Q2 as <- <-. lia. }
    intros ->. right.
    destruct (Nat.ltb _ _); [discriminate|].
    destruct (scan _ _ _ w0) as [[st wa]|] eqn:Sc; [|discriminate].
    destruct (scan_spec _ _ _ _ _ _ Sc) as (evs & more & C & _).
    destruct (0 <? Z.of_nat (List.length (found st))) eqn:Pos.
    + apply Z.ltb_lt in Pos. injection H as H _ _. lia.
    + rewrite guess_defcons in H.
      destruct (first_open default_devices wa) as [[[res|] wb]|] eqn:Fo;
        try discriminate H.
      injection H as _ <-.
      destruct (first_open_none _ _ _ Fo) as (fails & C2 & R).
      exists (proc_calls e f ++ evs), fails. split; [|exact R].
      rewrite C2, C. unfold w0. cbn [calls]. now repeat rewrite <- app_assoc.
Qed.

Lemma consolenames_returns_zero_when_witness :
  exists w1,
    consolenames MAX_CONSOLES quiet_proc deaf_sys = Some (Done (0, []) w1)
    /\ ((stat_proc quiet_proc < 0
         \/ ((same_dev quiet_proc = true -> 0 <= mount_ret quiet_proc)
             /\ exists f q, opens deaf_sys = f :: q
                            /\ (f < 0 \/ read_cmdline quiet_proc = None)))
        \/ exists before fails,
             calls w1 = calls deaf_sys ++ before ++ fails
             /\ refusals default_devices fails).
Proof.
  eexists. split; [vm_compute; reflexivity|].
  destruct (consolenames_returns_zero_when MAX_CONSOLES quiet_proc deaf_sys
              _ 0 [] ltac:(vm_compute; reflexivity))
    as (_ & _ & C).
  apply C. reflexivity.
Defined.

(** ** /proc is left as it was found *)

Lemma proc_calls_mounts (e : proc_env) (f : Z) :
  (In PrUmount (proc_calls e f) <-> same_dev e = true)
  /\ (forall r, In (PrMount r) (proc_calls e f) <->
                same_dev e = true /\ r = mount_ret e)
  /\ Forall proc_call (proc_calls e f).
Proof.
  unfold proc_calls.
  destruct (same_dev e), (f <? 0); simpl; (split; [|split]);
    try (repeat constructor; fail);
    try intro r; intuition (try discriminate; try congruence).
Qed.

(** X23. [consolenames] leaves /proc as it found it: it calls [umount]
    exactly when its own [mount] succeeded, and it does so before the
    first device is opened; the calls on /proc come first, the calls on
    devices after them. *)
Theorem proc_unmounted_before_probing (max_consoles : Z) (e : proc_env)
    (w : sys) (o : outcome (Z * list string)) :
  consolenames max_consoles e w = Some o ->
  exists pre post,
    calls (after o) = calls w ++ pre ++ post
    /\ Forall proc_call pre
    /\ Forall dev_probe post
    /\ (In PrUmount pre <-> exists r, In (PrMount r) pre /\ 0 <= r)
    /\ (forall r, In (PrMount r) pre -> same_dev e = true /\ r = mount_ret e).
Proof.
  intro H.
  destruct (consolenames_split _ _ _ _ H)
    as [(St & E)|[(St & Sd & Mr & E)|(St & Mr & f & q & Q)]].
  - subst o. exists [], []. simpl. rewrite app_nil_r.
    repeat split; auto; try constructor; try tauto.
    intros (r & [] & _).
  - subst o. exists [PrMount (mount_ret e)], []. simpl.
    split; [reflexivity|]. split; [repeat constructor|].
    split; [constructor|]. split.
    + split; [intros [D|[]]; discriminate D|].
      intros (r & [D|[]] & Hr). injection D as D. lia.
    + intros r [D|[]]. injection D as D. auto.
  - rewrite (consolenames_front _ _ _ _ _ St Mr Q) in H.
    set (w0 := mk_sys q (calls w ++ proc_calls e f)) in *.
    destruct (proc_calls_mounts e f) as (Um & Mo & Pc).
    assert (Pre : (In PrUmount (proc_calls e f) <->
                   exists r, In (PrMount r) (proc_calls e f) /\ 0 <= r)
                  /\ (forall r, In (PrMount r) (proc_calls e f) ->
                                same_dev e = true /\ r = mount_ret e)).
    { split; [|intro r; apply Mo]. rewrite Um. split.
      - intro Sd. exists (mount_ret e). split; [apply Mo; auto | auto].
      - intros (r & I & _). apply Mo in I. tauto. }
    destruct Pre as [P1 P2].
    assert (Fin : forall post,
               calls (after o) = calls w0 ++ post -> Forall dev_probe post ->
               exists pre post0,
                 calls (after o) = calls w ++ pre ++ post0
                 /\ Forall proc_call pre /\ Forall dev_probe post0
                 /\ (In PrUmount pre <-> exists r, In (PrMount r) pre /\ 0 <= r)
                 /\ (forall r, In (PrMount r) pre ->
                               same_dev e = true /\ r = mount_ret e)).
    { intros post C D. exists (proc_calls e f), post.
      split; [rewrite C; unfold w0; cbn [calls]; now rewrite app_assoc|].
      auto. }
    destruct (if f <? 0 then None else read_cmdline e) as [data|].
    2:{ injection H as <-. apply (Fin []); [now rewrite app_nil_r | constructor]. }
    destruct (Nat.ltb _ _); [discriminate|].
    destruct (scan _ _ _ w0) as [[st wa]|] eqn:Sc; [|discriminate].
    destruct (scan_spec _ _ _ _ _ _ Sc) as (evs & more & C & Dp & _).
    destruct (0 <? Z.of_nat (List.length (found st))).
    + injection H as <-. apply (Fin evs); auto.
    + destruct o as [[n names] wz].
      destruct (guess_spec _ _ _ _ _ H) as (ev2 & C2 & D2 & _).
      apply (Fin (evs ++ ev2)).
      * cbn [after]. rewrite C2, C. now rewrite app_assoc.
      * apply Forall_app; auto.
Qed.

Lemma proc_unmounted_before_probing_witness :
  exists o,
    consolenames MAX_CONSOLES boot_proc boot_sys = Some o
    /\ exists pre post,
         calls (after o) = calls boot_sys ++ pre ++ post
         /\ Forall proc_call pre
         /\ Forall dev_probe post
         /\ (In PrUmount pre <-> exists r, In (PrMount r) pre /\ 0 <= r)
         /\ (forall r, In (PrMount r) pre ->
                       same_dev boot_proc = true /\ r = mount_ret boot_proc).
Proof.
  eexists. split; [vm_compute; reflexivity|].
  eapply (proc_unmounted_before_probing MAX_CONSOLES boot_proc boot_sys).
  vm_compute. reflexivity.
Defined.

(** ** The order of the table *)

Lemma nth_suffix (a b : list ascii) (sp : ascii) (q : nat) :
  nth (List.length a + 1 + q) (a ++ sp :: b) NUL = nth q b NUL.
Proof.
  rewrite app_nth2 by lia.
  replace (List.length a + 1 + q - List.length a)%nat with (S q) by lia.
  reflexivity.
Qed.

Lemma skipn_suffix (a b : list ascii) (sp : ascii) (q : nat) :
  skipn (List.length a + 1 + q) (a ++ sp :: b) = skipn q b.
Proof.
  induction a as [|c a IH]; [reflexivity|]. exact IH.
Qed.

Lemma clear_at_suffix (a b : list ascii) (sp : ascii) (q : nat) :
  clear_at (List.length a + 1 + q) (a ++ sp :: b) = a ++ sp :: clear_at q b.
Proof.
  induction a as [|c a IH]; [reflexivity|].
  cbn [List.length app Nat.add clear_at]. now rewrite IH.
Qed.

Lemma scan_suffix (max_consoles : Z) (a : list ascii) (sp : ascii) (k : nat) :
  forall b names w,
    scan (List.length a + 1 + k) max_consoles
      (mk_scan (a ++ sp :: b) names false) w =
    match scan k max_consoles (mk_scan b names false) w with
    | None => None
    | Some (Done st w1) =>
        if full st
        then Some (Done (mk_scan (a ++ sp :: cmd st) (found st) true) w1)
        else scan (List.length a + 1) max_consoles
               (mk_scan (a ++ sp :: cmd st) (found st) false) w1
    end.
Proof.
  induction k as [|k IH]; intros b names w.
  - cbn [scan full cmd found]. now rewrite Nat.add_0_r.
  - replace (List.length a + 1 + S k)%nat with (S (List.length a + 1 + k))
      by lia.
    cbn [scan cmd found]. rewrite nth_suffix.
    destruct (is_blank (nth k b NUL)).
    { rewrite clear_at_suffix. apply IH. }
    unfold string_at.
    replace (List.length a + 1 + k + 8)%nat with (List.length a + 1 + (k + 8))%nat
      by lia.
    rewrite !skipn_suffix.
    destruct (prefix "console=" (c_string (skipn k b))); [|apply IH].
    destruct (isconsole _ _ w) as [[[res|] w1]|]; try reflexivity;
      [|apply IH].
    destruct (existsb _ _); [apply IH|].
    destruct (max_consoles <=? _); [reflexivity | apply IH].
Qed.

(** X24. The command line is read from its end: what the scan finds in
    the part after a blank stands in the table before anything it finds in
    the part in front of that blank. *)
Theorem later_parameters_come_first (max_consoles : Z) (a b : list ascii)
    (sp : ascii) (w w1 : sys) (st : scan_state) :
  is_blank sp = true ->
  scan (List.length (a ++ sp :: b)) max_consoles
    (mk_scan (a ++ sp :: b) [] false) w = Some (Done st w1) ->
  exists stb wb more,
    scan (List.length b) max_consoles (mk_scan b [] false) w
      = Some (Done stb wb)
    /\ found st = found stb ++ more.
Proof.
  intros Bl H.
  replace (List.length (a ++ sp :: b))
    with (List.length a + 1 + List.length b)%nat in H
    by (rewrite length_app; simpl; lia).
  rewrite scan_suffix in H.
  destruct (scan (List.length b) max_consoles (mk_scan b [] false) w)
    as [[stb wb]|]; [|discriminate].
  exists stb, wb. destruct (full stb).
  - injection H as <- <-. exists []. split; [reflexivity|].
    cbn [found]. now rewrite app_nil_r.
  - destruct (scan_spec _ _ _ _ _ _ H) as (evs & more & _ & _ & Fo & _).
    exists more. auto.
Qed.

Lemma later_parameters_come_first_witness :
  exists st w1,
    scan (List.length (bytes "console=tty0" ++ " "%char :: bytes "console=ttyS0"))
      MAX_CONSOLES
      (mk_scan (bytes "console=tty0" ++ " "%char :: bytes "console=ttyS0")
         [] false) dev_sys = Some (Done st w1)
    /\ found st = ["/dev/ttyS0"; "/dev/tty0"]%string
    /\ exists stb wb more,
         scan (List.length (bytes "console=ttyS0")) MAX_CONSOLES
           (mk_scan (bytes "console=ttyS0") [] false) dev_sys
           = Some (Done stb wb)
         /\ found st = found stb ++ more.
Proof.
  do 2 eexists. split; [vm_compute; reflexivity|].
  split; [vm_compute; reflexivity|].
  eapply (later_parameters_come_first MAX_CONSOLES (bytes "console=tty0")
            (bytes "console=ttyS0") " "%char dev_sys).
  - reflexivity.
  - vm_compute. reflexivity.
Defined.

Lemma flag_cons (c i : ascii) (a : string) (opts : list (ascii * string)) :
  flag c ((i, a) :: opts) = if Ascii.eqb i c then 1 else flag c opts.
Proof. unfold flag. simpl. now destruct (Ascii.eqb i c). Qed.

Lemma last_logfile_cons (i : ascii) (a d : string)
    (opts : list (ascii * string)) :
  last_logfile ((i, a) :: opts) d =
    last_logfile opts (if Ascii.eqb i "l" then a else d).
Proof. reflexivity. Qed.

Lemma flag_values (c : ascii) (opts : list (ascii * string)) :
  flag c opts = 0 \/ flag c opts = 1.
Proof. unfold flag. destruct (existsb _ opts); auto. Qed.

Lemma getopt_loop_runs (opts : list (ascii * string)) :
  forall cfg cfg1,
    getopt_loop opts cfg = Runs cfg1 ->
    Forall handled opts
    /\ opt_logfile cfg1 = last_logfile opts (opt_logfile cfg)
    /\ opt_rotate cfg1 = (if flag "r" opts =? 1 then 1 else opt_rotate cfg)
    /\ opt_createlogfile cfg1 =
       (if flag "c" opts =? 1 then 1 else opt_createlogfile cfg)
    /\ opt_syncalot cfg1 = (if flag "s" opts =? 1 then 1 else opt_syncalot cfg).
Proof.
  induction opts as [|[i a] opts IH]; intros cfg cfg1; cbn [getopt_loop].
  - intro H. injection H as <-. repeat split; auto.
  - rewrite !flag_cons, last_logfile_cons.
    assert (K : forall cfg2,
               handled (i, a) -> getopt_loop opts cfg2 = Runs cfg1 ->
               Forall handled ((i, a) :: opts)
               /\ opt_logfile cfg1 = last_logfile opts (opt_logfile cfg2)
               /\ opt_rotate cfg1 =
                  (if flag "r" opts =? 1 then 1 else opt_rotate cfg2)
               /\ opt_createlogfile cfg1 =
                  (if flag "c" opts =? 1 then 1 else opt_createlogfile cfg2)
               /\ opt_syncalot cfg1 =
                  (if flag "s" opts =? 1 then 1 else opt_syncalot cfg2)).
    { intros cfg2 Hh H. destruct (IH _ _ H) as (F & R). split; [|exact R].
      constructor; auto. }
    destruct (Ascii.eqb i "l") eqn:El.
    { apply Ascii.eqb_eq in El. subst i. intro H.
      apply K in H; [|unfold handled; simpl; tauto].
      change (Ascii.eqb "l" "r") with false. change (Ascii.eqb "l" "c") with false.
      change (Ascii.eqb "l" "s") with false. exact H. }
    destruct (Ascii.eqb i "r") eqn:Er.
    { apply Ascii.eqb_eq in Er. subst i. intro H.
      apply K in H; [|unfold handled; simpl; tauto].
      change (Ascii.eqb "r" "c") with false. change (Ascii.eqb "r" "s") with false.
      cbn [opt_logfile opt_rotate opt_createlogfile opt_syncalot] in H.
      destruct H as (F & L & R & C & S1). repeat split; auto.
      rewrite R. now destruct (flag "r" opts =? 1). }
    destruct (Ascii.eqb i "v") eqn:Ev; [discriminate|].
    destruct (Ascii.eqb i "c") eqn:Ec.
    { apply Ascii.eqb_eq in Ec. subst i. intro H.
      apply K in H; [|unfold handled; simpl; tauto].
      change (Ascii.eqb "c" "s") with false.
      cbn [opt_logfile opt_rotate opt_createlogfile opt_syncalot] in H.
      destruct H as (F & L & R & C & S1). repeat split; auto.
      rewrite C. now destruct (flag "c" opts =? 1). }
    destruct (Ascii.eqb i "s") eqn:Es; [|discriminate].
    apply Ascii.eqb_eq in Es. subst i. intro H.
    apply K in H; [|unfold handled; simpl; tauto].
    cbn [opt_logfile opt_rotate opt_createlogfile opt_syncalot] in H.
    destruct H as (F & L & R & C & S1). repeat split; auto.
    rewrite S1. now destruct (flag "s" opts =? 1).
Qed.

Lemma getopt_loop_handled (opts : list (ascii * string)) :
  forall cfg, Forall handled opts -> exists cfg1, getopt_loop opts cfg = Runs cfg1.
Proof.
  induction opts as [|[i a] opts IH]; intros cfg F; cbn [getopt_loop]; [eauto|].
  inversion F as [|? ? Hi F2]; subst. unfold handled in Hi. simpl in Hi.
  destruct Hi as [<-|[<-|[<-|[<-|[]]]]]; cbn [Ascii.eqb Bool.eqb andb];
    apply IH; exact F2.
Qed.

(** X25. When the program goes on after its options, there were no
    operands and only -l, -r, -c and -s; the log file is the argument of
    the last -l, or the default without one, and [rotate],
    [createlogfile] and [syncalot] are 1 exactly when -r, -c and -s were
    given, however often and in whatever order. *)
Theorem options_set_the_configuration (opts : list (ascii * string))
    (operands : bool) (cfg : config) :
  parse_args opts operands = Runs cfg ->
  operands = false
  /\ Forall handled opts
  /\ opt_logfile cfg = last_logfile opts LOGFILE
  /\ opt_rotate cfg = flag "r" opts
  /\ opt_createlogfile cfg = flag "c" opts
  /\ opt_syncalot cfg = flag "s" opts.
Proof.
  unfold parse_args.
  destruct (getopt_loop opts default_config) as [n|c] eqn:G; [discriminate|].
  destruct operands; [discriminate|]. intro H. injection H as <-.
  destruct (getopt_loop_runs _ _ _ G) as (F & L & R & C & S1).
  cbn [default_config opt_logfile opt_rotate opt_createlogfile opt_syncalot]
    in *.
  split; [reflexivity|]. split; [exact F|]. split; [exact L|].
  rewrite R, C, S1.
  destruct (flag_values "r" opts) as [-> | ->],
           (flag_values "c" opts) as [-> | ->],
           (flag_values "s" opts) as [-> | ->]; repeat split.
Qed.

Lemma options_set_the_configuration_witness :
  parse_args sample_options false = Runs (mk_config "/tmp/log" 1 0 1)
  /\ opt_logfile (mk_config "/tmp/log" 1 0 1)
     = last_logfile sample_options LOGFILE
  /\ opt_rotate (mk_config "/tmp/log" 1 0 1) = flag "r" sample_options.
Proof.
  split; [reflexivity|].
  destruct (options_set_the_configuration sample_options false
              (mk_config "/tmp/log" 1 0 1))
    as (_ & _ & C & D & _).
  - reflexivity.
  - split; [exact C | exact D].
Defined.

Lemma getopt_loop_exits (opts : list (ascii * string)) :
  forall cfg n,
    getopt_loop opts cfg = Exits n ->
    exists pre i a post,
      opts = pre ++ (i, a) :: post
      /\ Forall handled pre /\ ~ handled (i, a)
      /\ n = (if Ascii.eqb i "v" then 0 else 1).
Proof.
  induction opts as [|[i a] opts IH]; intros cfg n; cbn [getopt_loop];
    [discriminate|].
  assert (K : forall cfg2,
             handled (i, a) -> getopt_loop opts cfg2 = Exits n ->
             exists pre i0 a0 post,
               (i, a) :: opts = pre ++ (i0, a0) :: post
               /\ Forall handled pre /\ ~ handled (i0, a0)
               /\ n = (if Ascii.eqb i0 "v" then 0 else 1)).
  { intros cfg2 Hh H. destruct (IH _ _ H) as (pre & i0 & a0 & post & -> & F & N & E).
    exists ((i, a) :: pre), i0, a0, post. repeat split; auto. }
  assert (Bad : forall m,
             Ascii.eqb i "l" = false -> Ascii.eqb i "r" = false ->
             Ascii.eqb i "c" = false -> Ascii.eqb i "s" = false ->
             m = (if Ascii.eqb i "v" then 0 else 1) ->
             Exits m = Exits n ->
             exists pre i0 a0 post,
               (i, a) :: opts = pre ++ (i0, a0) :: post
               /\ Forall handled pre /\ ~ handled (i0, a0)
               /\ n = (if Ascii.eqb i0 "v" then 0 else 1)).
  { intros m El Er Ec Es Em H. injection H as <-.
    exists [], i, a, opts. split; [reflexivity|]. split; [constructor|].
    split; [|exact Em]. unfold handled. simpl.
    intros [<-|[<-|[<-|[<-|[]]]]]; discriminate. }
  destruct (Ascii.eqb i "l") eqn:El.
  { apply Ascii.eqb_eq in El. subst i. apply K. unfold handled. simpl. tauto. }
  destruct (Ascii.eqb i "r") eqn:Er.
  { apply Ascii.eqb_eq in Er. subst i. apply K. unfold handled. simpl. tauto. }
  destruct (Ascii.eqb i "v") eqn:Ev.
  { apply Ascii.eqb_eq in Ev. subst i. apply Bad; reflexivity. }
  destruct (Ascii.eqb i "c") eqn:Ec.
  { apply Ascii.eqb_eq in Ec. subst i. apply K. unfold handled. simpl. tauto. }
  destruct (Ascii.eqb i "s") eqn:Es.
  { apply Ascii.eqb_eq in Es. subst i. apply K. unfold handled. simpl. tauto. }
  apply Bad; auto.
Qed.

(** X26. The first option that is not one of -l, -r, -c and -s ends the
    program, whatever follows it: with status 0 when it is -v, with the
    usage message and status 1 otherwise.  This includes -d and -p, which
    the option string gives to [getopt] but the [switch] does not
    handle. *)
Theorem first_unhandled_option_decides (pre post : list (ascii * string))
    (i : ascii) (a : string) (operands : bool) :
  Forall handled pre ->
  ~ handled (i, a) ->
  parse_args (pre ++ (i, a) :: post) operands
  = Exits (if Ascii.eqb i "v" then 0 else 1).
Proof.
  intros F N. unfold parse_args.
  destruct (getopt_loop (pre ++ (i, a) :: post) default_config) as [n|c] eqn:G.
  - destruct (getopt_loop_exits _ _ _ G)
      as (pre2 & i2 & a2 & post2 & E & F2 & N2 & ->).
    assert (P : pre = pre2 /\ (i, a) = (i2, a2)).
    { clear - E F N F2 N2. revert pre2 E F2.
      induction pre as [|x pre IH]; intros pre2 E F2.
      - destruct pre2 as [|y pre2]; [now injection E as <- <-|].
        simpl in E. injection E as <- _. inversion F2; subst. contradiction.
      - destruct pre2 as [|y pre2].
        + simpl in E. injection E as -> _. inversion F; subst. contradiction.
        + simpl in E. injection E as <- E. inversion F; inversion F2; subst.
          destruct (IH H2 pre2 E H6) as [-> P]. auto. }
    destruct P as [_ P]. injection P as <- <-. reflexivity.
  - exfalso. destruct (getopt_loop_runs _ _ _ G) as (F2 & _).
    apply Forall_app in F2. destruct F2 as [_ F2]. inversion F2; subst.
    contradiction.
Qed.

Lemma first_unhandled_option_decides_witness :
  parse_args ([("r"%char, EmptyString)]
                ++ ("d"%char, EmptyString) :: [("v"%char, EmptyString)]) false
  = Exits 1.
Proof.
  apply (first_unhandled_option_decides [("r"%char, EmptyString)]
           [("v"%char, EmptyString)] "d" EmptyString false).
  - constructor; [unfold handled; simpl; tauto | constructor].
  - unfold handled. simpl. intros [H|[H|[H|[H|[]]]]]; discriminate H.
Defined.
